(** * Insight generation and reconciliation engine of tools.garmin.dailysync

    A shallow embedding of [src/utils/ai_insights.ts], the insight table of
    [src/utils/sqlite.ts] and the comment helpers of
    [src/utils/garmin_common.ts], with the properties the specification
    states about them.

    Conventions of the embedding.
    - JavaScript strings are [string]s of UTF-8 bytes.  White space, for
      [trim], [\s] and [parseInt], is the set ECMAScript gives, each
      character in its UTF-8 form.
    - JavaScript numbers that carry a confidence are [number]: [NaN] or an
      exact rational.  A decimal literal is read as the rational it
      denotes, so [0.85] is [85 # 100].
    - [async] functions are computations in the monad [M]: a state
      transformer over [World] that either returns or throws.
    - The clock of the world is what [Date.now()] reads.  It moves
      while a computation is suspended (a timer, a request, a statement
      against the database) and while a model call is prepared: by the
      delay a timer runs for, and by a tick that is never negative.
    - The trace of the world records what a run did, newest first. *)

From Stdlib Require Import String Ascii List ZArith QArith Qround Lia Bool Arith.
From Stdlib Require Import DecimalString.
Import ListNotations.

Set Implicit Arguments.
Open Scope string_scope.

(* ================================================================= *)
(** ** JavaScript strings *)

Module JsString.

Definition LF : ascii := "010"%char.

(** White space is what [String.prototype.trim], the regular expression
    class [\s] and [parseInt] take for it.  Its ASCII members: U+0009 to
    U+000D and U+0020. *)
Definition isWhiteSpace (c : ascii) : bool :=
  let n := nat_of_ascii c in
  (Nat.eqb n 9 || Nat.eqb n 10 || Nat.eqb n 11 || Nat.eqb n 12
   || Nat.eqb n 13 || Nat.eqb n 32)%bool.

(** U+00A0, in UTF-8 the bytes C2 A0. *)
Definition isWideSpace2 (a b : ascii) : bool :=
  (Nat.eqb (nat_of_ascii a) 194 && Nat.eqb (nat_of_ascii b) 160)%bool.

(** The members of three bytes: U+1680 (E1 9A 80); U+2000 to U+200A,
    U+2028, U+2029 and U+202F (E2 80 80 to 8A, A8, A9, AF); U+205F
    (E2 81 9F); U+3000 (E3 80 80); U+FEFF (EF BB BF). *)
Definition isWideSpace3 (a b c : ascii) : bool :=
  let x := nat_of_ascii a in
  let y := nat_of_ascii b in
  let z := nat_of_ascii c in
  ((Nat.eqb x 225 && Nat.eqb y 154 && Nat.eqb z 128)
   || (Nat.eqb x 226 && Nat.eqb y 128
       && ((Nat.leb 128 z && Nat.leb z 138)
           || Nat.eqb z 168 || Nat.eqb z 169 || Nat.eqb z 175))
   || (Nat.eqb x 226 && Nat.eqb y 129 && Nat.eqb z 159)
   || (Nat.eqb x 227 && Nat.eqb y 128 && Nat.eqb z 128)
   || (Nat.eqb x 239 && Nat.eqb y 187 && Nat.eqb z 191))%bool.

(** What is left of [s] after the white space character it starts
    with. *)
Definition stripSpace (s : string) : option string :=
  match s with
  | EmptyString => None
  | String a r =>
      if isWhiteSpace a then Some r
      else
        match r with
        | EmptyString => None
        | String b r' =>
            if isWideSpace2 a b then Some r'
            else
              match r' with
              | EmptyString => None
              | String c r'' => if isWideSpace3 a b c then Some r'' else None
              end
        end
  end.

Definition isDigit (c : ascii) : bool :=
  let n := nat_of_ascii c in (Nat.leb 48 n && Nat.leb n 57)%bool.

(** ASCII case folding, as the [i] flag does without the [u] flag. *)
Definition toLower (c : ascii) : ascii :=
  let n := nat_of_ascii c in
  if (Nat.leb 65 n && Nat.leb n 90)%bool then ascii_of_nat (n + 32) else c.

(** [s] is truthy: it is not the empty string. *)
Definition truthy (s : string) : bool :=
  match s with EmptyString => false | String _ _ => true end.

(** [startsWith p s]: [Some rest] when [s = p ++ rest]. *)
Fixpoint stripPrefix (p s : string) : option string :=
  match p, s with
  | EmptyString, _ => Some s
  | String a p', String b s' =>
      if Ascii.eqb a b then stripPrefix p' s' else None
  | String _ _, EmptyString => None
  end.

(** The same, comparing letters without regard to case. *)
Fixpoint stripPrefixCI (p s : string) : option string :=
  match p, s with
  | EmptyString, _ => Some s
  | String a p', String b s' =>
      if Ascii.eqb (toLower a) (toLower b) then stripPrefixCI p' s' else None
  | String _ _, EmptyString => None
  end.

Definition startsWith (p s : string) : bool :=
  match stripPrefix p s with Some _ => true | None => false end.

(** [hay.includes(needle)] *)
Fixpoint includes (needle hay : string) : bool :=
  match hay with
  | EmptyString => startsWith needle EmptyString
  | String _ hay' => (startsWith needle hay || includes needle hay')%bool
  end.

(** Number of positions of [hay] at which [needle] starts. *)
Fixpoint occurrences (needle hay : string) : nat :=
  match hay with
  | EmptyString => 0
  | String _ hay' =>
      (if startsWith needle hay then 1 else 0) + occurrences needle hay'
  end.

(** [s] without the white space it starts with: [stripSpace] as often
    as it applies. *)
Fixpoint trimStart (s : string) : string :=
  match s with
  | EmptyString => EmptyString
  | String a r =>
      if isWhiteSpace a then trimStart r
      else
        match r with
        | EmptyString => s
        | String b r' =>
            if isWideSpace2 a b then trimStart r'
            else
              match r' with
              | EmptyString => s
              | String c r'' => if isWideSpace3 a b c then trimStart r'' else s
              end
        end
  end.

(** [s] holds white space only. *)
Definition isBlank (s : string) : bool :=
  match trimStart s with EmptyString => true | String _ _ => false end.

(** [s] up to the white space it ends with. *)
Fixpoint trimEnd (s : string) : string :=
  match s with
  | EmptyString => EmptyString
  | String c s' => if isBlank s then EmptyString else String c (trimEnd s')
  end.

Definition trim (s : string) : string := trimEnd (trimStart s).

(** Longest prefix of characters satisfying [p], and what follows it. *)
Fixpoint span (p : ascii -> bool) (s : string) : string * string :=
  match s with
  | EmptyString => (EmptyString, EmptyString)
  | String c s' =>
      if p c then let '(a, b) := span p s' in (String c a, b)
      else (EmptyString, s)
  end.

End JsString.
Import JsString.

(* ================================================================= *)
(** ** JavaScript numbers *)

Inductive number : Type :=
| NaN
| Num (q : Q).

Definition Math_max (a b : number) : number :=
  match a, b with
  | Num x, Num y => Num (if Qle_bool x y then y else x)
  | _, _ => NaN
  end.

Definition Math_min (a b : number) : number :=
  match a, b with
  | Num x, Num y => Num (if Qle_bool x y then x else y)
  | _, _ => NaN
  end.

(** [lo <= n <= hi], false for [NaN] as every comparison with it is. *)
Definition inRange (lo hi : Q) (n : number) : bool :=
  match n with
  | NaN => false
  | Num q => (Qle_bool lo q && Qle_bool q hi)%bool
  end.

Definition digitValue (c : ascii) : Z := Z.of_nat (nat_of_ascii c) - 48.

(** Value of a string of decimal digits, most significant first. *)
Fixpoint digitsToZ (acc : Z) (s : string) : Z :=
  match s with
  | EmptyString => acc
  | String c s' => digitsToZ (10 * acc + digitValue c) s'
  end.

(** [parseFloat] on a string of digits and dots (the only strings the
    confidence pattern captures): the longest prefix that is a decimal
    literal, [NaN] when that prefix holds no digit. *)
Definition parseFloat (s : string) : number :=
  let '(ip, r) := span isDigit s in
  let fp := match r with
            | String c r' => if Ascii.eqb c "." then fst (span isDigit r') else EmptyString
            | EmptyString => EmptyString
            end in
  match ip, fp with
  | EmptyString, EmptyString => NaN
  | _, _ =>
      Num (Qmake (digitsToZ 0 (ip ++ fp))
                 (Z.to_pos (10 ^ Z.of_nat (String.length fp))))
  end.

(** The double nearest to the integer [n], ties to even: what a number
    keeps of an integer.  Integers below [2 ^ 53] are kept as they are.
    Above the largest double the code has [Infinity], which the numbers
    of this development do not have; an integer that large is rounded
    as if the exponent had no bound. *)
Definition toDouble (n : Z) : Z :=
  let m := Z.abs n in
  if (m <? 2 ^ 53)%Z then n
  else
    let e := (Z.log2 m - 52)%Z in
    let q := Z.shiftr m e in
    let r := (m - Z.shiftl q e)%Z in
    let half := Z.shiftl 1 (e - 1) in
    let q' := if (r <? half)%Z then q
              else if (half <? r)%Z then (q + 1)%Z
              else if Z.even q then q else (q + 1)%Z in
    (Z.sgn n * Z.shiftl q' e)%Z.

(** [parseInt] on a string of decimal digits. *)
Definition parseInt (s : string) : Z := toDouble (digitsToZ 0 s).

(* ================================================================= *)
(** ** Confidence extraction ([parseConfidence], ai_insights.ts) *)

Record ParsedConfidence : Type := mkParsed {
  pc_insight : string;
  pc_confidence : number
}.

Definition isNumChar (c : ascii) : bool :=
  (isDigit c || Ascii.eqb c ".")%bool.

(** The part [\s*([0-9.]+)\]] of the pattern, anchored at the start of
    [r]: the captured group and the text after the closing bracket.  The
    two classes are disjoint and the bracket is in neither, so the greedy
    runs decide the match. *)
Definition matchConfidenceTail (r : string) : option (string * string) :=
  let r1 := trimStart r in
  let '(g, r2) := span isNumChar r1 in
  match g, r2 with
  | String _ _, String c r3 => if Ascii.eqb c "]" then Some (g, r3) else None
  | _, _ => None
  end.

(** The pattern [/\[CONFIDENCE:\s*([0-9.]+)\]/i] anchored at the start
    of [s]. *)
Definition matchConfidenceAt (s : string) : option (string * string) :=
  match stripPrefixCI "[CONFIDENCE:" s with
  | None => None
  | Some r => matchConfidenceTail r
  end.

(** Leftmost match of the pattern in [s]: text before it, the captured
    group, text after it. *)
Fixpoint findConfidence (s : string) : option (string * string * string) :=
  match matchConfidenceAt s with
  | Some (g, rest) => Some (EmptyString, g, rest)
  | None =>
      match s with
      | EmptyString => None
      | String c s' =>
          match findConfidence s' with
          | Some (pre, g, rest) => Some (String c pre, g, rest)
          | None => None
          end
      end
  end.

Definition DEFAULT_CONFIDENCE : Q := 0.7.

Definition parseConfidence (text : string) : ParsedConfidence :=
  match findConfidence text with
  | Some (pre, g, rest) =>
      let confidence := parseFloat g in
      let insight := trim (pre ++ rest) in
      mkParsed insight (Math_min (Num 1) (Math_max (Num 0) confidence))
  | None => mkParsed text (Num DEFAULT_CONFIDENCE)
  end.

(* ================================================================= *)
(** ** Values exchanged with the collaborators *)

(** One entry of [error.errorDetails]. *)
Record ErrorDetail : Type := mkDetail {
  atType : option string;       (* d['@type'] *)
  retryDelay : option string    (* d.retryDelay *)
}.

(** What a failed model call throws. *)
Record ApiError : Type := mkApiError {
  status : option Z;
  statusText : option string;
  errorDetails : option (list ErrorDetail)
}.

Inductive JsError : Type :=
| SqliteError                       (* a statement or the open of the database file failed *)
| GarminError                       (* a request to the remote service failed *)
| GenerationError (e : ApiError)    (* the model call failed *)
| RangeError.                       (* toISOString of an invalid Date *)

Inductive ModelReply : Type :=
| ReplyText (text : string)
| ReplyError (e : ApiError).

(** A remote activity, as far as the engine reads and writes it. *)
Record RemoteActivity : Type := mkRemote {
  ra_activityName : string;
  ra_description : option string
}.

(** A row of table [ai_insights]. *)
Record AIInsightRecord : Type := mkRow {
  r_id : Z;
  r_activityId : string;
  r_activityName : string;
  r_insight : string;
  r_model : string;
  r_confidenceColumn : option Q;   (* REAL; None is NULL *)
  r_createdAt : Z
}.

(** [insight.confidence] of a row read back, as the product
    [insight.confidence * 100] takes it: [null] counts as 0. *)
Definition r_confidence (r : AIInsightRecord) : number :=
  match r_confidenceColumn r with
  | Some q => Num q
  | None => Num 0
  end.

(** A number bound to a parameter of a statement: SQLite stores [NaN]
    as NULL. *)
Definition bindReal (n : number) : option Q :=
  match n with
  | Num q => Some q
  | NaN => None
  end.

Record Table : Type := mkTable {
  columns : list string;
  rows : list AIInsightRecord;
  sequence : Z                   (* last AUTOINCREMENT value handed out *)
}.

Inductive SqlWrite : Type :=
| CreateTable
| AddColumn (column : string)
| InsertOrReplace (activityId : string).

(** What a run leaves in the trace of the world: the statements that
    write to the store, the failures of the store, the requests to the
    remote service, the entry into the generation loop (the line
    "Generating insights for activity ..."), the passes through the rate
    gate with the time it wrote to [lastRequestTime], the model calls
    with the time they were issued at, the retries announced (the line
    "Rate limited (429). Waiting ...") and the timers set. *)
Inductive Event : Type :=
| EvSqlWrite (stmt : SqlWrite)
| EvSqlError
| EvGetActivity (activityId : string)
| EvPostDescription (activityId : string) (description : string)
| EvGenerating (activityId : string)
| EvRateGate (passedAt : Z)
| EvGenerateContent (issuedAt : Z)
| EvRetry (attempt : Z) (delayMs : Z)
| EvSleep (ms : Z).

(** How a request to the remote service goes: it is answered, it fails
    before the service has acted on it, or the service acts on it and
    the answer is lost on the way back. *)
Inductive RemoteFault : Type :=
| Answered
| Refused
| AnswerLost.

(* ================================================================= *)
(** ** The world and the monad of asynchronous steps *)

Record World : Type := mkWorld {
  table : option Table;                          (* ai_insights in the database file *)
  dbFaults : list bool;                          (* whether the next database steps fail *)
  activities : list (string * RemoteActivity);   (* the remote account *)
  remoteFaults : list RemoteFault;               (* how the next remote requests go *)
  replies : list ModelReply;                     (* what the next model calls answer *)
  ticks : list N;                                (* time the next suspensions take beyond the asked delay *)
  clock : Z;                                     (* Date.now() *)
  lastRequestTime : Z;                           (* let lastRequestTime = 0 *)
  trace : list Event                             (* newest first *)
}.

Definition set_table (t : option Table) (w : World) : World :=
  mkWorld t (dbFaults w) (activities w) (remoteFaults w) (replies w)
          (ticks w) (clock w) (lastRequestTime w) (trace w).
Definition set_dbFaults (f : list bool) (w : World) : World :=
  mkWorld (table w) f (activities w) (remoteFaults w) (replies w)
          (ticks w) (clock w) (lastRequestTime w) (trace w).
Definition set_activities (a : list (string * RemoteActivity)) (w : World) : World :=
  mkWorld (table w) (dbFaults w) a (remoteFaults w) (replies w)
          (ticks w) (clock w) (lastRequestTime w) (trace w).
Definition set_remoteFaults (f : list RemoteFault) (w : World) : World :=
  mkWorld (table w) (dbFaults w) (activities w) f (replies w)
          (ticks w) (clock w) (lastRequestTime w) (trace w).
Definition set_replies (r : list ModelReply) (w : World) : World :=
  mkWorld (table w) (dbFaults w) (activities w) (remoteFaults w) r
          (ticks w) (clock w) (lastRequestTime w) (trace w).
Definition set_time (ts : list N) (c : Z) (w : World) : World :=
  mkWorld (table w) (dbFaults w) (activities w) (remoteFaults w) (replies w)
          ts c (lastRequestTime w) (trace w).
Definition set_lastRequestTime (t : Z) (w : World) : World :=
  mkWorld (table w) (dbFaults w) (activities w) (remoteFaults w) (replies w)
          (ticks w) (clock w) t (trace w).
Definition set_trace (tr : list Event) (w : World) : World :=
  mkWorld (table w) (dbFaults w) (activities w) (remoteFaults w) (replies w)
          (ticks w) (clock w) (lastRequestTime w) tr.

Inductive Res (A : Type) : Type :=
| Ok (a : A)
| Throw (e : JsError).
Arguments Throw {A} e.

Definition M (A : Type) : Type := World -> Res A * World.

Definition ret {A} (a : A) : M A := fun w => (Ok a, w).

Definition throw {A} (e : JsError) : M A := fun w => (Throw e, w).

Definition bind {A B} (m : M A) (k : A -> M B) : M B :=
  fun w => match m w with
           | (Ok a, w') => k a w'
           | (Throw e, w') => (Throw e, w')
           end.

(** [try { m } catch (e) { h e }] *)
Definition tryCatch {A} (m : M A) (h : JsError -> M A) : M A :=
  fun w => match m w with
           | (Ok a, w') => (Ok a, w')
           | (Throw e, w') => h e w'
           end.

Definition gets {A} (f : World -> A) : M A := fun w => (Ok (f w), w).

Definition modify (f : World -> World) : M unit := fun w => (Ok tt, f w).

Declare Scope js_scope.
Delimit Scope js_scope with js.
Notation "x <- c ;; k" := (bind c (fun x => k))
  (at level 61, c at next level, right associativity) : js_scope.
Notation "c ;; k" := (bind c (fun _ => k))
  (at level 61, right associativity) : js_scope.
Open Scope js_scope.

Definition emit (e : Event) : M unit :=
  modify (fun w => set_trace (e :: trace w) w).

(** A suspension: the clock moves on by the next tick. *)
Definition elapse : M unit :=
  modify (fun w =>
            match ticks w with
            | [] => w
            | t :: ts => set_time ts (clock w + Z.of_N t) w
            end).

Definition Date_now : M Z := gets clock.

(** The delay a timer runs for: [setTimeout] sets a delay below 1 or
    above 2147483647 to 1. *)
Definition timerDelay (ms : Z) : Z :=
  if ((ms <? 1)%Z || (2147483647 <? ms)%Z)%bool then 1%Z else ms.

(** [await new Promise(resolve => setTimeout(resolve, ms))]: resumes no
    earlier than the timer runs. *)
Definition sleep (ms : Z) : M unit :=
  emit (EvSleep ms) ;;
  modify (fun w => set_time (ticks w) (clock w + timerDelay ms) w) ;;
  elapse.

(* ================================================================= *)
(** ** The insight table ([src/utils/sqlite.ts]) *)

(** Stable sort by decreasing key ([ORDER BY id DESC], and the comparator
    [(a, b) => key b - key a] of [Array.prototype.sort]). *)
Section SortDesc.
Variable A : Type.
Variable key : A -> Z.

Fixpoint insertDesc (x : A) (l : list A) : list A :=
  match l with
  | [] => [x]
  | y :: l' => if (key x <? key y)%Z then y :: insertDesc x l' else x :: l
  end.

Definition sortDesc (l : list A) : list A := fold_right insertDesc [] l.
End SortDesc.

Definition hasColumn (c : string) (t : Table) : bool :=
  existsb (String.eqb c) (columns t).

Definition hasColumns (cs : list string) (t : Table) : bool :=
  forallb (fun c => hasColumn c t) cs.

(** One step against the database file ([open], [get], [all], [run],
    [exec]): it takes time and may fail. *)
Definition dbStep : M unit :=
  elapse ;;
  fs <- gets dbFaults ;;
  match fs with
  | [] => ret tt
  | false :: fs' => modify (set_dbFaults fs')
  | true :: fs' => modify (set_dbFaults fs') ;; emit EvSqlError ;; throw SqliteError
  end.

(** The statement names a table or column the file does not have. *)
Definition sqlError {A} : M A := emit EvSqlError ;; throw SqliteError.

Definition getDB : M unit := dbStep.

(** [PRAGMA table_info(ai_insights)] and [result.some(col => col.name === columnName)] *)
Definition columnExists (columnName : string) : M bool :=
  dbStep ;;
  t <- gets table ;;
  ret (match t with
       | Some t => hasColumn columnName t
       | None => false
       end).

Record Migration : Type := mkMigration {
  mg_column : string;
  mg_type : string;
  mg_defaultValue : option string
}.

Definition migrations : list Migration :=
  [ mkMigration "model" "VARCHAR(50)" (Some "'unknown'");
    mkMigration "confidence" "REAL" (Some "0.7");
    mkMigration "created_at" "DATETIME" (Some "datetime('now')") ].

(** What SQLite takes after [DEFAULT] without parentheses: a string
    literal or a number.  A function call such as [datetime('now')] is a
    syntax error there. *)
Definition literalDefault (d : string) : bool :=
  match d with
  | String c _ => (Ascii.eqb c "'" || isDigit c)%bool
  | EmptyString => false
  end.

(** The value the rows already there take in a column that is added
    with a literal default. *)
Definition fillDefault (column : string) (r : AIInsightRecord) : AIInsightRecord :=
  if String.eqb column "model" then
    mkRow (r_id r) (r_activityId r) (r_activityName r) (r_insight r)
          "unknown" (r_confidenceColumn r) (r_createdAt r)
  else if String.eqb column "confidence" then
    mkRow (r_id r) (r_activityId r) (r_activityName r) (r_insight r)
          (r_model r) (Some 0.7) (r_createdAt r)
  else r.

(** [ALTER TABLE ai_insights ADD COLUMN column type DEFAULT defaultValue] *)
Definition alterTableAddColumn (m : Migration) : M unit :=
  dbStep ;;
  t <- gets table ;;
  match t with
  | None => sqlError
  | Some t =>
      if negb (match mg_defaultValue m with
               | Some d => (negb (truthy d) || literalDefault d)%bool
               | None => true
               end)
      then sqlError
      else if hasColumn (mg_column m) t then sqlError
      else
        emit (EvSqlWrite (AddColumn (mg_column m))) ;;
        modify (set_table
                  (Some (mkTable (columns t ++ [mg_column m])
                                 (map (fillDefault (mg_column m)) (rows t))
                                 (sequence t))))
  end.

Definition FULL_SCHEMA : list string :=
  ["id"; "activity_id"; "activity_name"; "insight"; "model"; "confidence"; "created_at"].

(** [CREATE TABLE ai_insights (...)] *)
Definition createTable : M unit :=
  dbStep ;;
  t <- gets table ;;
  match t with
  | Some _ => sqlError
  | None =>
      emit (EvSqlWrite CreateTable) ;;
      modify (set_table (Some (mkTable FULL_SCHEMA [] 0)))
  end.

(** [for (const migration of migrations)] *)
Fixpoint runMigrations (ms : list Migration) : M unit :=
  match ms with
  | [] => ret tt
  | m :: ms' =>
      present <- columnExists (mg_column m) ;;
      (if negb present then alterTableAddColumn m else ret tt) ;;
      runMigrations ms'
  end.

Definition initAIInsightsTable : M unit :=
  getDB ;;
  dbStep ;;
  tableExists <- gets table ;;
  match tableExists with
  | None => createTable
  | Some _ => runMigrations migrations
  end.

Record AIInsightData : Type := mkData {
  d_activityId : string;
  d_activityName : string;
  d_insight : string;
  d_model : string;
  d_confidence : number
}.

(** The columns the [INSERT] names. *)
Definition INSERT_COLUMNS : list string :=
  ["activity_id"; "activity_name"; "insight"; "model"; "confidence"; "created_at"].

(** [INSERT OR REPLACE INTO ai_insights (...)]: the row with the same
    [activity_id], if any, gives way to the new one.  The confidence is
    bound as a REAL. *)
Definition saveAIInsight (data : AIInsightData) : M unit :=
  getDB ;;
  dbStep ;;
  t <- gets table ;;
  now <- Date_now ;;
  match t with
  | None => sqlError
  | Some t =>
      if hasColumns INSERT_COLUMNS t
      then
        let id := (sequence t + 1)%Z in
        let row := mkRow id (d_activityId data) (d_activityName data)
                         (d_insight data) (d_model data)
                         (bindReal (d_confidence data)) now in
        emit (EvSqlWrite (InsertOrReplace (d_activityId data))) ;;
        modify (set_table
                  (Some (mkTable (columns t)
                                 (row :: filter (fun r => negb (String.eqb (r_activityId r)
                                                                           (d_activityId data)))
                                                (rows t))
                                 id)))
      else sqlError
  end.

(** [SELECT insight FROM ai_insights WHERE activity_id = ?]; [None] is
    [undefined]. *)
Definition getAIInsight (activityId : string) : M (option string) :=
  getDB ;;
  dbStep ;;
  t <- gets table ;;
  match t with
  | None => sqlError
  | Some t =>
      if hasColumns ["insight"; "activity_id"] t
      then ret (option_map r_insight
                  (find (fun r => String.eqb (r_activityId r) activityId) (rows t)))
      else sqlError
  end.

Definition hasAIInsight (activityId : string) : M bool :=
  insight <- getAIInsight activityId ;;
  ret (match insight with Some _ => true | None => false end).

(** [SELECT ... FROM ai_insights ORDER BY id DESC] *)
Definition getAllAIInsights : M (list AIInsightRecord) :=
  getDB ;;
  dbStep ;;
  t <- gets table ;;
  match t with
  | None => sqlError
  | Some t =>
      if hasColumns FULL_SCHEMA t
      then ret (sortDesc r_id (rows t))
      else sqlError
  end.

(* ================================================================= *)
(** ** Comments on the remote activity ([src/utils/garmin_common.ts]) *)

(** The handle of a logged-in account; the account itself is the
    [activities] of the world. *)
Inductive GarminClientType : Type := GarminClient.

(** U+1F916, the robot face, in UTF-8: what [garmin_common.ts] looks
    for. *)
Definition ROBOT : string :=
  String "240" (String "159" (String "164" (String "150" EmptyString))).

(** What [ai_insights.ts] holds where its comment begins: the bytes
    C3 B0 C5 B8 C2 A4 E2 80 93, the robot face read as Windows-1252 and
    written out again. *)
Definition ROBOT_AS_WRITTEN : string :=
  String "195" (String "176" (String "197" (String "184" (String "194"
    (String "164" (String "226" (String "128" (String "147" EmptyString)))))))).

Definition INSIGHT_MARKER : string := ROBOT ++ " AI Insights".

Definition PLAIN_MARKER : string := "AI Insights (".

(** ['\n\n---\n\n'] *)
Definition SEPARATOR : string :=
  String LF (String LF ("---" ++ String LF (String LF EmptyString))).

Fixpoint lookupActivity (activityId : string) (l : list (string * RemoteActivity))
  : option RemoteActivity :=
  match l with
  | [] => None
  | (k, a) :: l' => if String.eqb k activityId then Some a else lookupActivity activityId l'
  end.

Fixpoint storeActivity (activityId : string) (a : RemoteActivity)
         (l : list (string * RemoteActivity)) : list (string * RemoteActivity) :=
  match l with
  | [] => []
  | (k, b) :: l' =>
      if String.eqb k activityId then (k, a) :: l'
      else (k, b) :: storeActivity activityId a l'
  end.

(** One request to the remote service: it takes time, and goes as the
    world has it. *)
Definition remoteStep : M RemoteFault :=
  elapse ;;
  fs <- gets remoteFaults ;;
  match fs with
  | [] => ret Answered
  | f :: fs' => modify (set_remoteFaults fs') ;; ret f
  end.

(** [client.getActivity({ activityId })]; [None] is a falsy answer. *)
Definition client_getActivity (_ : GarminClientType) (activityId : string)
  : M (option RemoteActivity) :=
  emit (EvGetActivity activityId) ;;
  outcome <- remoteStep ;;
  match outcome with
  | Answered =>
      acts <- gets activities ;;
      ret (lookupActivity activityId acts)
  | Refused | AnswerLost => throw GarminError
  end.

(** What the service does with a description it is sent. *)
Definition applyPost (activityId activityName description : string) : M unit :=
  modify (fun w => set_activities
                     (storeActivity activityId (mkRemote activityName (Some description))
                                    (activities w)) w).

(** [client.client.post(activityUrl, { activityId, activityName, description },
    { headers: { 'X-Http-Method-Override': 'PUT' } })]: when it throws,
    the service may or may not have written the description. *)
Definition client_post (_ : GarminClientType) (activityId activityName description : string)
  : M unit :=
  emit (EvPostDescription activityId description) ;;
  outcome <- remoteStep ;;
  match outcome with
  | Answered => applyPost activityId activityName description
  | Refused => throw GarminError
  | AnswerLost => applyPost activityId activityName description ;; throw GarminError
  end.

(** [activity.description || ''] *)
Definition descriptionOrEmpty (d : option string) : string :=
  match d with Some s => s | None => EmptyString end.

Definition hasExistingInsight (description : string) : bool :=
  (includes INSIGHT_MARKER description || includes PLAIN_MARKER description)%bool.

(** [[^]*?(?=\n\n---\n\n|$)]: the shortest run that ends before a
    separator or at the end of the text; what is left of [s] after it. *)
Fixpoint skipInsightBody (s : string) : string :=
  match s with
  | EmptyString => EmptyString
  | String _ s' => if startsWith SEPARATOR s then s else skipInsightBody s'
  end.

(** The pattern [(\n\n---\n\n)?🤖 AI Insights[^]*?(?=\n\n---\n\n|$)]
    anchored at the start of [s]: what is left of [s] after the match. *)
Definition matchInsightAt (s : string) : option string :=
  match stripPrefix (SEPARATOR ++ INSIGHT_MARKER) s with
  | Some r => Some (skipInsightBody r)
  | None =>
      match stripPrefix INSIGHT_MARKER s with
      | Some r => Some (skipInsightBody r)
      | None => None
      end
  end.

(** [s.replace(insightPattern, '')] with the [g] flag: every match, left
    to right, each search resuming where the last match ended.  A step
    consumes at least one character, so [fuel] the length of [s] is
    enough. *)
Fixpoint removeInsights (fuel : nat) (s : string) : string :=
  match fuel with
  | O => s
  | S fuel' =>
      match matchInsightAt s with
      | Some rest => removeInsights fuel' rest
      | None =>
          match s with
          | EmptyString => EmptyString
          | String c s' => String c (removeInsights fuel' s')
          end
      end
  end.

Definition replaceInsightPattern (s : string) : string :=
  removeInsights (String.length s) s.

Definition addActivityComment (activityId comment : string)
           (client : GarminClientType) (forceCheck : bool) : M bool :=
  tryCatch
    (activity <- client_getActivity client activityId ;;
     match activity with
     | None => ret false
     | Some activity =>
         let currentDescription := descriptionOrEmpty (ra_description activity) in
         let existing := hasExistingInsight currentDescription in
         if (existing && negb forceCheck)%bool then ret true
         else
           let currentDescription :=
             if existing then trim (replaceInsightPattern currentDescription)
             else currentDescription in
           let separator := if truthy currentDescription then SEPARATOR else EmptyString in
           let newDescription := currentDescription ++ separator ++ comment in
           client_post client activityId (ra_activityName activity) newDescription ;;
           ret true
     end)
    (fun _ => ret false).

Definition hasActivityInsight (activityId : string) (client : GarminClientType) : M bool :=
  tryCatch
    (activity <- client_getActivity client activityId ;;
     let description :=
       match activity with
       | Some a => descriptionOrEmpty (ra_description a)
       | None => EmptyString
       end in
     ret (hasExistingInsight description))
    (fun _ => ret false).

(* ================================================================= *)
(** ** The engine ([src/utils/ai_insights.ts]) *)

(** [process.env] as the module reads it when it is loaded. *)
Record Config : Type := mkConfig {
  AI_INSIGHTS_ENABLED : bool;
  GEMINI_API_KEY : option string
}.

(** What the host's [Date] and [Number] give; their results depend on
    the time zone of the process and on binary floating point, which
    this development leaves open. *)
Record Host : Type := mkHost {
  Date_parse : string -> option Z;        (* new Date(s).getTime(); None is Invalid Date *)
  Date_minusDays : Z -> Z -> option Z;    (* d.setDate(d.getDate() - n) *)
  Date_isoDate : Z -> string;             (* d.toISOString().split('T')[0] *)
  toFixed0 : number -> string             (* (confidence * 100).toFixed(0) *)
}.

Inductive ActivityId : Type :=
| IdString (s : string)
| IdNumber (n : Z).

(** [String(id)], for an identifier that is a string or an integer. *)
Definition String_ (id : ActivityId) : string :=
  match id with
  | IdString s => s
  | IdNumber n => NilZero.string_of_int (Z.to_int n)
  end.

Record ActivityType : Type := mkType {
  typeKey : option string
}.

(** The fields of [GarminActivity] the engine itself reads; the metrics
    are read by the prompt only. *)
Record GarminActivity : Type := mkActivity {
  activityId : ActivityId;
  activityName : string;
  activityType : option ActivityType;
  startTimeLocal : string
}.

Record HistoricalContext : Type := mkContext {
  yesterdayActivity : option GarminActivity;
  lastWeekActivity : option GarminActivity;
  recentActivities : list GarminActivity
}.

Record AIInsightResult : Type := mkResult {
  insight : string;
  model : string;
  confidence : number
}.

Definition GEMINI_MODEL : string := "gemini-2.5-flash-lite".
Definition MAX_RETRIES : Z := 3.
Definition BASE_DELAY_MS : Z := 2000.
Definition MIN_REQUEST_INTERVAL_MS : Z := 1000.

(** [a.activityType?.typeKey] *)
Definition typeKeyOf (a : GarminActivity) : option string :=
  match activityType a with
  | Some t => typeKey t
  | None => None
  end.

(** [===] on two values that are a string or [undefined]. *)
Definition strictEq (a b : option string) : bool :=
  match a, b with
  | Some x, Some y => String.eqb x y
  | None, None => true
  | _, _ => false
  end.

Definition rbind {A B} (r : Res A) (k : A -> Res B) : Res B :=
  match r with
  | Ok a => k a
  | Throw e => Throw e
  end.

(** [Array.prototype.find] with a callback that may throw. *)
Fixpoint findRes {A} (p : A -> Res bool) (l : list A) : Res (option A) :=
  match l with
  | [] => Ok None
  | x :: l' =>
      rbind (p x) (fun b => if b then Ok (Some x) else findRes p l')
  end.

(** [<=] and [<] on two [Date]s: false when either is invalid. *)
Definition dateLe (a b : option Z) : bool :=
  match a, b with
  | Some x, Some y => (x <=? y)%Z
  | _, _ => false
  end.

Definition dateLt (a b : option Z) : bool :=
  match a, b with
  | Some x, Some y => (x <? y)%Z
  | _, _ => false
  end.

Definition liftRes {A} (r : Res A) : M A := fun w => (r, w).

(** The first run of decimal digits of [s]: group 1 of [s.match(/(\d+)/)]. *)
Fixpoint firstDigits (s : string) : option string :=
  match s with
  | EmptyString => None
  | String c s' =>
      if isDigit c then Some (fst (span isDigit s)) else firstDigits s'
  end.

Definition isRateLimited (error : JsError) : bool :=
  match error with
  | GenerationError e =>
      (match status e with Some n => (n =? 429)%Z | None => false end
       || match statusText e with
          | Some t => String.eqb t "Too Many Requests"
          | None => false
          end)%bool
  | _ => false
  end.

(** [BASE_DELAY_MS * Math.pow(2, attempt - 1)] *)
Definition backoffDelay (attempt : Z) : Z :=
  (BASE_DELAY_MS * 2 ^ (attempt - 1))%Z.

(** The delay the provider suggests, in milliseconds, when the error
    carries one that can be read. *)
Definition suggestedDelay (error : JsError) : option Z :=
  match error with
  | GenerationError e =>
      match errorDetails e with
      | Some details =>
          match find (fun d => match atType d with
                               | Some t => includes "RetryInfo" t
                               | None => false
                               end) details with
          | Some retryInfo =>
              match retryDelay retryInfo with
              | Some text =>
                  if truthy text then
                    match firstDigits text with
                    | Some digits => Some (toDouble (parseInt digits * 1000))%Z
                    | None => None
                    end
                  else None
              | None => None
              end
          | None => None
          end
      | None => None
      end
  | _ => None
  end.

Definition retryDelayFor (attempt : Z) (error : JsError) : Z :=
  match suggestedDelay error with
  | Some ms => ms
  | None => backoffDelay attempt
  end.

(** [waitForRateLimit]: the gate before every model call.  The pass is
    recorded with the time written to [lastRequestTime]. *)
Definition waitForRateLimit : M unit :=
  now <- Date_now ;;
  last <- gets lastRequestTime ;;
  let timeSinceLastRequest := (now - last)%Z in
  (if (timeSinceLastRequest <? MIN_REQUEST_INTERVAL_MS)%Z
   then sleep (MIN_REQUEST_INTERVAL_MS - timeSinceLastRequest)%Z
   else ret tt) ;;
  now' <- Date_now ;;
  modify (set_lastRequestTime now') ;;
  emit (EvRateGate now').

(** [getGeminiClient()], [client.getGenerativeModel(...)], the log line
    and [formatActivityPrompt(...)]: what runs between the gate and the
    request.  It cannot fail and it takes time. *)
Definition prepareCall : M unit := elapse.

(** [model.generateContent(prompt)] and [response.text()].  The prompt is
    text built from the activity and its historical context; what the
    provider answers is scripted by [replies]. *)
Definition generateContent : M string :=
  t <- Date_now ;;
  emit (EvGenerateContent t) ;;
  elapse ;;
  rs <- gets replies ;;
  match rs with
  | [] => throw (GenerationError (mkApiError None None None))
  | ReplyText text :: rs' => modify (set_replies rs') ;; ret text
  | ReplyError e :: rs' => modify (set_replies rs') ;; throw (GenerationError e)
  end.

(** The loop [for (let attempt = 1; attempt <= MAX_RETRIES; attempt++)]
    from [attempt] on, [remaining] being [MAX_RETRIES - attempt + 1]. *)
Fixpoint generateAttempts (remaining : nat) (attempt : Z) : M (option AIInsightResult) :=
  match remaining with
  | O => ret None
  | S remaining' =>
      tryCatch
        (waitForRateLimit ;;
         prepareCall ;;
         text <- generateContent ;;
         let parsed := parseConfidence (trim text) in
         ret (Some (mkResult (pc_insight parsed) GEMINI_MODEL (pc_confidence parsed))))
        (fun error =>
           if (isRateLimited error && (attempt <? MAX_RETRIES)%Z)%bool
           then
             let retryDelay := retryDelayFor attempt error in
             emit (EvRetry attempt retryDelay) ;;
             sleep retryDelay ;;
             generateAttempts remaining' (attempt + 1)%Z
           else ret None)
  end.

(** The three result counters of a reconciliation sweep. *)
Record SyncCounts : Type := mkCounts {
  syncedCount : Z;
  skippedCount : Z;
  errorCount : Z
}.

Section Engine.

Variable host : Host.
Variable config : Config.

Definition isAIInsightsEnabled : bool :=
  if negb (AI_INSIGHTS_ENABLED config) then false
  else if negb (match GEMINI_API_KEY config with
                | Some key => truthy key
                | None => false
                end) then false
  else true.

Definition setDateBack (d : option Z) (n : Z) : option Z :=
  match d with
  | Some t => Date_minusDays host t n
  | None => None
  end.

(** [date.toISOString().split('T')[0]]; an invalid [Date] throws. *)
Definition getDateString (d : option Z) : Res string :=
  match d with
  | Some t => Ok (Date_isoDate host t)
  | None => Throw RangeError
  end.

Definition timeOf (a : GarminActivity) : Z :=
  match Date_parse host (startTimeLocal a) with
  | Some t => t
  | None => 0%Z
  end.

Definition getHistoricalContext (currentActivity : GarminActivity)
           (allActivities : list GarminActivity) : Res HistoricalContext :=
  let type := typeKeyOf currentActivity in
  let currentDate := Date_parse host (startTimeLocal currentActivity) in
  let sameTypeActivities :=
    filter (fun a => (strictEq (typeKeyOf a) type
                      && negb (String.eqb (String_ (activityId a))
                                          (String_ (activityId currentActivity))))%bool)
           allActivities in
  let yesterday := setDateBack currentDate 1 in
  rbind (getDateString yesterday) (fun yesterdayStr =>
  let lastWeekStart := setDateBack currentDate 8 in
  let lastWeekEnd := setDateBack currentDate 6 in
  rbind (findRes (fun a =>
                    rbind (getDateString (Date_parse host (startTimeLocal a)))
                          (fun actDate => Ok (String.eqb actDate yesterdayStr)))
                 sameTypeActivities) (fun yesterdayAct =>
  let lastWeekAct :=
    find (fun a => let actDate := Date_parse host (startTimeLocal a) in
                   (dateLe lastWeekStart actDate && dateLe actDate lastWeekEnd)%bool)
         sameTypeActivities in
  let recent :=
    firstn 7 (sortDesc timeOf
                (filter (fun a => dateLt (Date_parse host (startTimeLocal a)) currentDate)
                        sameTypeActivities)) in
  Ok (mkContext yesterdayAct lastWeekAct recent))).

Definition generateActivityInsights (activity : GarminActivity)
           (allActivities : option (list GarminActivity))
  : M (option AIInsightResult) :=
  if negb isAIInsightsEnabled then ret None
  else
    let id := String_ (activityId activity) in
    historicalContext <-
      match allActivities with
      | Some all =>
          if (1 <? length all)%nat
          then ctx <- liftRes (getHistoricalContext activity all) ;; ret (Some ctx)
          else ret None
      | None => ret None
      end ;;
    emit (EvGenerating id) ;;
    generateAttempts (Z.to_nat MAX_RETRIES) 1%Z.

(** The text posted to the remote description, with the bytes the
    source file has for its first character. *)
Definition commentFor (model : string) (confidence : number) (insight : string) : string :=
  ROBOT_AS_WRITTEN ++ " AI Insights (" ++ model ++ ", " ++ toFixed0 host confidence
                   ++ "% confidence):" ++ String LF insight.

Definition processActivityWithInsights (activity : GarminActivity)
           (client : option GarminClientType)
           (allActivities : option (list GarminActivity))
           (forceUpdate : bool) : M (option AIInsightResult) :=
  if negb isAIInsightsEnabled then ret None
  else
    let id := String_ (activityId activity) in
    tryCatch
      (initAIInsightsTable ;;
       existing <- (if negb forceUpdate then hasAIInsight id else ret false) ;;
       if existing then ret None
       else
         result <- generateActivityInsights activity allActivities ;;
         match result with
         | Some result =>
             saveAIInsight (mkData id (activityName activity) (insight result)
                                   (model result) (confidence result)) ;;
             match client with
             | Some client =>
                 let commentText :=
                   commentFor (model result) (confidence result) (insight result) in
                 commentSuccess <- addActivityComment id commentText client forceUpdate ;;
                 ret tt
             | None => ret tt
             end ;;
             ret (Some result)
         | None => ret None
         end)
      (fun _ => ret None).

(** [for (const activity of activities)] of [processActivitiesWithInsights]. *)
Fixpoint processEach (all : list GarminActivity) (client : option GarminClientType)
         (todo : list GarminActivity) (processedCount : Z) : M Z :=
  match todo with
  | [] => ret processedCount
  | activity :: todo' =>
      let id := String_ (activityId activity) in
      existing <- hasAIInsight id ;;
      if existing then processEach all client todo' processedCount
      else
        insights <- processActivityWithInsights activity client (Some all) false ;;
        match insights with
        | Some _ => sleep 500 ;; processEach all client todo' (processedCount + 1)%Z
        | None => processEach all client todo' processedCount
        end
  end.

Definition processActivitiesWithInsights (activities : list GarminActivity)
           (client : option GarminClientType) : M Z :=
  if negb isAIInsightsEnabled then ret 0%Z
  else
    initAIInsightsTable ;;
    processEach activities client activities 0%Z.

(** [for (const insight of allInsights)] of [syncMissingInsightsToGarmin]. *)
Fixpoint syncEach (client : GarminClientType) (todo : list AIInsightRecord)
         (n : SyncCounts) : M SyncCounts :=
  match todo with
  | [] => ret n
  | record :: todo' =>
      n' <- tryCatch
              (hasInsight <- hasActivityInsight (r_activityId record) client ;;
               if hasInsight
               then ret (mkCounts (syncedCount n) (skippedCount n + 1) (errorCount n))
               else
                 let formattedInsight :=
                   commentFor (r_model record) (r_confidence record) (r_insight record) in
                 success <- addActivityComment (r_activityId record) formattedInsight
                                               client false ;;
                 let counted :=
                   if success : bool
                   then mkCounts (syncedCount n + 1) (skippedCount n) (errorCount n)
                   else mkCounts (syncedCount n) (skippedCount n) (errorCount n + 1) in
                 sleep 1000 ;;
                 ret counted)
              (fun _ => ret (mkCounts (syncedCount n) (skippedCount n) (errorCount n + 1))) ;;
      syncEach client todo' n'
  end.

Definition syncMissingInsightsToGarmin (client : GarminClientType) : M Z :=
  initAIInsightsTable ;;
  allInsights <- getAllAIInsights ;;
  match allInsights with
  | [] => ret 0%Z
  | _ =>
      n <- syncEach client allInsights (mkCounts 0 0 0) ;;
      ret (syncedCount n)
  end.

End Engine.

From Stdlib Require Import Permutation Sorted.

(* ================================================================= *)
(** ** The rest of the insight table ([src/utils/sqlite.ts]) *)

(** The most parameters a statement can have. *)
Definition SQLITE_MAX_VARIABLE_NUMBER : Z := 32766.

(** [getActivitiesWithoutInsights]: the identifiers of [activityIds] for
    which [SELECT activity_id FROM ai_insights WHERE activity_id IN (?, ...)]
    gives no row.  An empty list is answered before the database file is
    opened; a list with more identifiers than a statement can have
    parameters makes the statement fail. *)
Definition getActivitiesWithoutInsights (activityIds : list string) : M (list string) :=
  match activityIds with
  | [] => ret []
  | _ :: _ =>
      getDB ;;
      dbStep ;;
      t <- gets table ;;
      match t with
      | None => sqlError
      | Some t =>
          if (SQLITE_MAX_VARIABLE_NUMBER <? Z.of_nat (length activityIds))%Z
          then sqlError
          else if hasColumns ["activity_id"] t
          then
            let results :=
              filter (fun r => existsb (String.eqb (r_activityId r)) activityIds) (rows t) in
            let existingIds := map r_activityId results in
            ret (filter (fun id => negb (existsb (String.eqb id) existingIds)) activityIds)
          else sqlError
      end
  end.

(* ================================================================= *)
(** ** The refresh script ([src/refresh_insights.ts]) *)

Module RefreshInsights.

(** [parseInt(s, 10)]: leading white space, an optional sign, then the
    longest run of decimal digits; [NaN] when that run is empty, and
    else the double nearest to the integer the digits write. *)
Definition parseInt (s : string) : number :=
  let s1 := trimStart s in
  let negative := startsWith "-" s1 in
  let s2 := match s1 with
            | String c r =>
                if (Ascii.eqb c "-" || Ascii.eqb c "+")%bool then r else s1
            | EmptyString => s1
            end in
  match fst (span isDigit s2) with
  | EmptyString => NaN
  | digits =>
      let n := digitsToZ 0 digits in
      Num (inject_Z (toDouble (if negative then - n else n)))
  end.

(** [isNaN(count) || count <= 0] *)
Definition invalidCount (count : number) : bool :=
  match count with
  | NaN => true
  | Num q => Qle_bool q 0
  end.

(** [x || d] on numbers: [NaN] and zero are falsy. *)
Definition orElse (x d : number) : number :=
  match x with
  | NaN => d
  | Num q => if Qeq_bool q 0 then d else x
  end.

(** [/^\d+$/.test(arg)] *)
Definition isBareNumber (arg : string) : bool :=
  match span isDigit arg with
  | (String _ _, EmptyString) => true
  | _ => false
  end.

(** [arg.split('=')[1]] of an argument [--count=value]: what stands in
    [value] before its first [=]. *)
Definition beforeEquals (value : string) : string :=
  fst (span (fun c => negb (Ascii.eqb c "=")) value).

(** What the script reads of [process.env]: [Number(process.env.REFRESH_COUNT)],
    a finite number or [NaN], and [process.env.USE_GLOBAL]. *)
Record Env : Type := mkEnv {
  REFRESH_COUNT : number;
  USE_GLOBAL : option string
}.

Record Args : Type := mkArgs {
  count : number;
  force : bool;
  useGlobal : bool;
  showHelp : bool
}.

(** [parseArgs] returns, or ends the process through [process.exit]. *)
Inductive Outcome : Type :=
| Returns (args : Args)
| Exits (code : Z).

Definition withCount (n : number) (a : Args) : Args :=
  mkArgs n (force a) (useGlobal a) (showHelp a).

(** [for (let i = 0; i < args.length; i++)] over the arguments from
    [args[i]] on. *)
Fixpoint parseLoop (args : list string) (a : Args) : Outcome :=
  match args with
  | [] => Returns a
  | arg :: rest =>
      if (String.eqb arg "--count" || String.eqb arg "-n")%bool then
        match rest with
        | nextArg :: rest' =>
            if (truthy nextArg && negb (startsWith "-" nextArg))%bool then
              let n := parseInt nextArg in
              if invalidCount n then Exits 1
              else parseLoop rest' (withCount n a)
            else parseLoop rest a
        | [] => parseLoop rest a
        end
      else
        match stripPrefix "--count=" arg with
        | Some value =>
            let n := parseInt (beforeEquals value) in
            if invalidCount n then Exits 1
            else parseLoop rest (withCount n a)
        | None =>
            if (String.eqb arg "--force" || String.eqb arg "-f")%bool then
              parseLoop rest (mkArgs (count a) true (useGlobal a) (showHelp a))
            else if String.eqb arg "--global" then
              parseLoop rest (mkArgs (count a) (force a) true (showHelp a))
            else if (String.eqb arg "--help" || String.eqb arg "-h")%bool then
              parseLoop rest (mkArgs (count a) (force a) (useGlobal a) true)
            else if isBareNumber arg then
              parseLoop rest (withCount (parseInt arg) a)
            else parseLoop rest a
        end
  end.

(** [parseArgs], on [process.argv.slice(2)]. *)
Definition parseArgs (env : Env) (argv : list string) : Outcome :=
  parseLoop argv
    (mkArgs (orElse (REFRESH_COUNT env) (Num 5))
            false
            (match USE_GLOBAL env with
             | Some v => String.eqb v "true"
             | None => false
             end)
            false).

(** [DELETE FROM ai_insights WHERE activity_id = ?].  The trace lists the
    statements of [sqlite.ts]; this one leaves no event in it. *)
Definition deleteInsight (activityId : string) : M unit :=
  getDB ;;
  dbStep ;;
  t <- gets table ;;
  match t with
  | None => sqlError
  | Some t =>
      if hasColumns ["activity_id"] t
      then
        modify (set_table
                  (Some (mkTable (columns t)
                                 (filter (fun r => negb (String.eqb (r_activityId r) activityId))
                                         (rows t))
                                 (sequence t))))
      else sqlError
  end.

(** The three counters of the summary. *)
Record Counts : Type := mkCounts {
  processedCount : Z;
  skippedCount : Z;
  errorCount : Z
}.

Section Loop.

Variable host : Host.
Variable config : Config.

(** [for (const activity of activities)] of [refreshInsights]: what is
    left of the loop at [todo], with the counters so far. *)
Fixpoint refreshEach (client : GarminClientType) (force : bool)
         (activities todo : list GarminActivity) (n : Counts) : M Counts :=
  match todo with
  | [] => ret n
  | activity :: todo' =>
      let id := String_ (activityId activity) in
      n' <- tryCatch
              ((if force then deleteInsight id else ret tt) ;;
               result <- processActivityWithInsights host config activity (Some client)
                           (Some activities) force ;;
               match result with
               | Some _ =>
                   ret (mkCounts (processedCount n + 1) (skippedCount n) (errorCount n))
               | None =>
                   ret (mkCounts (processedCount n) (skippedCount n + 1) (errorCount n))
               end)
              (fun _ =>
                 ret (mkCounts (processedCount n) (skippedCount n) (errorCount n + 1))) ;;
      sleep 500 ;;
      refreshEach client force activities todo' n'
  end.

End Loop.

End RefreshInsights.

(* ================================================================= *)
(** ** A host and sample data to run the engine on *)

Definition DAY_MS : Z := 86400000.

(** The time stamps the sample host can read, in milliseconds. *)
Definition sampleDates : list (string * Z) :=
  [ ("2024-03-10 07:00:00", 1710054000000%Z);
    ("2024-03-09 07:30:00", 1709969400000%Z);
    ("2024-03-03 08:00:00", 1709452800000%Z);
    ("2024-03-01 18:00:00", 1709316000000%Z) ].

Fixpoint lookupDate (s : string) (l : list (string * Z)) : option Z :=
  match l with
  | [] => None
  | (k, t) :: l' => if String.eqb k s then Some t else lookupDate s l'
  end.

(** A host whose zone is UTC: a day back is 86400000 ms back, the date of
    a time stamp is written as its day number, and the percentage is
    rounded half up on the exact product. *)
Definition sampleHost : Host :=
  mkHost (fun s => lookupDate s sampleDates)
         (fun t n => Some (t - n * DAY_MS)%Z)
         (fun t => NilZero.string_of_int (Z.to_int (t / DAY_MS)))
         (fun n => match n with
                   | NaN => "NaN"
                   | Num q => NilZero.string_of_int
                                (Z.to_int (Qfloor (q * 100 + (1 # 2))))
                   end).

Definition running : option ActivityType := Some (mkType (Some "running")).
Definition cycling : option ActivityType := Some (mkType (Some "cycling")).

Definition run_today : GarminActivity :=
  mkActivity (IdNumber 100) "Morning Run" running "2024-03-10 07:00:00".
Definition run_yesterday : GarminActivity :=
  mkActivity (IdNumber 99) "Easy Run" running "2024-03-09 07:30:00".
Definition run_lastWeek : GarminActivity :=
  mkActivity (IdNumber 90) "Long Run" running "2024-03-03 08:00:00".
Definition ride : GarminActivity :=
  mkActivity (IdNumber 88) "Evening Ride" cycling "2024-03-01 18:00:00".
(** The current activity as another listing gives it: same identifier,
    written as a string. *)
Definition run_today_again : GarminActivity :=
  mkActivity (IdString "100") "Morning Run (edited)" running "2024-03-09 07:30:00".

Definition sampleActivities : list GarminActivity :=
  [run_today; run_today_again; run_yesterday; run_lastWeek; ride].

Definition offConfig : Config := mkConfig false (Some "key").
Definition noKeyConfig : Config := mkConfig true None.
Definition onConfig : Config := mkConfig true (Some "key").

Definition NOON : Z := 1710072000000.

Definition storedInsight : AIInsightRecord :=
  mkRow 1 "100" "Morning Run" "Steady aerobic effort." GEMINI_MODEL (Some 0.85)
        1710054000000.

(** A fresh process at noon of 2024-03-10: no table yet, activity 100 on
    the remote account without a description. *)
Definition freshWorld : World :=
  mkWorld None [] [("100", mkRemote "Morning Run" None)] [] [] [] NOON 0 [].

(** The same with one insight stored for activity 100. *)
Definition storedWorld : World :=
  mkWorld (Some (mkTable FULL_SCHEMA [storedInsight] 1)) []
          [("100", mkRemote "Morning Run" None)] [] [] [] NOON 0 [].

(** The fresh process with a model that answers, and a database file
    that cannot be opened. *)
Definition answeringWorld : World :=
  mkWorld None [] [("100", mkRemote "Morning Run" None)] []
          [ReplyText "Steady aerobic effort. [CONFIDENCE: 0.85]"] [] NOON 0 [].

Definition brokenStoreWorld : World :=
  mkWorld None [true] [("100", mkRemote "Morning Run" None)] []
          [ReplyText "Steady aerobic effort. [CONFIDENCE: 0.85]"] [] NOON 0 [].

(** The same with a database file that fails when the insight is saved. *)
Definition failingSaveWorld : World :=
  mkWorld None [false; false; false; false; false; true]
          [("100", mkRemote "Morning Run" None)] []
          [ReplyText "Steady aerobic effort. [CONFIDENCE: 0.85]"] [] NOON 0 [].

(** The stored insight with a remote service whose next request fails. *)
Definition unreachableWorld : World :=
  mkWorld (Some (mkTable FULL_SCHEMA [storedInsight] 1)) []
          [("100", mkRemote "Morning Run" None)] [Refused] [] [] NOON 0 [].

Definition error429 : ApiError :=
  mkApiError (Some 429%Z) (Some "Too Many Requests")
             (Some [mkDetail (Some "type.googleapis.com/google.rpc.ErrorInfo") None;
                    mkDetail (Some "type.googleapis.com/google.rpc.RetryInfo")
                             (Some "37s")]).

(** The fresh process with a provider that throttles the first call. *)
Definition throttledWorld : World :=
  mkWorld None [] [("100", mkRemote "Morning Run" None)] []
          [ReplyError error429; ReplyText "Steady aerobic effort. [CONFIDENCE: 0.85]"]
          [] NOON 0 [].



(** The fresh process with a model that answers twice. *)
Definition twoAnswersWorld : World :=
  mkWorld None [] [("100", mkRemote "Morning Run" None)] []
          [ReplyText "Steady aerobic effort. [CONFIDENCE: 0.85]";
           ReplyText "Strong finish. [CONFIDENCE: 0.9]"] [] NOON 0 [].

(** The same on a machine that takes 5 ms to set up its first model
    call. *)
Definition slowStartWorld : World :=
  mkWorld None [] [("100", mkRemote "Morning Run" None)] []
          [ReplyText "Steady aerobic effort. [CONFIDENCE: 0.85]";
           ReplyText "Strong finish. [CONFIDENCE: 0.9]"] [5%N; 0%N; 0%N; 0%N] NOON 0 [].


(** An insight block that starts with the robot face, and the same
    without the robot face. *)
Definition robotBlock : string :=
  INSIGHT_MARKER ++ " (gemini-2.5-flash-lite, 80% confidence):"
                 ++ String LF "Old insight.".

Definition plainBlock : string :=
  "AI Insights (gemini-2.5-flash-lite, 80% confidence):" ++ String LF "Old insight.".

Definition newComment : string :=
  INSIGHT_MARKER ++ " (gemini-2.5-flash-lite, 85% confidence):"
                 ++ String LF "New insight.".

Definition robotBlockWorld : World :=
  mkWorld None []
          [("100", mkRemote "Morning Run"
                            (Some ("Felt strong." ++ SEPARATOR ++ robotBlock)))]
          [] [] [] NOON 0 [].

Definition plainBlockWorld : World :=
  mkWorld None [] [("100", mkRemote "Morning Run" (Some plainBlock))]
          [] [] [] NOON 0 [].

(** A second insight for activity 100, and one for activity 99. *)
Definition revisedInsight : AIInsightData :=
  mkData "100" "Morning Run" "Strong finish." GEMINI_MODEL (Num 0.9).

Definition otherInsight : AIInsightData :=
  mkData "99" "Easy Run" "Relaxed effort." GEMINI_MODEL (Num 0.8).

(** A table from before the columns [model] and [confidence] were added,
    holding one insight for activity 100. *)
Definition legacyWorld : World :=
  mkWorld (Some (mkTable ["id"; "activity_id"; "activity_name"; "insight"; "created_at"]
                         [storedInsight] 1)) []
          [("100", mkRemote "Morning Run" None)] [] [] [] NOON 0 [].

(** The stored insight with a model whose call fails for good. *)
Definition failingModelWorld : World :=
  mkWorld (Some (mkTable FULL_SCHEMA [storedInsight] 1)) []
          [("100", mkRemote "Morning Run" None)] []
          [ReplyError (mkApiError (Some 500%Z) None None)] [] NOON 0 [].

(** An activity whose start time cannot be read. *)
Definition run_undated : GarminActivity :=
  mkActivity (IdNumber 101) "Lunch Run" running "yesterday".

(** Two insights stored, for an activity the account has and for one it
    does not have. *)
Definition missingInsight : AIInsightRecord :=
  mkRow 2 "77" "Deleted Run" "Gone." GEMINI_MODEL (Some 0.6) 1710054000000.

Definition twoStoredWorld : World :=
  mkWorld (Some (mkTable FULL_SCHEMA [storedInsight; missingInsight] 2)) []
          [("100", mkRemote "Morning Run" (Some "Felt strong."))] [] [] [] NOON 0 [].

(** The account whose service answers the fetch, then writes what it is
    sent and loses the answer. *)
Definition lostAnswerWorld : World :=
  mkWorld None [] [("100", mkRemote "Morning Run" (Some "Felt strong."))]
          [Answered; AnswerLost] [] [] NOON 0 [].

(* ================================================================= *)
(** * Vocabulary of the statements *)

(** ** Texts *)

(** No character of [p] folds to the character [c]. *)
Fixpoint avoidsCI (c : ascii) (p : string) : bool :=
  match p with
  | EmptyString => true
  | String a p' => (negb (Ascii.eqb (toLower a) (toLower c)) && avoidsCI c p')%bool
  end.

Definition TAG_085 : string := "[CONFIDENCE: 0.85]".

(** A byte below 128: a character of one byte. *)
Definition isAscii (c : ascii) : bool := (nat_of_ascii c <? 128)%nat.

(** U+00A0, the no-break space, and U+3000, the ideographic space, in
    UTF-8. *)
Definition NBSP : string := String "194" (String "160" EmptyString).

Definition IDEOGRAPHIC_SPACE : string :=
  String "227" (String "128" (String "128" EmptyString)).

(** What [sameTypeActivities] lets through. *)
Definition comparable (current a : GarminActivity) : bool :=
  (strictEq (typeKeyOf a) (typeKeyOf current)
   && negb (String.eqb (String_ (activityId a)) (String_ (activityId current))))%bool.

(** ** Runs *)

(** Every run of [m] takes a world to one related to it by [R]. *)
Definition Steps {A} (R : World -> World -> Prop) (m : M A) : Prop :=
  forall w, R w (snd (m w)).

(** Every run of [m] that returns does. *)
Definition OkSteps {A} (R : World -> World -> Prop) (m : M A) : Prop :=
  forall w a w', m w = (Ok a, w') -> R w w'.

(** [m] returns on every world. *)
Definition NoThrow {A} (m : M A) : Prop :=
  forall w, exists a, fst (m w) = Ok a.

(** What of the world an observer [obs] sees stays as it was. *)
Definition Frame {X} (obs : World -> X) (w w' : World) : Prop := obs w' = obs w.

(** ** The trace *)

Inductive Kind : Type :=
| KSqlWrite | KSqlError | KGetActivity | KPostDescription
| KGenerating | KRateGate | KGenerateContent | KRetry | KSleep.

Definition kindOf (e : Event) : Kind :=
  match e with
  | EvSqlWrite _ => KSqlWrite
  | EvSqlError => KSqlError
  | EvGetActivity _ => KGetActivity
  | EvPostDescription _ _ => KPostDescription
  | EvGenerating _ => KGenerating
  | EvRateGate _ => KRateGate
  | EvGenerateContent _ => KGenerateContent
  | EvRetry _ _ => KRetry
  | EvSleep _ => KSleep
  end.

(** The events of the kinds [ks] so far, newest first. *)
Definition history (ks : Kind -> bool) (w : World) : list Event :=
  filter (fun e => ks (kindOf e)) (trace w).

(** Calls of the Generation Client and of the model behind it. *)
Definition generation (k : Kind) : bool :=
  match k with KGenerating | KGenerateContent => true | _ => false end.

(** Generation calls, store writes and remote writes. *)
Definition effects (k : Kind) : bool :=
  match k with
  | KGenerating | KGenerateContent | KSqlWrite | KPostDescription => true
  | _ => false
  end.

Definition sqlErrors (k : Kind) : bool :=
  match k with KSqlError => true | _ => false end.

Definition generating (k : Kind) : bool :=
  match k with KGenerating => true | _ => false end.

Definition modelCalls (k : Kind) : bool :=
  match k with KGenerateContent => true | _ => false end.

Definition storeWrites (k : Kind) : bool :=
  match k with KSqlWrite => true | _ => false end.

Definition remoteWrites (k : Kind) : bool :=
  match k with KPostDescription => true | _ => false end.

(** ** The store and the remote account *)

(** The table holds a row keyed [id]. *)
Definition storeHas (id : string) (w : World) : bool :=
  match table w with
  | Some t => existsb (fun r => String.eqb (r_activityId r) id) (rows t)
  | None => false
  end.

(** The table has the columns an insert names and holds a row keyed
    [id]: the state a successful [saveAIInsight] leaves. *)
Definition storeReady (id : string) (w : World) : bool :=
  match table w with
  | Some t =>
      (hasColumns INSERT_COLUMNS t
       && existsb (fun r => String.eqb (r_activityId r) id) (rows t))%bool
  | None => false
  end.

(** Neither the table nor the record of generation calls, store writes
    and remote writes has changed. *)
Definition Quiet (w w' : World) : Prop :=
  table w' = table w /\ history effects w' = history effects w.

(** A row keyed [id], once there, is still there. *)
Definition Keeps (id : string) (w w' : World) : Prop :=
  storeHas id w = true -> storeHas id w' = true.

(** Whether the next request to the remote service fails. *)
Definition nextRemoteFails (w : World) : bool :=
  match remoteFaults w with
  | [] | Answered :: _ => false
  | Refused :: _ | AnswerLost :: _ => true
  end.

(** The description [addActivityComment] writes over [description] when
    it appends [comment]. *)
Definition appended (description comment : string) : string :=
  description ++ (if truthy description then SEPARATOR else EmptyString) ++ comment.

Definition remoteReads (k : Kind) : bool :=
  match k with KGetActivity | KPostDescription => true | _ => false end.

Definition retries (k : Kind) : bool :=
  match k with KRetry => true | _ => false end.

(** ** The model and the clock *)

(** What the provider's next answer makes [generateContent] do. *)
Definition replyOutcome (rs : list ModelReply) : Res string :=
  match rs with
  | [] => Throw (GenerationError (mkApiError None None None))
  | ReplyText text :: _ => Ok text
  | ReplyError e :: _ => Throw (GenerationError e)
  end.

(** The result built from the model's text. *)
Definition resultOf (text : string) : AIInsightResult :=
  let parsed := parseConfidence (trim text) in
  mkResult (pc_insight parsed) GEMINI_MODEL (pc_confidence parsed).

(** The state after one more model call. *)
Definition afterCall (w w' : World) : Prop :=
  replies w' = tl (replies w)
  /\ (exists t, history modelCalls w' = EvGenerateContent t :: history modelCalls w)
  /\ history retries w' = history retries w.


(** The times at which the model calls so far were issued, newest first. *)
Fixpoint callTimes (tr : list Event) : list Z :=
  match tr with
  | [] => []
  | EvGenerateContent t :: tr' => t :: callTimes tr'
  | _ :: tr' => callTimes tr'
  end.

(** The times at which the gate let a request through, newest first. *)
Fixpoint gateTimes (tr : list Event) : list Z :=
  match tr with
  | [] => []
  | EvRateGate t :: tr' => t :: gateTimes tr'
  | _ :: tr' => gateTimes tr'
  end.

(** The model calls so far, newest first: for each the time of the last
    pass through the gate before it, and the time it was issued at. *)
Fixpoint gatedCalls (tr : list Event) : list (Z * Z) :=
  match tr with
  | [] => []
  | EvGenerateContent t :: tr' => (hd t (gateTimes tr'), t) :: gatedCalls tr'
  | _ :: tr' => gatedCalls tr'
  end.

(** Any two model calls went through the gate at least the minimum
    interval apart. *)
Definition gatesSpaced (w : World) : Prop :=
  ForallOrdPairs (fun later earlier =>
                    (fst earlier + MIN_REQUEST_INTERVAL_MS <= fst later)%Z)
                 (gatedCalls (trace w)).

(** What the gate keeps true between the steps of the engine: the clock
    has not run backwards behind the last request time, the calls so far
    went through the gate spaced, each was issued no earlier than it
    went through, and none went through after the last request time. *)
Definition RateLimited (w : World) : Prop :=
  (lastRequestTime w <= clock w)%Z
  /\ gatesSpaced w
  /\ Forall (fun p => (fst p <= snd p)%Z /\ (fst p <= lastRequestTime w)%Z)
            (gatedCalls (trace w)).

(** Time has passed; the gate and the calls are as they were. *)
Definition Later (w w' : World) : Prop :=
  gatedCalls (trace w') = gatedCalls (trace w)
  /\ lastRequestTime w' = lastRequestTime w
  /\ (clock w <= clock w')%Z.

(** ** Waits before a retry *)

(** The timers set right after a retry was announced, newest first:
    the attempt that failed, the delay announced and the delay the timer
    was set to. *)
Fixpoint retryWaits (tr : list Event) : list (Z * Z * Z) :=
  match tr with
  | [] => []
  | EvSleep ms :: tr' =>
      match tr' with
      | EvRetry attempt delayMs :: _ => (attempt, delayMs, ms) :: retryWaits tr'
      | _ => retryWaits tr'
      end
  | _ :: tr' => retryWaits tr'
  end.

(** The newest event is no announcement of a retry. *)
Definition notRetrying (tr : list Event) : Prop :=
  match tr with
  | EvRetry _ _ :: _ => False
  | _ => True
  end.

(** One more model call was made, at time [c], and no retry is
    pending. *)
Definition calledAt (c : Z) (w w' : World) : Prop :=
  replies w' = tl (replies w)
  /\ callTimes (trace w') = c :: callTimes (trace w)
  /\ history modelCalls w' = EvGenerateContent c :: history modelCalls w
  /\ history retries w' = history retries w
  /\ (notRetrying (trace w) -> retryWaits (trace w') = retryWaits (trace w))
  /\ (clock w <= c <= clock w')%Z
  /\ notRetrying (trace w').

(** The retry after attempt [k] was announced with the delay [d], and a
    timer of that delay has run. *)
Definition waitedFor (k d : Z) (w w' : World) : Prop :=
  replies w' = replies w
  /\ callTimes (trace w') = callTimes (trace w)
  /\ history modelCalls w' = history modelCalls w
  /\ history retries w' = EvRetry k d :: history retries w
  /\ retryWaits (trace w') = (k, d, d) :: retryWaits (trace w)
  /\ (clock w + timerDelay d <= clock w')%Z
  /\ notRetrying (trace w').





(** Every character of [s] is a decimal digit. *)
Fixpoint allDigits (s : string) : bool :=
  match s with
  | EmptyString => true
  | String c s' => (isDigit c && allDigits s')%bool
  end.



Definition KeepsRate (w w' : World) : Prop := RateLimited w -> RateLimited w'.

(** [p] holds no line feed. *)
Fixpoint noLF (p : string) : bool :=
  match p with
  | EmptyString => true
  | String c p' => (negb (Ascii.eqb c LF) && noLF p')%bool
  end.

(** What a forced call writes over [description]. *)
Definition replaced (description comment : string) : string :=
  appended (trim (replaceInsightPattern description)) comment.

(** ** The store, row by row *)

(** The insight the table holds for [id]: what the [SELECT] of
    [getAIInsight] finds. *)
Definition storedInsightOf (id : string) (w : World) : option string :=
  match table w with
  | Some t => option_map r_insight
                (find (fun r => String.eqb (r_activityId r) id) (rows t))
  | None => None
  end.

(** The rows keyed [id]. *)
Definition rowsOf (id : string) (w : World) : list AIInsightRecord :=
  match table w with
  | Some t => filter (fun r => String.eqb (r_activityId r) id) (rows t)
  | None => []
  end.

(** The number of rows of the table. *)
Definition storedCount (w : World) : nat :=
  match table w with
  | Some t => length (rows t)
  | None => 0%nat
  end.

(** A row as the migrations leave it when they add [model] and
    [confidence]. *)
Definition withDefaults (r : AIInsightRecord) : AIInsightRecord :=
  mkRow (r_id r) (r_activityId r) (r_activityName r) (r_insight r)
        "unknown" (Some 0.7) (r_createdAt r).

(** ** The remote account, activity by activity *)

(** The description of activity [id], empty when it has none or when the
    account has no such activity. *)
Definition descriptionAt (id : string) (w : World) : string :=
  match lookupActivity id (activities w) with
  | Some a => descriptionOrEmpty (ra_description a)
  | None => EmptyString
  end.

(** The account has activity [id] and its description holds an insight
    marker. *)
Definition markerAt (id : string) (w : World) : bool :=
  hasExistingInsight (descriptionAt id w).

Definition remoteHas (id : string) (w : World) : bool :=
  match lookupActivity id (activities w) with
  | Some _ => true
  | None => false
  end.

(** ** Dates *)

(** The time value of an activity's start, when it can be read. *)
Definition startOf (host : Host) (a : GarminActivity) : option Z :=
  Date_parse host (startTimeLocal a).

(** ** Migrations *)

(** What a migration keeps of a table: the columns it had, the rows with
    their keys, names and insights, and the sequence. *)
Definition Migrated (t t' : Table) : Prop :=
  (forall c, hasColumn c t = true -> hasColumn c t' = true)
  /\ map r_id (rows t') = map r_id (rows t)
  /\ map r_activityId (rows t') = map r_activityId (rows t)
  /\ map r_activityName (rows t') = map r_activityName (rows t)
  /\ map r_insight (rows t') = map r_insight (rows t)
  /\ sequence t' = sequence t.

(** Every insight the store holds is the one it held. *)
Definition StoredSame (w w' : World) : Prop :=
  forall id, storedInsightOf id w' = storedInsightOf id w.

(** ** Saves *)

Definition isInsert (e : Event) : bool :=
  match e with
  | EvSqlWrite (InsertOrReplace _) => true
  | _ => false
  end.

(** The rows written so far, newest first. *)
Definition saves (w : World) : list Event := filter isInsert (trace w).

(** The remote account and the faults its next requests will meet. *)
Definition account (w : World) : list (string * RemoteActivity) * list RemoteFault :=
  (activities w, remoteFaults w).

(** The identifiers the table has rows for, row by row. *)
Definition storedIds (w : World) : list string :=
  match table w with
  | Some t => map r_activityId (rows t)
  | None => []
  end.

(** ** Trimmed texts *)

(** [s] is empty or starts with a character that is no white space. *)
Definition startsBlack (s : string) : Prop := stripSpace s = None.

(* ================================================================= *)
(** * Properties *)

(** ** Strings *)

Lemma append_empty_r (s : string) : s ++ EmptyString = s.
Proof. induction s as [|c s IH]; simpl; [reflexivity | now rewrite IH]. Qed.

Lemma span_app_stop (p : ascii -> bool) (c : ascii) (t a : string) :
  p c = false ->
  span p (a ++ String c t) = (fst (span p a), snd (span p a) ++ String c t).
Proof.
  intros Hc. induction a as [|x a IH]; simpl.
  - now rewrite Hc.
  - destruct (p x); [|reflexivity].
    rewrite IH. now destruct (span p a).
Qed.

Lemma stripPrefixCI_app_stop (c : ascii) (t p s : string) :
  avoidsCI c p = true ->
  stripPrefixCI p (s ++ String c t)
  = option_map (fun r => r ++ String c t) (stripPrefixCI p s).
Proof.
  revert s. induction p as [|a p IH]; intros s Hp; simpl.
  - now destruct s.
  - simpl in Hp. apply andb_true_iff in Hp. destruct Hp as [Ha Hp].
    destruct s as [|b s]; simpl.
    + apply negb_true_iff in Ha. now rewrite Ha.
    + destruct (Ascii.eqb (toLower a) (toLower b)); [now apply IH | reflexivity].
Qed.

(** ** White space *)

(** A byte below 128 is a character of its own and starts no character
    of several bytes, nor goes on one. *)
Lemma isWideSpace2_ascii_l (a b : ascii) :
  isAscii a = true -> isWideSpace2 a b = false.
Proof.
  unfold isAscii, isWideSpace2. intros H. apply Nat.ltb_lt in H.
  destruct (Nat.eqb_spec (nat_of_ascii a) 194); [lia | reflexivity].
Qed.

Lemma isWideSpace2_ascii_r (a b : ascii) :
  isAscii b = true -> isWideSpace2 a b = false.
Proof.
  unfold isAscii, isWideSpace2. intros H. apply Nat.ltb_lt in H.
  destruct (Nat.eqb_spec (nat_of_ascii b) 160); [lia | apply andb_false_r].
Qed.

Lemma isWideSpace3_bytes (a b c : ascii) :
  isWideSpace3 a b c = true ->
  isAscii a = false /\ isAscii b = false /\ isAscii c = false.
Proof.
  unfold isWideSpace3, isAscii. intros H.
  repeat match type of H with
         | (_ || _)%bool = true => apply orb_true_iff in H; destruct H as [H|H]
         end;
    repeat match goal with
           | H : (_ && _)%bool = true |- _ => apply andb_true_iff in H; destruct H
           | H : (_ || _)%bool = true |- _ => apply orb_true_iff in H; destruct H
           | H : Nat.eqb _ _ = true |- _ => apply Nat.eqb_eq in H
           | H : Nat.leb _ _ = true |- _ => apply Nat.leb_le in H
           end;
    repeat split; apply Nat.ltb_ge; lia.
Qed.

Lemma isWhiteSpace_ascii (c : ascii) : isWhiteSpace c = true -> isAscii c = true.
Proof.
  unfold isWhiteSpace, isAscii. intros H. apply Nat.ltb_lt.
  repeat match type of H with
         | (_ || _)%bool = true => apply orb_true_iff in H; destruct H as [H|H]
         end;
    apply Nat.eqb_eq in H; lia.
Qed.

Lemma trimStart_eq (s : string) :
  trimStart s = match stripSpace s with
                | Some r => trimStart r
                | None => s
                end.
Proof.
  destruct s as [|a [|b [|c r]]]; cbn [trimStart stripSpace]; try reflexivity;
    destruct (isWhiteSpace a); try reflexivity;
    destruct (isWideSpace2 a b); try reflexivity;
    destruct (isWideSpace3 a b c); reflexivity.
Qed.

Lemma stripSpace_suffix (s r : string) :
  stripSpace s = Some r ->
  exists p, s = p ++ r /\ (String.length r < String.length s)%nat.
Proof.
  destruct s as [|a [|b [|c t]]]; cbn [stripSpace]; try discriminate;
    destruct (isWhiteSpace a);
    try (intros H; injection H as <-; exists (String a EmptyString);
         split; [reflexivity | cbn; lia]);
    try discriminate;
    destruct (isWideSpace2 a b);
    try (intros H; injection H as <-; exists (String a (String b EmptyString));
         split; [reflexivity | cbn; lia]);
    try discriminate.
  destruct (isWideSpace3 a b c); [|discriminate].
  intros H. injection H as <-. exists (String a (String b (String c EmptyString))).
  split; [reflexivity | cbn; lia].
Qed.

(** Induction along [trimStart]. *)
Lemma trimStart_ind (P : string -> Prop) :
  (forall s, stripSpace s = None -> P s) ->
  (forall s r, stripSpace s = Some r -> P r -> P s) ->
  forall s, P s.
Proof.
  intros Hnone Hsome s.
  remember (String.length s) as n eqn:Hn. revert s Hn.
  induction n as [n IH] using lt_wf_ind. intros s ->.
  destruct (stripSpace s) as [r|] eqn:E; [|now apply Hnone].
  apply (Hsome s r E). destruct (stripSpace_suffix s E) as (_ & _ & Hl).
  now apply (IH (String.length r)).
Qed.

Lemma stripSpace_trimStart (s : string) : stripSpace (trimStart s) = None.
Proof.
  induction s as [s E|s r E IH] using trimStart_ind; rewrite trimStart_eq, E; assumption.
Qed.

(** White space does not run into a character below 128 that is none. *)
Lemma stripSpace_app_ascii (c : ascii) (t r : string) :
  isAscii c = true -> isWhiteSpace c = false ->
  stripSpace (r ++ String c t)
  = option_map (fun x => x ++ String c t) (stripSpace r).
Proof.
  intros Ha Hw.
  assert (H2l : forall b, isWideSpace2 c b = false)
    by (intros; now apply isWideSpace2_ascii_l).
  assert (H2r : forall a, isWideSpace2 a c = false)
    by (intros; now apply isWideSpace2_ascii_r).
  assert (H3 : forall x y z, x = c \/ y = c \/ z = c -> isWideSpace3 x y z = false).
  { intros x y z H. destruct (isWideSpace3 x y z) eqn:E; [|reflexivity].
    apply isWideSpace3_bytes in E. destruct E as (E1 & E2 & E3).
    destruct H as [->|[->| ->]]; congruence. }
  destruct r as [|a [|b [|d r]]]; cbn [append stripSpace option_map].
  - rewrite Hw. destruct t as [|b [|d t]]; rewrite ?H2l; try reflexivity.
    now rewrite H3 by auto.
  - destruct (isWhiteSpace a); [reflexivity|]. rewrite H2r.
    destruct t as [|d t]; [reflexivity|]. now rewrite H3 by auto.
  - destruct (isWhiteSpace a); [reflexivity|].
    destruct (isWideSpace2 a b); [reflexivity|]. now rewrite H3 by auto.
  - destruct (isWhiteSpace a); [reflexivity|].
    destruct (isWideSpace2 a b); [reflexivity|].
    now destruct (isWideSpace3 a b d).
Qed.

Lemma trimStart_app_ascii (c : ascii) (t r : string) :
  isAscii c = true -> isWhiteSpace c = false ->
  trimStart (r ++ String c t) = trimStart r ++ String c t.
Proof.
  intros Ha Hw.
  induction r as [r E|r r' E IH] using trimStart_ind;
    rewrite (trimStart_eq (r ++ String c t)), (trimStart_eq r),
      (@stripSpace_app_ascii c t r Ha Hw), E; cbn [option_map]; [reflexivity | exact IH].
Qed.

(** ** Confidence extraction *)

Lemma stripPrefixCI_cons_app_stop (a : ascii) (p : string) (b : ascii) (s : string)
      (c : ascii) (t : string) :
  avoidsCI c p = true ->
  stripPrefixCI (String a p) (String b s ++ String c t)
  = option_map (fun r => r ++ String c t) (stripPrefixCI (String a p) (String b s)).
Proof.
  intros Hp. simpl.
  destruct (Ascii.eqb (toLower a) (toLower b)); [|reflexivity].
  now apply stripPrefixCI_app_stop.
Qed.

Lemma matchConfidenceTail_app_bracket (r t : string) :
  matchConfidenceTail r = None ->
  matchConfidenceTail (r ++ String "[" t) = None.
Proof.
  unfold matchConfidenceTail.
  rewrite (@trimStart_app_ascii "[" t r) by reflexivity.
  set (r1 := trimStart r).
  rewrite (span_app_stop isNumChar "[" t r1) by reflexivity.
  destruct (span isNumChar r1) as [g r2]; cbn [fst snd].
  destruct g as [|g0 g]; [reflexivity|].
  destruct r2 as [|c2 r3]; [reflexivity|].
  cbn [append]. now destruct (Ascii.eqb c2 "]").
Qed.

(** A match that starts inside [s] cannot run into an opening bracket
    that follows [s]. *)
Lemma matchConfidenceAt_app_bracket (c : ascii) (s t : string) :
  matchConfidenceAt (String c s) = None ->
  matchConfidenceAt (String c s ++ String "[" t) = None.
Proof.
  unfold matchConfidenceAt.
  rewrite (stripPrefixCI_cons_app_stop "[" "CONFIDENCE:" c s "[" t) by reflexivity.
  destruct (stripPrefixCI "[CONFIDENCE:" (String c s)) as [r|]; cbn [option_map].
  - apply matchConfidenceTail_app_bracket.
  - reflexivity.
Qed.

Lemma findConfidence_none_inv (c : ascii) (s : string) :
  findConfidence (String c s) = None ->
  matchConfidenceAt (String c s) = None /\ findConfidence s = None.
Proof.
  intros H.
  change (match matchConfidenceAt (String c s) with
          | Some (g, rest) => Some (EmptyString, g, rest)
          | None => match findConfidence s with
                    | Some (pre, g, rest) => Some (String c pre, g, rest)
                    | None => None
                    end
          end = None) in H.
  destruct (matchConfidenceAt (String c s)) as [[g rest]|]; [discriminate|].
  split; [reflexivity|].
  destruct (findConfidence s) as [[[pre g] rest]|]; [discriminate | reflexivity].
Qed.

Lemma findConfidence_trailing_tag (pre : string) :
  findConfidence pre = None ->
  findConfidence (pre ++ TAG_085) = Some (pre, "0.85", EmptyString).
Proof.
  induction pre as [|c pre IH]; intros H.
  - reflexivity.
  - apply findConfidence_none_inv in H. destruct H as [Hm Hf].
    change (match matchConfidenceAt (String c pre ++ TAG_085) with
            | Some (g, rest) => Some (EmptyString, g, rest)
            | None => match findConfidence (pre ++ TAG_085) with
                      | Some (p, g, rest) => Some (String c p, g, rest)
                      | None => None
                      end
            end = Some (String c pre, "0.85", EmptyString)).
    unfold TAG_085 at 1.
    rewrite (matchConfidenceAt_app_bracket c pre _ Hm).
    now rewrite (IH Hf).
Qed.

Lemma clamp_inRange (n : number) :
  n <> NaN -> inRange 0 1 (Math_min (Num 1) (Math_max (Num 0) n)) = true.
Proof.
  destruct n as [|q]; [congruence|]. intros _. simpl.
  destruct (Qle_bool 0 q) eqn:E0.
  - destruct (Qle_bool 1 q) eqn:E1.
    + reflexivity.
    + rewrite E0. simpl. apply Qle_bool_iff.
      apply Qlt_le_weak, Qnot_le_lt. intros Hle.
      apply Qle_bool_iff in Hle. congruence.
  - reflexivity.
Qed.

Lemma clamp_NaN_inv (n : number) :
  Math_min (Num 1) (Math_max (Num 0) n) <> NaN -> n <> NaN.
Proof. destruct n; simpl; congruence. Qed.

(** The clamp lets [NaN] through: a tag whose group holds no digit gives
    a confidence that is no number at all. *)
Example parseConfidence_dot_is_NaN :
  parseConfidence "Steady run. [CONFIDENCE: .]" = mkParsed "Steady run." NaN
  /\ inRange 0 1 (pc_confidence (parseConfidence "Steady run. [CONFIDENCE: .]")) = false.
Proof. split; reflexivity. Qed.

(** C8, as the code has it.  [parseConfidence] reads the leftmost tag of
    the text.  With no tag the text comes back unchanged with confidence
    [0.7]; when the only tag is a trailing [[CONFIDENCE: 0.85]] the
    confidence is [0.85] and the insight is the text before the tag,
    trimmed; and whenever the confidence returned is a number it lies in
    the interval from 0 to 1. *)
Theorem parseConfidence_spec :
  (forall pre, findConfidence pre = None ->
     parseConfidence (pre ++ TAG_085) = mkParsed (trim pre) (Num 0.85))
  /\ (forall text, findConfidence text = None ->
        parseConfidence text = mkParsed text (Num 0.7))
  /\ (forall text, pc_confidence (parseConfidence text) <> NaN ->
        inRange 0 1 (pc_confidence (parseConfidence text)) = true).
Proof.
  split; [|split].
  - intros pre H. unfold parseConfidence.
    rewrite (findConfidence_trailing_tag pre H).
    now rewrite append_empty_r.
  - intros text H. unfold parseConfidence. now rewrite H.
  - intros text. unfold parseConfidence.
    destruct (findConfidence text) as [[[pre g] rest]|]; simpl.
    + intros H. apply clamp_inRange. now apply clamp_NaN_inv.
    + reflexivity.
Qed.

Lemma parseConfidence_spec_witness :
  parseConfidence ("Good pace today. " ++ TAG_085) = mkParsed "Good pace today." (Num 0.85)
  /\ parseConfidence ("Good pace today." ++ NBSP ++ TAG_085)
     = mkParsed "Good pace today." (Num 0.85)
  /\ parseConfidence "Good pace today." = mkParsed "Good pace today." (Num 0.7)
  /\ inRange 0 1 (pc_confidence (parseConfidence "Fast! [CONFIDENCE: 7]")) = true.
Proof.
  destruct parseConfidence_spec as [Ha [Hb Hc]].
  split; [|split; [|split]].
  - apply (Ha "Good pace today. "). reflexivity.
  - exact (Ha ("Good pace today." ++ NBSP) eq_refl).
  - apply (Hb "Good pace today."). reflexivity.
  - apply (Hc "Fast! [CONFIDENCE: 7]"). discriminate.
Defined.

(** C8 as stated fails: a text that ends in [[CONFIDENCE: 0.85]] but
    holds an earlier tag gets the earlier confidence, and the trailing
    tag stays in the insight. *)
Lemma parseConfidence_first_tag_wins :
  let text := "[CONFIDENCE: 0.2] Solid effort. [CONFIDENCE: 0.85]" in
  parseConfidence text = mkParsed "Solid effort. [CONFIDENCE: 0.85]" (Num 0.2)
  /\ pc_confidence (parseConfidence text) <> Num 0.85
  /\ includes TAG_085 (pc_insight (parseConfidence text)) = true.
Proof. split; [reflexivity | split; [discriminate | reflexivity]]. Qed.

(** White space is more than its ASCII members: a no-break space before
    the tag is trimmed off the insight, and one inside the tag is passed
    over. *)
Example parseConfidence_wide_space :
  parseConfidence ("Good pace." ++ NBSP ++ "[CONFIDENCE:" ++ NBSP ++ "0.85]")
  = mkParsed "Good pace." (Num 0.85)
  /\ parseConfidence ("Good pace." ++ NBSP ++ TAG_085) = mkParsed "Good pace." (Num 0.85).
Proof. split; reflexivity. Qed.

(** ** Trend context *)

Lemma findRes_Some_In {A} (p : A -> Res bool) (l : list A) (x : A) :
  findRes p l = Ok (Some x) -> In x l.
Proof.
  induction l as [|y l IH]; simpl; [discriminate|].
  destruct (p y) as [[|]|e]; simpl; intros H.
  - injection H as ->. now left.
  - right. now apply IH.
  - discriminate.
Qed.

Lemma In_insertDesc {A} (key : A -> Z) (x y : A) (l : list A) :
  In x (insertDesc key y l) -> x = y \/ In x l.
Proof.
  induction l as [|z l IH]; simpl.
  - intros [H|[]]. now left.
  - destruct (key y <? key z)%Z; simpl.
    + intros [H|H]; [right; now left|].
      destruct (IH H) as [H'|H']; [now left | right; now right].
    + intros [H|[H|H]]; [now left | right; now left | right; now right].
Qed.

Lemma In_sortDesc {A} (key : A -> Z) (x : A) (l : list A) :
  In x (sortDesc key l) -> In x l.
Proof.
  induction l as [|y l IH]; simpl; [tauto|].
  intros H. apply In_insertDesc in H. destruct H as [H|H]; [now left | right; auto].
Qed.

Lemma In_firstn {A} (n : nat) (x : A) (l : list A) :
  In x (firstn n l) -> In x l.
Proof.
  revert l. induction n as [|n IH]; intros [|y l]; simpl; try tauto.
  intros [H|H]; [now left | right; auto].
Qed.

Lemma comparable_spec (current a : GarminActivity) :
  comparable current a = true ->
  strictEq (typeKeyOf a) (typeKeyOf current) = true
  /\ String_ (activityId a) <> String_ (activityId current)
  /\ a <> current.
Proof.
  unfold comparable. intros H. apply andb_true_iff in H. destruct H as [Ht Hi].
  apply negb_true_iff in Hi. apply String.eqb_neq in Hi.
  split; [assumption | split; [assumption|]].
  intros ->. now apply Hi.
Qed.

(** C7.  Whatever [getHistoricalContext] returns, each of its three
    fields holds only candidates of the current activity's type whose
    identifier, written as a string, differs from the current one's; so
    none of them is the current activity. *)
Theorem getHistoricalContext_excludes_current
        (host : Host) (current : GarminActivity) (candidates : list GarminActivity)
        (ctx : HistoricalContext) (x : GarminActivity) :
  getHistoricalContext host current candidates = Ok ctx ->
  yesterdayActivity ctx = Some x \/ lastWeekActivity ctx = Some x
  \/ In x (recentActivities ctx) ->
  In x candidates
  /\ strictEq (typeKeyOf x) (typeKeyOf current) = true
  /\ String_ (activityId x) <> String_ (activityId current)
  /\ x <> current.
Proof.
  unfold getHistoricalContext.
  fold (comparable current).
  set (same := filter (comparable current) candidates).
  assert (Hsame : forall a, In a same ->
                            In a candidates /\ comparable current a = true)
    by (intros a Ha; now apply filter_In in Ha).
  set (recent := firstn 7 _).
  assert (Hrecent : forall a, In a recent -> In a same)
    by (intros a Ha; apply In_firstn, In_sortDesc, filter_In in Ha; tauto).
  clearbody recent.
  destruct (getDateString host _) as [yesterdayStr|e]; cbn [rbind]; [|discriminate].
  destruct (findRes _ same) as [y|e] eqn:Hy; cbn [rbind]; [|discriminate].
  intros H. injection H as <-.
  cbn [yesterdayActivity lastWeekActivity recentActivities].
  intros Hx.
  assert (Hin : In x same).
  { destruct Hx as [Hx|[Hx|Hx]].
    - subst y. eapply findRes_Some_In, Hy.
    - apply find_some in Hx. tauto.
    - now apply Hrecent. }
  destruct (Hsame x Hin) as [Hc Hcmp].
  split; [assumption|]. now apply comparable_spec.
Qed.

(** It does return when the current activity's date and the day before
    it are valid and every candidate's date is. *)
Lemma getHistoricalContext_returns
      (host : Host) (current : GarminActivity) (candidates : list GarminActivity)
      (t y : Z) :
  Date_parse host (startTimeLocal current) = Some t ->
  Date_minusDays host t 1 = Some y ->
  (forall a, In a candidates -> Date_parse host (startTimeLocal a) <> None) ->
  exists ctx, getHistoricalContext host current candidates = Ok ctx.
Proof.
  intros Ht Hy Hall. unfold getHistoricalContext.
  rewrite Ht. cbn [setDateBack]. rewrite Hy. cbn [getDateString rbind].
  set (same := filter _ candidates).
  assert (Hsame : forall a, In a same -> Date_parse host (startTimeLocal a) <> None)
    by (intros a Ha; apply Hall; now apply filter_In in Ha).
  set (recent := firstn 7 _). clearbody recent.
  set (week := find _ same). clearbody week.
  match goal with |- context [findRes ?p same] => set (isYesterday := p) end.
  assert (Hfind : exists r, findRes isYesterday same = Ok r).
  { clear -Hsame. induction same as [|a same IH]; [now exists None|].
    cbn [findRes]. unfold isYesterday at 1.
    destruct (Date_parse host (startTimeLocal a)) eqn:Ea;
      [|exfalso; eapply Hsame; [now left | exact Ea]].
    cbn [getDateString rbind].
    destruct (String.eqb _ _); [now exists (Some a)|].
    apply IH. intros b Hb. apply Hsame. now right. }
  destruct Hfind as [r ->]. cbn [rbind]. eauto.
Qed.

Lemma getHistoricalContext_excludes_current_witness :
  getHistoricalContext sampleHost run_today sampleActivities
  = Ok (mkContext (Some run_yesterday) (Some run_lastWeek) [run_yesterday; run_lastWeek])
  /\ (In run_yesterday sampleActivities
      /\ strictEq (typeKeyOf run_yesterday) (typeKeyOf run_today) = true
      /\ String_ (activityId run_yesterday) <> String_ (activityId run_today)
      /\ run_yesterday <> run_today).
Proof.
  split; [reflexivity|].
  apply (@getHistoricalContext_excludes_current sampleHost run_today sampleActivities
           (mkContext (Some run_yesterday) (Some run_lastWeek)
                      [run_yesterday; run_lastWeek]) run_yesterday).
  - reflexivity.
  - left. reflexivity.
Defined.

(** ** Reasoning about computations *)

Section StepRules.

Variable R : World -> World -> Prop.
Hypothesis R_refl : forall w, R w w.
Hypothesis R_trans : forall a b c, R a b -> R b c -> R a c.

Lemma Steps_ret {A} (a : A) : Steps R (ret a).
Proof. intros w. apply R_refl. Qed.

Lemma Steps_throw {A} (e : JsError) : Steps R (@throw A e).
Proof. intros w. apply R_refl. Qed.

Lemma Steps_gets {A} (f : World -> A) : Steps R (gets f).
Proof. intros w. apply R_refl. Qed.

Lemma Steps_liftRes {A} (r : Res A) : Steps R (liftRes r).
Proof. intros w. apply R_refl. Qed.

Lemma Steps_modify (f : World -> World) :
  (forall w, R w (f w)) -> Steps R (modify f).
Proof. intros H w. apply H. Qed.

Lemma Steps_bind {A B} (m : M A) (k : A -> M B) :
  Steps R m -> (forall a, Steps R (k a)) -> Steps R (bind m k).
Proof.
  intros Hm Hk w. unfold bind. specialize (Hm w).
  destruct (m w) as [[a|e] w1]; simpl in *; [|assumption].
  eapply R_trans; [eassumption | apply Hk].
Qed.

Lemma Steps_tryCatch {A} (m : M A) (h : JsError -> M A) :
  Steps R m -> (forall e, Steps R (h e)) -> Steps R (tryCatch m h).
Proof.
  intros Hm Hh w. unfold tryCatch. specialize (Hm w).
  destruct (m w) as [[a|e] w1]; simpl in *; [assumption|].
  eapply R_trans; [eassumption | apply Hh].
Qed.

Lemma OkSteps_of_Steps {A} (m : M A) : Steps R m -> OkSteps R m.
Proof. intros H w a w' E. specialize (H w). now rewrite E in H. Qed.

Lemma OkSteps_throw {A} (e : JsError) : OkSteps R (@throw A e).
Proof. intros w a w' E. discriminate. Qed.

Lemma OkSteps_then_throw {A B} (m : M A) (e : JsError) :
  OkSteps R (bind m (fun _ => @throw B e)).
Proof.
  intros w a w' E. unfold bind, throw in E.
  destruct (m w) as [[x|x] w1]; discriminate.
Qed.

Lemma OkSteps_bind {A B} (m : M A) (k : A -> M B) :
  OkSteps R m -> (forall a, OkSteps R (k a)) -> OkSteps R (bind m k).
Proof.
  intros Hm Hk w b w' E. unfold bind in E.
  destruct (m w) as [[a|e] w1] eqn:Em; [|discriminate].
  eapply R_trans; [eapply Hm, Em | eapply Hk, E].
Qed.

Lemma OkSteps_tryCatch {A} (m : M A) (h : JsError -> M A) :
  Steps R m -> (forall e, OkSteps R (h e)) -> OkSteps R (tryCatch m h).
Proof.
  intros Hm Hh w b w' E. unfold tryCatch in E. specialize (Hm w).
  destruct (m w) as [[a|e] w1] eqn:Em; simpl in Hm.
  - now injection E as _ <-.
  - eapply R_trans; [eassumption | eapply Hh, E].
Qed.

End StepRules.

Lemma NoThrow_ret {A} (a : A) : NoThrow (ret a).
Proof. intros w. now exists a. Qed.

Lemma NoThrow_gets {A} (f : World -> A) : NoThrow (gets f).
Proof. intros w. now exists (f w). Qed.



Lemma NoThrow_tryCatch {A} (m : M A) (h : JsError -> M A) :
  (forall e, NoThrow (h e)) -> NoThrow (tryCatch m h).
Proof.
  intros Hh w. unfold tryCatch.
  destruct (m w) as [[x|x] w1]; [now exists x | apply Hh].
Qed.

Lemma Frame_refl {X} (obs : World -> X) (w : World) : Frame obs w w.
Proof. reflexivity. Qed.

Lemma Frame_trans {X} (obs : World -> X) (a b c : World) :
  Frame obs a b -> Frame obs b c -> Frame obs a c.
Proof. unfold Frame. congruence. Qed.

(** *** What a run leaves in the trace *)

(** Unfold the steps of a computation down to reads and updates of the
    world, splitting on every test met on the way. *)
Ltac split_scrutinee :=
  match goal with
  | |- Steps _ (match ?x with _ => _ end) => destruct x
  | |- OkSteps _ (match ?x with _ => _ end) => destruct x
  | |- NoThrow (match ?x with _ => _ end) => destruct x
  end.

Ltac leaf :=
  unfold Frame, history; intros; cbn;
  repeat match goal with
         | H : _ = false |- _ => rewrite H; cbn
         | |- context [match ?x with _ => _ end] => destruct x; cbn
         end;
  reflexivity.

Create HintDb frames.

Ltac frame :=
  repeat first
    [ solve [auto 2 with frames]
    | apply Steps_ret; exact (@Frame_refl _ _)
    | apply Steps_throw; exact (@Frame_refl _ _)
    | apply Steps_gets; exact (@Frame_refl _ _)
    | apply Steps_liftRes; exact (@Frame_refl _ _)
    | apply Steps_bind; [exact (@Frame_trans _ _) | | intro]
    | apply Steps_tryCatch; [exact (@Frame_trans _ _) | | intro]
    | apply Steps_modify; solve [leaf]
    | split_scrutinee ].

Section TraceFrames.

Variable ks : Kind -> bool.

Lemma elapse_trace : Steps (Frame (history ks)) elapse.
Proof. unfold elapse. frame. Qed.
Hint Resolve elapse_trace : frames.

Lemma sleep_trace (ms : Z) : ks KSleep = false -> Steps (Frame (history ks)) (sleep ms).
Proof. intros H. unfold sleep, emit. frame. Qed.

Lemma dbStep_trace : ks KSqlError = false -> Steps (Frame (history ks)) dbStep.
Proof. intros H. unfold dbStep, emit. frame. Qed.
Hint Resolve dbStep_trace : frames.

Lemma sqlError_trace {A} : ks KSqlError = false -> Steps (Frame (history ks)) (@sqlError A).
Proof. intros H. unfold sqlError, emit. frame. Qed.
Hint Resolve sqlError_trace : frames.

Lemma columnExists_trace (c : string) :
  ks KSqlError = false -> Steps (Frame (history ks)) (columnExists c).
Proof. intros H. unfold columnExists. frame. Qed.

Lemma initAIInsightsTable_trace :
  ks KSqlError = false -> ks KSqlWrite = false -> Steps (Frame (history ks)) initAIInsightsTable.
Proof.
  intros H1 H2.
  unfold initAIInsightsTable, createTable, runMigrations, migrations, columnExists,
    alterTableAddColumn, getDB, emit, Date_now.
  frame.
Qed.

Lemma saveAIInsight_trace (data : AIInsightData) :
  ks KSqlError = false -> ks KSqlWrite = false -> Steps (Frame (history ks)) (saveAIInsight data).
Proof. intros H1 H2. unfold saveAIInsight, getDB, emit, Date_now. frame. Qed.

Lemma getAIInsight_trace (id : string) :
  ks KSqlError = false -> Steps (Frame (history ks)) (getAIInsight id).
Proof. intros H. unfold getAIInsight, getDB. frame. Qed.
Hint Resolve getAIInsight_trace : frames.

Lemma hasAIInsight_trace (id : string) :
  ks KSqlError = false -> Steps (Frame (history ks)) (hasAIInsight id).
Proof. intros H. unfold hasAIInsight. frame. Qed.

Lemma getAllAIInsights_trace :
  ks KSqlError = false -> Steps (Frame (history ks)) getAllAIInsights.
Proof. intros H. unfold getAllAIInsights, getDB. frame. Qed.

Lemma remoteStep_trace : Steps (Frame (history ks)) remoteStep.
Proof. unfold remoteStep. frame. Qed.
Hint Resolve remoteStep_trace : frames.

Lemma addActivityComment_trace (id comment : string) (c : GarminClientType) (force : bool) :
  ks KGetActivity = false -> ks KPostDescription = false ->
  Steps (Frame (history ks)) (addActivityComment id comment c force).
Proof.
  intros H1 H2. unfold addActivityComment, client_getActivity, client_post, emit. frame.
Qed.

Lemma hasActivityInsight_trace (id : string) (c : GarminClientType) :
  ks KGetActivity = false -> Steps (Frame (history ks)) (hasActivityInsight id c).
Proof. intros H. unfold hasActivityInsight, client_getActivity, emit. frame. Qed.

Lemma waitForRateLimit_trace :
  ks KSleep = false -> ks KRateGate = false -> Steps (Frame (history ks)) waitForRateLimit.
Proof.
  intros H H'. unfold waitForRateLimit, Date_now, emit. pose proof (sleep_trace). frame.
Qed.

Lemma generateContent_trace : ks KGenerateContent = false -> Steps (Frame (history ks)) generateContent.
Proof. intros H. unfold generateContent, emit, Date_now. frame. Qed.

Lemma generateAttempts_trace (n : nat) (attempt : Z) :
  ks KSleep = false -> ks KGenerateContent = false -> ks KRetry = false ->
  ks KRateGate = false ->
  Steps (Frame (history ks)) (generateAttempts n attempt).
Proof.
  intros H1 H2 H3 H4. revert attempt.
  pose proof waitForRateLimit_trace. pose proof generateContent_trace.
  pose proof sleep_trace. pose proof elapse_trace.
  induction n as [|n IH]; intros attempt; simpl; unfold emit, prepareCall; frame.
Qed.

End TraceFrames.

Section EngineFrames.

Variable host : Host.
Variable config : Config.
Variable ks : Kind -> bool.

Lemma generateActivityInsights_trace (a : GarminActivity) (all : option (list GarminActivity)) :
  ks KSleep = false -> ks KGenerateContent = false -> ks KRetry = false ->
  ks KGenerating = false -> ks KRateGate = false ->
  Steps (Frame (history ks)) (generateActivityInsights host config a all).
Proof.
  intros H1 H2 H3 H4 H5. unfold generateActivityInsights, emit.
  pose proof (generateAttempts_trace ks). frame.
Qed.

End EngineFrames.

(** ** The feature gate *)

(** C1, as the code has it.  With the flag off or the credential unset,
    [generateActivityInsights], [processActivityWithInsights] and
    [processActivitiesWithInsights] return null or 0 and leave the world
    as it was: no generation call, no store write, no remote write, no
    exception.  [syncMissingInsightsToGarmin] does not read the gate. *)
Theorem disabled_entry_points_inert (host : Host) (config : Config) (w : World) :
  isAIInsightsEnabled config = false ->
  (forall a all, generateActivityInsights host config a all w = (Ok None, w))
  /\ (forall a c all force,
         processActivityWithInsights host config a c all force w = (Ok None, w))
  /\ (forall acts c, processActivitiesWithInsights host config acts c w = (Ok 0%Z, w)).
Proof.
  intros H. repeat split; intros;
    unfold generateActivityInsights, processActivityWithInsights,
      processActivitiesWithInsights; now rewrite H.
Qed.

Lemma disabled_entry_points_inert_witness :
  isAIInsightsEnabled noKeyConfig = false
  /\ processActivityWithInsights sampleHost noKeyConfig run_today (Some GarminClient)
       (Some sampleActivities) false storedWorld = (Ok None, storedWorld).
Proof.
  split; [reflexivity|].
  apply (@disabled_entry_points_inert sampleHost noKeyConfig storedWorld).
  reflexivity.
Defined.

(** C1 as stated fails for the fourth entry point: with the feature
    disabled, either way, the sweep still posts a stored insight to the
    remote activity and returns 1, on a fresh database file it creates
    the table, and on one that cannot be opened it throws. *)
Lemma syncMissingInsightsToGarmin_runs_when_disabled :
  isAIInsightsEnabled offConfig = false
  /\ isAIInsightsEnabled noKeyConfig = false
  /\ fst (syncMissingInsightsToGarmin sampleHost GarminClient storedWorld) = Ok 1%Z
  /\ history remoteWrites
       (snd (syncMissingInsightsToGarmin sampleHost GarminClient storedWorld))
     = [EvPostDescription "100"
          (commentFor sampleHost GEMINI_MODEL (Num 0.85) "Steady aerobic effort.")]
  /\ history storeWrites
       (snd (syncMissingInsightsToGarmin sampleHost GarminClient freshWorld))
     = [EvSqlWrite CreateTable]
  /\ fst (syncMissingInsightsToGarmin sampleHost GarminClient brokenStoreWorld)
     = Throw SqliteError.
Proof. repeat split; vm_compute; reflexivity. Qed.

(** ** Store failures *)

Ltac okframe :=
  repeat first
    [ assumption
    | apply OkSteps_then_throw
    | apply OkSteps_throw
    | apply OkSteps_bind; [exact (@Frame_trans _ _) | | intro]
    | split_scrutinee
    | apply OkSteps_of_Steps; solve [frame] ].

Lemma dbStep_returns_clean : OkSteps (Frame (history sqlErrors)) dbStep.
Proof. unfold dbStep, emit. okframe. Qed.

Lemma initAIInsightsTable_returns_clean :
  OkSteps (Frame (history sqlErrors)) initAIInsightsTable.
Proof.
  pose proof dbStep_returns_clean.
  unfold initAIInsightsTable, createTable, runMigrations, migrations, columnExists,
    alterTableAddColumn, getDB, sqlError, emit, Date_now.
  okframe.
Qed.

Lemma hasAIInsight_returns_clean (id : string) :
  OkSteps (Frame (history sqlErrors)) (hasAIInsight id).
Proof.
  pose proof dbStep_returns_clean.
  unfold hasAIInsight, getAIInsight, getDB, sqlError, emit.
  okframe.
Qed.

Lemma saveAIInsight_returns_clean (data : AIInsightData) :
  OkSteps (Frame (history sqlErrors)) (saveAIInsight data).
Proof.
  pose proof dbStep_returns_clean.
  unfold saveAIInsight, getDB, sqlError, emit, Date_now.
  okframe.
Qed.

(** The statements inside the [try] of [processActivityWithInsights]. *)
Lemma processActivityWithInsights_body_clean
      (host : Host) (config : Config) (id : string) (a : GarminActivity)
      (c : option GarminClientType) (all : option (list GarminActivity)) (force : bool) :
  OkSteps (Frame (history sqlErrors))
    (initAIInsightsTable ;;
     existing <- (if negb force then hasAIInsight id else ret false) ;;
     if existing then ret None
     else
       result <- generateActivityInsights host config a all ;;
       match result with
       | Some result =>
           saveAIInsight (mkData id (activityName a) (insight result)
                                 (model result) (confidence result)) ;;
           match c with
           | Some client =>
               commentSuccess <-
                 addActivityComment id
                   (commentFor host (model result) (confidence result) (insight result))
                   client force ;;
               ret tt
           | None => ret tt
           end ;;
           ret (Some result)
       | None => ret None
       end).
Proof.
  pose proof initAIInsightsTable_returns_clean.
  pose proof hasAIInsight_returns_clean.
  pose proof saveAIInsight_returns_clean.
  pose proof (fun a all => @generateActivityInsights_trace host config sqlErrors a all
                             eq_refl eq_refl eq_refl eq_refl eq_refl).
  pose proof (fun a b c d => @addActivityComment_trace sqlErrors a b c d eq_refl eq_refl).
  okframe.
Qed.

(** C3, as the code has it.  [processActivityWithInsights] never throws,
    and a run during which a step against the store failed returns
    null: the failure is caught inside the call. *)
Theorem processActivityWithInsights_catches_store_failure
        (host : Host) (config : Config) (a : GarminActivity)
        (c : option GarminClientType) (all : option (list GarminActivity))
        (force : bool) (w : World) :
  exists r,
    fst (processActivityWithInsights host config a c all force w) = Ok r
    /\ (history sqlErrors (snd (processActivityWithInsights host config a c all force w))
        <> history sqlErrors w -> r = None).
Proof.
  unfold processActivityWithInsights.
  destruct (negb (isAIInsightsEnabled config)).
  - exists None. split; reflexivity.
  - unfold tryCatch.
    match goal with |- context [match ?m w with _ => _ end] =>
      destruct (m w) as [[r|e] w1] eqn:E end.
    + exists r. split; [reflexivity|]. cbn [snd]. intros Hne. exfalso. apply Hne.
      eapply processActivityWithInsights_body_clean, E.
    + exists None. split; reflexivity.
Qed.

Lemma processActivityWithInsights_catches_store_failure_witness :
  history sqlErrors
    (snd (processActivityWithInsights sampleHost onConfig run_today (Some GarminClient)
            None false failingSaveWorld))
  <> history sqlErrors failingSaveWorld
  /\ fst (processActivityWithInsights sampleHost onConfig run_today (Some GarminClient)
            None false failingSaveWorld) = Ok None.
Proof.
  assert (Hne : history sqlErrors
                  (snd (processActivityWithInsights sampleHost onConfig run_today
                          (Some GarminClient) None false failingSaveWorld))
                <> history sqlErrors failingSaveWorld)
    by (vm_compute; discriminate).
  split; [exact Hne|].
  destruct (processActivityWithInsights_catches_store_failure sampleHost onConfig
              run_today (Some GarminClient) None false failingSaveWorld)
    as [r [Hr Hn]].
  rewrite Hr. now rewrite (Hn Hne).
Defined.

(** C3 as stated fails: the database file cannot be opened, and the call
    returns null instead of throwing; so it does when the model has
    answered and the insight cannot be saved. *)
Lemma processActivityWithInsights_swallows_store_failure :
  fst (processActivityWithInsights sampleHost onConfig run_today (Some GarminClient)
         None false brokenStoreWorld) = Ok None
  /\ history sqlErrors
       (snd (processActivityWithInsights sampleHost onConfig run_today
               (Some GarminClient) None false brokenStoreWorld)) = [EvSqlError]
  /\ fst (processActivityWithInsights sampleHost onConfig run_today (Some GarminClient)
            None false failingSaveWorld) = Ok None
  /\ history (fun k => (sqlErrors k || modelCalls k)%bool)
       (snd (processActivityWithInsights sampleHost onConfig run_today
               (Some GarminClient) None false failingSaveWorld))
     = [EvSqlError; EvGenerateContent NOON].
Proof. repeat split; vm_compute; reflexivity. Qed.

(** ** The store as the engine finds it *)

Lemma storeReady_storeHas (id : string) (w : World) :
  storeReady id w = true -> storeHas id w = true.
Proof.
  unfold storeReady, storeHas. destruct (table w); [|discriminate].
  intros H. apply andb_true_iff in H. tauto.
Qed.

Lemma Quiet_refl (w : World) : Quiet w w.
Proof. now split. Qed.

Lemma Quiet_trans (a b c : World) : Quiet a b -> Quiet b c -> Quiet a c.
Proof. unfold Quiet. intros [] []. split; congruence. Qed.

Lemma Steps_Quiet {A} (m : M A) :
  Steps (Frame table) m -> Steps (Frame (history effects)) m -> Steps Quiet m.
Proof. intros H1 H2 w. split; [apply H1 | apply H2]. Qed.

Section TableFrames.

Lemma elapse_table : Steps (Frame table) elapse.
Proof. unfold elapse. frame. Qed.
Hint Resolve elapse_table : frames.

Lemma sleep_table (ms : Z) : Steps (Frame table) (sleep ms).
Proof. unfold sleep, emit. frame. Qed.

Lemma dbStep_table : Steps (Frame table) dbStep.
Proof. unfold dbStep, emit. frame. Qed.
Hint Resolve dbStep_table : frames.

Lemma columnExists_table (c : string) : Steps (Frame table) (columnExists c).
Proof. unfold columnExists. frame. Qed.

Lemma getAIInsight_table (id : string) : Steps (Frame table) (getAIInsight id).
Proof. unfold getAIInsight, getDB, sqlError, emit. frame. Qed.
Hint Resolve getAIInsight_table : frames.

Lemma hasAIInsight_table (id : string) : Steps (Frame table) (hasAIInsight id).
Proof. unfold hasAIInsight. frame. Qed.

Lemma addActivityComment_table (id comment : string) (c : GarminClientType) (force : bool) :
  Steps (Frame table) (addActivityComment id comment c force).
Proof.
  unfold addActivityComment, client_getActivity, client_post, remoteStep, emit. frame.
Qed.

Lemma generateAttempts_table (n : nat) (attempt : Z) :
  Steps (Frame table) (generateAttempts n attempt).
Proof.
  revert attempt. pose proof sleep_table.
  induction n as [|n IH]; intros attempt; simpl;
    unfold waitForRateLimit, generateContent, emit, Date_now; frame.
Qed.

Lemma generateActivityInsights_table (host : Host) (config : Config)
      (a : GarminActivity) (all : option (list GarminActivity)) :
  Steps (Frame table) (generateActivityInsights host config a all).
Proof.
  unfold generateActivityInsights, emit. pose proof generateAttempts_table. frame.
Qed.

End TableFrames.

Lemma existsb_find_some {A} (p : A -> bool) (l : list A) :
  existsb p l = true -> exists x, find p l = Some x.
Proof.
  induction l as [|y l IH]; simpl; [discriminate|].
  destruct (p y); [intros _; now exists y | exact IH].
Qed.

(** Use what [Steps R m] says about the run [E : m w = (r, w')]. *)
Ltac along E lemma :=
  let F := fresh "F" in
  match type of E with
  | ?m ?w = _ => pose proof (lemma w) as F; rewrite E in F; cbn [snd] in F
  end.

Lemma hasAIInsight_when_stored (id : string) (w : World) (b : bool) (w' : World) :
  storeHas id w = true ->
  hasAIInsight id w = (Ok b, w') -> b = true.
Proof.
  intros Hs E. unfold hasAIInsight, getAIInsight, getDB, bind in E.
  destruct (dbStep w) as [[[]|e] w1] eqn:E1; [|discriminate].
  destruct (dbStep w1) as [[[]|e] w2] eqn:E2; [|discriminate].
  along E1 dbStep_table. along E2 dbStep_table.
  unfold Frame in *. unfold storeHas in Hs. rewrite <- F, <- F0 in Hs.
  cbn in E. destruct (table w2) as [t|]; [|discriminate].
  match type of E with context [if ?c then _ else _] => destruct c end;
    [|discriminate].
  apply existsb_find_some in Hs. destruct Hs as [x Hx].
  cbn in E. rewrite Hx in E. cbn in E. now injection E as <- _.
Qed.

Lemma columnExists_present (c : string) (t : Table) (w : World) (b : bool) (w' : World) :
  table w = Some t -> hasColumn c t = true ->
  columnExists c w = (Ok b, w') -> b = true.
Proof.
  intros Ht Hc E. unfold columnExists, bind in E.
  destruct (dbStep w) as [[[]|e] w1] eqn:E1; [|discriminate].
  along E1 dbStep_table. unfold Frame in F. rewrite Ht in F.
  cbn in E. rewrite F in E. injection E as <- _. exact Hc.
Qed.

Lemma dbStep_quiet : Steps Quiet dbStep.
Proof. apply Steps_Quiet; [apply dbStep_table | now apply dbStep_trace]. Qed.

Lemma columnExists_quiet (c : string) : Steps Quiet (columnExists c).
Proof. apply Steps_Quiet; [apply columnExists_table | now apply columnExists_trace]. Qed.

Lemma hasAIInsight_quiet (id : string) : Steps Quiet (hasAIInsight id).
Proof. apply Steps_Quiet; [apply hasAIInsight_table | now apply hasAIInsight_trace]. Qed.

(** With every column in place the migrations change nothing. *)
Lemma runMigrations_quiet (t : Table) (ms : list Migration) (w : World) :
  table w = Some t ->
  (forall m, In m ms -> hasColumn (mg_column m) t = true) ->
  Quiet w (snd (runMigrations ms w)).
Proof.
  revert w. induction ms as [|m ms IH]; intros w Ht Hms; simpl.
  - apply Quiet_refl.
  - unfold bind.
    destruct (columnExists (mg_column m) w) as [[b|e] w1] eqn:E.
    + assert (Hq : Quiet w w1) by (along E (columnExists_quiet (mg_column m)); exact F).
      assert (b = true)
        by (eapply columnExists_present; [exact Ht | apply Hms; now left | exact E]).
      subst b. cbn. eapply Quiet_trans; [exact Hq|].
      apply IH; [destruct Hq; congruence | intros; apply Hms; now right].
    + along E (columnExists_quiet (mg_column m)). exact F.
Qed.

Lemma Keeps_refl (id : string) (w : World) : Keeps id w w.
Proof. now intros H. Qed.

Lemma Keeps_trans (id : string) (a b c : World) :
  Keeps id a b -> Keeps id b c -> Keeps id a c.
Proof. unfold Keeps. auto. Qed.

Lemma fillDefault_activityId (c : string) (r : AIInsightRecord) :
  r_activityId (fillDefault c r) = r_activityId r.
Proof.
  unfold fillDefault.
  repeat match goal with |- context [if ?b then _ else _] => destruct b end;
    reflexivity.
Qed.

Lemma Frame_table_Keeps (id : string) (w w' : World) :
  Frame table w w' -> Keeps id w w'.
Proof. unfold Frame, Keeps, storeHas. now intros ->. Qed.

Lemma Steps_table_Keeps {A} (id : string) (m : M A) :
  Steps (Frame table) m -> Steps (Keeps id) m.
Proof. intros H w. apply Frame_table_Keeps, H. Qed.

Lemma alterTableAddColumn_keeps (id : string) (m : Migration) :
  Steps (Keeps id) (alterTableAddColumn m).
Proof.
  intros w. unfold alterTableAddColumn, bind.
  destruct (dbStep w) as [[[]|e] w1] eqn:E1; along E1 dbStep_table;
    [|now apply Frame_table_Keeps].
  unfold Keeps, storeHas. unfold Frame in F. rewrite <- F.
  destruct (table w1) as [t|] eqn:Ht; [|discriminate].
  cbn. rewrite Ht.
  destruct (negb _); cbn; rewrite ?Ht; [tauto|].
  destruct (hasColumn (mg_column m) t); cbn; rewrite ?Ht; [tauto|].
  intros H. rewrite existsb_exists in *. destruct H as [r [Hin Hr]].
  exists (fillDefault (mg_column m) r). split.
  - now apply in_map.
  - now rewrite fillDefault_activityId.
Qed.

Lemma createTable_keeps (id : string) : Steps (Keeps id) createTable.
Proof.
  intros w. unfold createTable, bind.
  destruct (dbStep w) as [[[]|e] w1] eqn:E1; along E1 dbStep_table;
    [|now apply Frame_table_Keeps].
  unfold Keeps, storeHas. unfold Frame in F. rewrite <- F.
  destruct (table w1) as [t|] eqn:Ht; [|discriminate].
  cbn. rewrite Ht. cbn. now rewrite Ht.
Qed.

Lemma initAIInsightsTable_keeps (id : string) : Steps (Keeps id) initAIInsightsTable.
Proof.
  pose proof (alterTableAddColumn_keeps id).
  pose proof (createTable_keeps id).
  pose proof (Steps_table_Keeps id dbStep_table).
  pose proof (fun c => Steps_table_Keeps id (columnExists_table c)).
  unfold initAIInsightsTable, runMigrations, migrations, getDB.
  repeat first
    [ assumption
    | solve [auto]
    | apply Steps_ret; exact (Keeps_refl id)
    | apply Steps_gets; exact (Keeps_refl id)
    | apply Steps_bind; [exact (@Keeps_trans id) | | intro]
    | split_scrutinee ].
Qed.

(** With every column an insert names in place, initialising the table
    changes nothing. *)
Lemma initAIInsightsTable_quiet (id : string) (w : World) :
  storeReady id w = true -> Quiet w (snd (initAIInsightsTable w)).
Proof.
  intros Hr. unfold initAIInsightsTable, getDB, bind.
  destruct (dbStep w) as [[[]|e] w1] eqn:E1; along E1 dbStep_quiet; [|exact F].
  destruct (dbStep w1) as [[[]|e] w2] eqn:E2; along E2 dbStep_quiet;
    [|eapply Quiet_trans; eassumption].
  assert (Hq : Quiet w w2) by (eapply Quiet_trans; eassumption).
  cbv beta iota delta [gets].
  unfold storeReady in Hr. rewrite <- (proj1 Hq) in Hr.
  destruct (table w2) as [t|] eqn:Ht2; [|discriminate].
  apply andb_true_iff in Hr. destruct Hr as [Hc _].
  eapply Quiet_trans; [exact Hq|].
  apply (@runMigrations_quiet t); [exact Ht2|].
  unfold hasColumns, INSERT_COLUMNS in Hc. cbn [forallb] in Hc.
  repeat (apply andb_true_iff in Hc; destruct Hc as [? Hc]).
  intros m [<-|[<-|[<-|[]]]]; assumption.
Qed.

Lemma saveAIInsight_ready (data : AIInsightData) (w w' : World) :
  saveAIInsight data w = (Ok tt, w') -> storeReady (d_activityId data) w' = true.
Proof.
  intros E. unfold saveAIInsight, getDB, bind in E.
  destruct (dbStep w) as [[[]|e] w1] eqn:E1; [|discriminate].
  destruct (dbStep w1) as [[[]|e] w2] eqn:E2; [|discriminate].
  cbv beta iota delta [gets Date_now] in E.
  destruct (table w2) as [t|] eqn:Ht; [|discriminate].
  destruct (hasColumns INSERT_COLUMNS t) eqn:Hc; [|discriminate].
  cbn in E. injection E as <-. unfold storeReady. cbn.
  rewrite String.eqb_refl.
  change (hasColumns INSERT_COLUMNS t && true = true)%bool.
  now rewrite Hc.
Qed.

Lemma generateActivityInsights_logs_once
      (host : Host) (config : Config) (a : GarminActivity)
      (all : option (list GarminActivity)) (w : World)
      (r : AIInsightResult) (w' : World) :
  generateActivityInsights host config a all w = (Ok (Some r), w') ->
  history generating w'
  = EvGenerating (String_ (activityId a)) :: history generating w.
Proof.
  unfold generateActivityInsights.
  destruct (negb (isAIInsightsEnabled config)); [discriminate|].
  unfold bind at 1.
  match goal with |- context [match ?m w with _ => _ end] =>
    destruct (m w) as [[ctx|e] w1] eqn:E1 end; [|discriminate].
  assert (w1 = w) as ->.
  { destruct all as [all|]; [destruct (1 <? length all)%nat|];
      unfold bind, liftRes, ret in E1;
      try destruct (getHistoricalContext host a all); congruence. }
  unfold bind, emit, modify. intros E.
  match type of E with generateAttempts ?n ?k ?w0 = _ =>
    pose proof (@generateAttempts_trace generating n k eq_refl eq_refl eq_refl eq_refl w0)
      as F end.
  rewrite E in F. exact F.
Qed.

Section Idempotence.

Variable host : Host.
Variable config : Config.

Lemma processActivityWithInsights_first_call
      (a : GarminActivity) (c : option GarminClientType)
      (all : option (list GarminActivity)) (w : World)
      (r : AIInsightResult) (w1 : World) :
  processActivityWithInsights host config a c all false w = (Ok (Some r), w1) ->
  storeReady (String_ (activityId a)) w1 = true
  /\ history generating w1
     = EvGenerating (String_ (activityId a)) :: history generating w.
Proof.
  unfold processActivityWithInsights.
  destruct (negb (isAIInsightsEnabled config)); [discriminate|].
  unfold tryCatch, bind. cbn [negb].
  destruct (initAIInsightsTable w) as [[[]|e] wa] eqn:Ea; [|discriminate].
  destruct (hasAIInsight _ wa) as [[[|]|e] wb] eqn:Eb; try discriminate.
  destruct (generateActivityInsights host config a all wb)
    as [[[res|]|e] wc] eqn:Ec; try discriminate.
  destruct (saveAIInsight _ wc) as [[[]|e] wd] eqn:Ed; [|discriminate].
  along Ea (@initAIInsightsTable_trace generating eq_refl eq_refl).
  along Eb (@hasAIInsight_trace generating (String_ (activityId a)) eq_refl).
  apply generateActivityInsights_logs_once in Ec.
  along Ed (@saveAIInsight_trace generating
              (mkData (String_ (activityId a)) (activityName a) (insight res)
                      (model res) (confidence res)) eq_refl eq_refl).
  apply saveAIInsight_ready in Ed. cbn [d_activityId] in Ed.
  unfold Frame in *.
  destruct c as [client|].
  - destruct (addActivityComment _ _ client false wd) as [[ok|e] we] eqn:Ee;
      [|discriminate].
    along Ee (@addActivityComment_trace generating (String_ (activityId a))
                (commentFor host (model res) (confidence res) (insight res))
                client false eq_refl eq_refl).
    along Ee (addActivityComment_table (String_ (activityId a))
                (commentFor host (model res) (confidence res) (insight res))
                client false).
    unfold Frame in *. cbn. intros H. injection H as _ <-.
    split; [unfold storeReady in *; now rewrite F3 | congruence].
  - cbn. intros H. injection H as _ <-. split; congruence.
Qed.

Lemma processActivityWithInsights_when_ready
      (a : GarminActivity) (c : option GarminClientType)
      (all : option (list GarminActivity)) (w : World) :
  storeReady (String_ (activityId a)) w = true ->
  fst (processActivityWithInsights host config a c all false w) = Ok None
  /\ history effects (snd (processActivityWithInsights host config a c all false w))
     = history effects w.
Proof.
  intros Hr. unfold processActivityWithInsights.
  destruct (negb (isAIInsightsEnabled config)); [now split|].
  unfold tryCatch, bind. cbn [negb].
  pose proof (initAIInsightsTable_quiet _ _ Hr) as Qa.
  destruct (initAIInsightsTable w) as [[[]|e] wa] eqn:Ea; cbn [snd] in Qa;
    [|split; [reflexivity | apply Qa]].
  destruct (hasAIInsight _ wa) as [[b|e] wb] eqn:Eb;
    along Eb (hasAIInsight_quiet (String_ (activityId a)));
    [|split; [reflexivity | destruct Qa, F; cbn; congruence]].
  assert (b = true) as ->.
  { eapply hasAIInsight_when_stored; [|exact Eb].
    apply storeReady_storeHas. unfold storeReady in *.
    now rewrite (proj1 Qa). }
  split; [reflexivity | destruct Qa, F; cbn; congruence].
Qed.

Lemma processActivityWithInsights_when_stored
      (a : GarminActivity) (c : option GarminClientType)
      (all : option (list GarminActivity)) (w : World) :
  storeHas (String_ (activityId a)) w = true ->
  fst (processActivityWithInsights host config a c all false w) = Ok None
  /\ history generation (snd (processActivityWithInsights host config a c all false w))
     = history generation w.
Proof.
  intros Hs. unfold processActivityWithInsights.
  destruct (negb (isAIInsightsEnabled config)); [now split|].
  unfold tryCatch, bind. cbn [negb].
  pose proof (initAIInsightsTable_keeps (String_ (activityId a)) w Hs) as Ka.
  destruct (initAIInsightsTable w) as [[[]|e] wa] eqn:Ea; cbn [snd] in Ka;
    along Ea (@initAIInsightsTable_trace generation eq_refl eq_refl);
    [|split; [reflexivity | exact F]].
  destruct (hasAIInsight _ wa) as [[b|e] wb] eqn:Eb;
    along Eb (@hasAIInsight_trace generation (String_ (activityId a)) eq_refl);
    unfold Frame in *;
    [|split; [reflexivity | cbn; congruence]].
  assert (b = true) as -> by (eapply hasAIInsight_when_stored; eassumption).
  split; [reflexivity | cbn; congruence].
Qed.

End Idempotence.

Lemma filter_filter_sub {A} (p q : A -> bool) (l : list A) :
  (forall x, p x = true -> q x = true) ->
  filter p (filter q l) = filter p l.
Proof.
  intros Hpq. induction l as [|x l IH]; simpl; [reflexivity|].
  destruct (q x) eqn:Hq; simpl.
  - now rewrite IH.
  - destruct (p x) eqn:Hp; [|exact IH].
    apply Hpq in Hp. congruence.
Qed.

Lemma history_sub (ks ks' : Kind -> bool) (w w' : World) :
  (forall k, ks k = true -> ks' k = true) ->
  history ks' w' = history ks' w -> history ks w' = history ks w.
Proof.
  intros Hsub H. unfold history in *.
  rewrite <- (filter_filter_sub (fun e => ks (kindOf e)) (fun e => ks' (kindOf e)) (trace w'))
    by (intros; now apply Hsub).
  rewrite <- (filter_filter_sub (fun e => ks (kindOf e)) (fun e => ks' (kindOf e)) (trace w))
    by (intros; now apply Hsub).
  now rewrite H.
Qed.

(** C2.  With [forceUpdate] false, a call that finds a record keyed by
    the activity's identifier returns null without a generation call; and
    after a call that generated an insight, the next call for the same
    identifier returns null with no generation call, no store write and
    no remote write, so that over the two calls the Generation Client
    was invoked exactly once. *)
Theorem processActivityWithInsights_idempotent
        (host : Host) (config : Config) (a : GarminActivity)
        (c : option GarminClientType) (all : option (list GarminActivity)) (w : World) :
  (storeHas (String_ (activityId a)) w = true ->
   fst (processActivityWithInsights host config a c all false w) = Ok None
   /\ history generation (snd (processActivityWithInsights host config a c all false w))
      = history generation w)
  /\ (forall r w1 c' all',
        processActivityWithInsights host config a c all false w = (Ok (Some r), w1) ->
        let second := processActivityWithInsights host config a c' all' false w1 in
        fst second = Ok None
        /\ history effects (snd second) = history effects w1
        /\ history generating (snd second)
           = EvGenerating (String_ (activityId a)) :: history generating w).
Proof.
  split.
  - apply processActivityWithInsights_when_stored.
  - intros r w1 c' all' E second.
    destruct (@processActivityWithInsights_first_call host config a c all w r w1 E)
      as [Hr Hg].
    destruct (@processActivityWithInsights_when_ready host config a c' all' w1 Hr)
      as [Hn He].
    split; [exact Hn | split; [exact He|]].
    rewrite <- Hg. apply (@history_sub generating effects); [|exact He].
    now intros [].
Qed.

Lemma processActivityWithInsights_idempotent_witness :
  let first := processActivityWithInsights sampleHost onConfig run_today
                 (Some GarminClient) None false answeringWorld in
  let second := processActivityWithInsights sampleHost onConfig run_today
                  (Some GarminClient) None false (snd first) in
  fst first = Ok (Some (mkResult "Steady aerobic effort." GEMINI_MODEL (Num 0.85)))
  /\ storeHas "100" (snd first) = true
  /\ fst second = Ok None
  /\ history effects (snd second) = history effects (snd first)
  /\ history generating (snd second) = [EvGenerating "100"].
Proof.
  intros first second.
  assert (E : first = (Ok (Some (mkResult "Steady aerobic effort." GEMINI_MODEL
                                          (Num 0.85))), snd first))
    by (vm_compute; reflexivity).
  split; [now rewrite E | split; [vm_compute; reflexivity|]].
  exact (proj2 (@processActivityWithInsights_idempotent sampleHost onConfig run_today
                  (Some GarminClient) None answeringWorld)
               _ _ (Some GarminClient) None E).
Defined.

(** ** Comments on the remote activity *)

Lemma remoteStep_spec (w : World) :
  trace (snd (remoteStep w)) = trace w
  /\ activities (snd (remoteStep w)) = activities w
  /\ remoteFaults (snd (remoteStep w)) = tl (remoteFaults w)
  /\ fst (remoteStep w) = Ok (hd Answered (remoteFaults w)).
Proof.
  unfold remoteStep, elapse, bind, gets, modify, ret.
  destruct (ticks w); cbn; destruct (remoteFaults w) as [|f fs] eqn:E; cbn;
    rewrite ?E; repeat split; reflexivity.
Qed.

Lemma client_getActivity_spec (c : GarminClientType) (id : string) (w : World) :
  trace (snd (client_getActivity c id w)) = EvGetActivity id :: trace w
  /\ activities (snd (client_getActivity c id w)) = activities w
  /\ remoteFaults (snd (client_getActivity c id w)) = tl (remoteFaults w)
  /\ fst (client_getActivity c id w)
     = if nextRemoteFails w then Throw GarminError
       else Ok (lookupActivity id (activities w)).
Proof.
  unfold client_getActivity, emit, bind. cbv beta iota delta [modify].
  match goal with |- context [remoteStep ?w0] =>
    destruct (remoteStep_spec w0) as (Ht & Ha & Hf & Hr);
    destruct (remoteStep w0) as [[f|e] w1] end;
    cbn [fst snd] in *; [|discriminate].
  injection Hr as ->. unfold nextRemoteFails. cbn [set_trace remoteFaults] in *.
  destruct (remoteFaults w) as [|[| |] fs]; cbn [hd] in *; cbn;
    rewrite ?Ha; repeat split; auto.
Qed.

Lemma client_post_spec (c : GarminClientType) (id name desc : string) (w : World) :
  let run := client_post c id name desc w in
  trace (snd run) = EvPostDescription id desc :: trace w
  /\ remoteFaults (snd run) = tl (remoteFaults w)
  /\ match hd Answered (remoteFaults w) with
     | Answered =>
         fst run = Ok tt
         /\ activities (snd run)
            = storeActivity id (mkRemote name (Some desc)) (activities w)
     | Refused =>
         fst run = Throw GarminError
         /\ activities (snd run) = activities w
     | AnswerLost =>
         fst run = Throw GarminError
         /\ activities (snd run)
            = storeActivity id (mkRemote name (Some desc)) (activities w)
     end.
Proof.
  unfold client_post, applyPost, emit, bind. cbv beta iota zeta delta [modify].
  match goal with |- context [remoteStep ?w0] =>
    destruct (remoteStep_spec w0) as (Ht & Ha & Hf & Hr);
    destruct (remoteStep w0) as [[f|e] w1] end;
    cbn [fst snd] in *; [|discriminate].
  injection Hr as ->. cbn [set_trace remoteFaults] in *.
  destruct (remoteFaults w) as [|[| |] fs]; cbn [hd] in *; cbn;
    rewrite ?Ha; repeat split; auto.
Qed.

Lemma lookup_storeActivity (id : string) (a b : RemoteActivity)
      (l : list (string * RemoteActivity)) :
  lookupActivity id l = Some b ->
  lookupActivity id (storeActivity id a l) = Some a.
Proof.
  induction l as [|[k x] l IH]; simpl; [discriminate|].
  destruct (String.eqb k id) eqn:E; simpl; rewrite E; auto.
Qed.



(** The same call on an activity without description posts the comment
    alone. *)
Example addActivityComment_on_empty_description :
  let run := addActivityComment "100" "Robot says hello" GarminClient false freshWorld in
  history remoteWrites (snd run) = [EvPostDescription "100" "Robot says hello"]
  /\ lookupActivity "100" (activities (snd run))
     = Some (mkRemote "Morning Run" (Some "Robot says hello")).
Proof. split; vm_compute; reflexivity. Qed.

(** ** Reading the remote marker *)

Lemma addActivityComment_returns (id comment : string) (c : GarminClientType)
      (force : bool) : NoThrow (addActivityComment id comment c force).
Proof. unfold addActivityComment. apply NoThrow_tryCatch. intros e. apply NoThrow_ret. Qed.

Lemma hasActivityInsight_returns (id : string) (c : GarminClientType) :
  NoThrow (hasActivityInsight id c).
Proof. unfold hasActivityInsight. apply NoThrow_tryCatch. intros e. apply NoThrow_ret. Qed.

Lemma sleep_returns (ms : Z) (w : World) : fst (sleep ms w) = Ok tt.
Proof. unfold sleep, emit, elapse, bind, modify. reflexivity. Qed.

(** C10.  [hasActivityInsight] never throws; it answers false when the
    request for the activity fails, when the answer is falsy and when
    the activity has no description; and on that answer the sweep goes
    on to [addActivityComment] for the record, as for an activity whose
    description lacks the marker. *)
Theorem hasActivityInsight_failure_reads_as_missing
        (id : string) (c : GarminClientType) (w : World) :
  (exists b, fst (hasActivityInsight id c w) = Ok b)
  /\ (nextRemoteFails w = true -> fst (hasActivityInsight id c w) = Ok false)
  /\ (nextRemoteFails w = false ->
      match lookupActivity id (activities w) with
      | Some a => descriptionOrEmpty (ra_description a) = EmptyString
      | None => True
      end ->
      fst (hasActivityInsight id c w) = Ok false)
  /\ (forall host record todo n,
        r_activityId record = id ->
        fst (hasActivityInsight id c w) = Ok false ->
        syncEach host c (record :: todo) n w
        = (success <- addActivityComment id
                        (commentFor host (r_model record) (r_confidence record)
                                    (r_insight record)) c false ;;
           sleep 1000 ;;
           syncEach host c todo
             (if success : bool
              then mkCounts (syncedCount n + 1) (skippedCount n) (errorCount n)
              else mkCounts (syncedCount n) (skippedCount n) (errorCount n + 1)))
            (snd (hasActivityInsight id c w))).
Proof.
  split; [apply hasActivityInsight_returns|].
  unfold hasActivityInsight at 1 2, tryCatch, bind.
  destruct (client_getActivity_spec c id w) as (Ht & Ha & Hr & Hres).
  destruct (client_getActivity c id w) as [r w1]. cbn [fst snd] in *.
  split; [|split].
  - intros Hf. rewrite Hf in Hres. now subst r.
  - intros Hf Hd. rewrite Hf in Hres. subst r. cbn.
    destruct (lookupActivity id (activities w)) as [a|]; [now rewrite Hd | reflexivity].
  - intros host record todo n <- Hfalse.
    cbn [syncEach]. unfold bind at 1. unfold tryCatch at 1. unfold bind at 1.
    destruct (hasActivityInsight (r_activityId record) c w) as [[b|e] w2];
      cbn [fst snd] in *; [|discriminate].
    injection Hfalse as ->.
    unfold bind.
    destruct (addActivityComment_returns (r_activityId record)
                (commentFor host (r_model record) (r_confidence record)
                            (r_insight record)) c false w2) as [ok Hok].
    destruct (addActivityComment _ _ c false w2) as [[ok'|e] w3];
      cbn [fst] in Hok; [|discriminate].
    pose proof (sleep_returns 1000 w3) as Hs.
    destruct (sleep 1000 w3) as [[[]|e] w4]; cbn [fst] in Hs; [|discriminate].
    reflexivity.
Qed.

Lemma hasActivityInsight_failure_reads_as_missing_witness :
  fst (hasActivityInsight "100" GarminClient unreachableWorld) = Ok false
  /\ history remoteReads
       (snd (syncMissingInsightsToGarmin sampleHost GarminClient unreachableWorld))
     = [EvPostDescription "100"
          (commentFor sampleHost GEMINI_MODEL (Num 0.85) "Steady aerobic effort.");
        EvGetActivity "100"; EvGetActivity "100"].
Proof.
  split.
  - apply (proj1 (proj2 (@hasActivityInsight_failure_reads_as_missing
                           "100" GarminClient unreachableWorld))).
    reflexivity.
  - vm_compute. reflexivity.
Defined.

(** ** Timers, the gate and the model call *)

Lemma timerDelay_pos (ms : Z) : (1 <= timerDelay ms)%Z.
Proof.
  unfold timerDelay. destruct (ms <? 1)%Z eqn:E1; cbn [orb]; [lia|].
  destruct (2147483647 <? ms)%Z; [lia|]. apply Z.ltb_ge in E1. lia.
Qed.

Lemma timerDelay_in_range (ms : Z) :
  (1 <= ms <= 2147483647)%Z -> timerDelay ms = ms.
Proof.
  intros H. unfold timerDelay.
  destruct (ms <? 1)%Z eqn:E1; [apply Z.ltb_lt in E1; lia|].
  destruct (2147483647 <? ms)%Z eqn:E2; [apply Z.ltb_lt in E2; lia | reflexivity].
Qed.

Lemma sleep_spec (ms : Z) (w : World) :
  fst (sleep ms w) = Ok tt
  /\ trace (snd (sleep ms w)) = EvSleep ms :: trace w
  /\ (clock w + timerDelay ms <= clock (snd (sleep ms w)))%Z
  /\ replies (snd (sleep ms w)) = replies w
  /\ lastRequestTime (snd (sleep ms w)) = lastRequestTime w.
Proof.
  unfold sleep, emit, elapse, bind, modify. cbn.
  destruct (ticks w); cbn; repeat split; lia.
Qed.

(** The gate: when it lets go it writes the time to [lastRequestTime],
    and with a clock that has not run backwards behind the last request
    time, that is at least the minimum interval after it. *)
Lemma waitForRateLimit_spec (w : World) :
  let w' := snd (waitForRateLimit w) in
  fst (waitForRateLimit w) = Ok tt
  /\ replies w' = replies w
  /\ (trace w' = EvRateGate (clock w') :: trace w
      \/ exists ms, trace w' = EvRateGate (clock w') :: EvSleep ms :: trace w)
  /\ lastRequestTime w' = clock w'
  /\ (clock w <= clock w')%Z
  /\ ((lastRequestTime w <= clock w)%Z ->
      (lastRequestTime w + MIN_REQUEST_INTERVAL_MS <= clock w')%Z).
Proof.
  unfold waitForRateLimit, bind, Date_now, gets, modify, emit.
  destruct (clock w - lastRequestTime w <? MIN_REQUEST_INTERVAL_MS)%Z eqn:E.
  - destruct (sleep_spec (MIN_REQUEST_INTERVAL_MS - (clock w - lastRequestTime w)) w)
      as (Hs & Ht & Hc & Hr & Hl).
    pose proof (timerDelay_pos (MIN_REQUEST_INTERVAL_MS - (clock w - lastRequestTime w))).
    destruct (sleep _ w) as [[[]|e] w1]; cbn [fst snd] in *; [|discriminate].
    cbn. rewrite Ht. repeat split; try assumption; try lia.
    + right. eexists. reflexivity.
    + intros Hle. apply Z.ltb_lt in E. unfold MIN_REQUEST_INTERVAL_MS in *.
      rewrite timerDelay_in_range in Hc by lia. lia.
  - cbn. apply Z.ltb_ge in E. unfold MIN_REQUEST_INTERVAL_MS in *.
    repeat split; try lia. now left.
Qed.

Lemma waitForRateLimit_returns (w : World) : fst (waitForRateLimit w) = Ok tt.
Proof. apply waitForRateLimit_spec. Qed.

Lemma sleep_replies (ms : Z) : Steps (Frame replies) (sleep ms).
Proof. unfold sleep, emit, elapse. frame. Qed.

Lemma waitForRateLimit_replies : Steps (Frame replies) waitForRateLimit.
Proof. pose proof sleep_replies. unfold waitForRateLimit, Date_now, emit. frame. Qed.

Lemma prepareCall_spec (w : World) :
  let w' := snd (prepareCall w) in
  fst (prepareCall w) = Ok tt
  /\ replies w' = replies w
  /\ trace w' = trace w
  /\ lastRequestTime w' = lastRequestTime w
  /\ (clock w <= clock w')%Z.
Proof.
  unfold prepareCall, elapse, modify. destruct (ticks w); cbn; repeat split; lia.
Qed.

Lemma generateContent_spec (w : World) :
  let w' := snd (generateContent w) in
  fst (generateContent w) = replyOutcome (replies w)
  /\ replies w' = tl (replies w)
  /\ trace w' = EvGenerateContent (clock w) :: trace w
  /\ lastRequestTime w' = lastRequestTime w
  /\ (clock w <= clock w')%Z.
Proof.
  unfold generateContent, bind, Date_now, gets, emit, elapse, modify.
  cbn. destruct (ticks w); cbn; destruct (replies w) as [|[t|e] rs] eqn:E; cbn;
    rewrite ?E; repeat split; lia.
Qed.

(** The gate, the preparation and the request, one after the other. *)
Lemma gated_call_spec (w : World) :
  exists g c w2,
    (waitForRateLimit ;; prepareCall ;; generateContent) w
    = (replyOutcome (replies w), w2)
    /\ replies w2 = tl (replies w)
    /\ (trace w2 = EvGenerateContent c :: EvRateGate g :: trace w
        \/ exists ms,
            trace w2 = EvGenerateContent c :: EvRateGate g :: EvSleep ms :: trace w)
    /\ lastRequestTime w2 = g
    /\ (clock w <= g <= c)%Z /\ (c <= clock w2)%Z
    /\ ((lastRequestTime w <= clock w)%Z ->
        (lastRequestTime w + MIN_REQUEST_INTERVAL_MS <= g)%Z).
Proof.
  unfold bind.
  destruct (waitForRateLimit_spec w) as (Hw & Hr & Ht & Hl & Hc & Hgap).
  destruct (waitForRateLimit w) as [[[]|e] w1]; cbn [fst snd] in *; [|discriminate].
  destruct (prepareCall_spec w1) as (Hp & Hr1 & Ht1 & Hl1 & Hc1).
  destruct (prepareCall w1) as [[[]|e] wp]; cbn [fst snd] in *; [|discriminate].
  destruct (generateContent_spec wp) as (Ho & Hr2 & Ht2 & Hl2 & Hc2).
  destruct (generateContent wp) as [r w2]; cbn [fst snd] in *.
  exists (clock w1), (clock wp), w2.
  split; [now rewrite Ho, Hr1, Hr|]. split; [congruence|].
  split; [rewrite Ht2, Ht1; destruct Ht as [->|[ms ->]]; [now left | right; now exists ms]|].
  split; [congruence|]. split; [lia|]. split; [lia|]. exact Hgap.
Qed.

(** What counts as rate limited. *)
Lemma isRateLimited_spec (error : JsError) :
  isRateLimited error = true <->
  exists e, error = GenerationError e
            /\ (status e = Some 429%Z \/ statusText e = Some "Too Many Requests").
Proof.
  split.
  - destruct error as [| |e|]; try discriminate. cbn [isRateLimited].
    intros H. exists e. split; [reflexivity|].
    apply orb_true_iff in H. destruct H as [H|H].
    + left. destruct (status e) as [n|]; [|discriminate].
      apply Z.eqb_eq in H. now subst.
    + right. destruct (statusText e) as [t|]; [|discriminate].
      apply String.eqb_eq in H. now subst.
  - intros (e & -> & [H|H]); cbn [isRateLimited]; rewrite H.
    + reflexivity.
    + rewrite String.eqb_refl. apply orb_true_r.
Qed.

(** ** Retry and backoff *)

Lemma generateAttempts_S (n : nat) (k : Z) :
  generateAttempts (S n) k
  = tryCatch
      (waitForRateLimit ;;
       prepareCall ;;
       text <- generateContent ;;
       ret (Some (resultOf text)))
      (fun error =>
         if (isRateLimited error && (k <? MAX_RETRIES)%Z)%bool
         then
           emit (EvRetry k (retryDelayFor k error)) ;;
           sleep (retryDelayFor k error) ;;
           generateAttempts n (k + 1)%Z
         else ret None).
Proof. reflexivity. Qed.


Arguments generateAttempts : simpl never.

Lemma calledAt_of_trace (g c : Z) (w w2 : World) :
  replies w2 = tl (replies w) ->
  (trace w2 = EvGenerateContent c :: EvRateGate g :: trace w
   \/ exists ms, trace w2 = EvGenerateContent c :: EvRateGate g :: EvSleep ms :: trace w) ->
  (clock w <= c <= clock w2)%Z ->
  calledAt c w w2.
Proof.
  intros Hr Ht Hc. unfold calledAt, history.
  destruct Ht as [->|[ms ->]]; cbn; repeat split; auto; try lia.
  intros Hn. destruct (trace w) as [|[] tr]; cbn in *; tauto.
Qed.

(** The announcement of a retry and the timer that follows it. *)
Lemma retry_prelude (k : Z) (error : JsError) (w : World) :
  exists w',
    (emit (EvRetry k (retryDelayFor k error)) ;; sleep (retryDelayFor k error)) w
    = (Ok tt, w')
    /\ waitedFor k (retryDelayFor k error) w w'.
Proof.
  unfold bind, emit, modify.
  set (d := retryDelayFor k error). set (w0 := set_trace _ w).
  destruct (sleep_spec d w0) as (Hs & Ht & Hc & Hr & Hl).
  destruct (sleep d w0) as [[[]|e] w1]; cbn [fst snd] in *; [|discriminate].
  exists w1. split; [reflexivity|]. unfold waitedFor, history. rewrite Ht, Hr.
  subst w0. cbn in *. repeat split; auto.
Qed.

(** One turn of the loop of [generateActivityInsights]. *)
Lemma generateAttempts_round (n : nat) (k : Z) (w : World) :
  exists c w2,
    calledAt c w w2
    /\ match replyOutcome (replies w) with
       | Ok text => generateAttempts (S n) k w = (Ok (Some (resultOf text)), w2)
       | Throw error =>
           if (isRateLimited error && (k <? MAX_RETRIES)%Z)%bool
           then exists w3,
               waitedFor k (retryDelayFor k error) w2 w3
               /\ generateAttempts (S n) k w = generateAttempts n (k + 1)%Z w3
           else generateAttempts (S n) k w = (Ok None, w2)
       end.
Proof.
  destruct (gated_call_spec w) as (g & c & w2 & E & Hr & Ht & Hl & Hg & Hc & _).
  exists c, w2. split; [apply (@calledAt_of_trace g c w w2 Hr Ht); lia|].
  rewrite generateAttempts_S. unfold tryCatch.
  assert (Hmap : (waitForRateLimit ;; prepareCall ;; text <- generateContent ;;
                  ret (Some (resultOf text))) w
                 = match (waitForRateLimit ;; prepareCall ;; generateContent) w with
                   | (Ok text, w') => (Ok (Some (resultOf text)), w')
                   | (Throw e, w') => (Throw e, w')
                   end).
  { unfold bind, ret.
    destruct (waitForRateLimit w) as [[[]|?] w1]; [|reflexivity].
    destruct (prepareCall w1) as [[[]|?] wp]; [|reflexivity].
    now destruct (generateContent wp) as [[?|?] wg]. }
  rewrite Hmap, E.
  destruct (replyOutcome (replies w)) as [text|error]; [reflexivity|].
  destruct (isRateLimited error && (k <? MAX_RETRIES)%Z)%bool; [|reflexivity].
  destruct (retry_prelude k error w2) as (w3 & E3 & Hw).
  exists w3. split; [exact Hw|].
  unfold bind in *. destruct (emit _ w2) as [[[]|?] wx]; [|discriminate].
  now rewrite E3.
Qed.

(** One turn of the loop, with the wait before the retry run. *)
Lemma generateAttempts_turn (n : nat) (k : Z) (w : World) :
  exists w2,
    afterCall w w2
    /\ match replyOutcome (replies w) with
       | Ok text => generateAttempts (S n) k w = (Ok (Some (resultOf text)), w2)
       | Throw error =>
           if (isRateLimited error && (k <? MAX_RETRIES)%Z)%bool
           then exists w3,
               replies w3 = replies w2
               /\ history modelCalls w3 = history modelCalls w2
               /\ history retries w3
                  = EvRetry k (retryDelayFor k error) :: history retries w2
               /\ generateAttempts (S n) k w = generateAttempts n (k + 1)%Z w3
           else generateAttempts (S n) k w = (Ok None, w2)
       end.
Proof.
  destruct (generateAttempts_round n k w) as (c & w2 & Ha & E).
  exists w2. destruct Ha as (Hr & _ & Hm & Ht & _).
  split; [split; [exact Hr | split; [now exists c | exact Ht]]|].
  destruct (replyOutcome (replies w)) as [text|error]; [exact E|].
  destruct (isRateLimited error && (k <? MAX_RETRIES)%Z)%bool; [|exact E].
  destruct E as (w3 & (Hr3 & _ & Hm3 & Ht3 & _) & E).
  exists w3. auto.
Qed.



(** *** The delay before a retry *)





Lemma digitsToZ_nonneg (s : string) :
  forall acc, (0 <= acc)%Z -> allDigits s = true -> (0 <= digitsToZ acc s)%Z.
Proof.
  induction s as [|c s IH]; intros acc Ha Hd; cbn [digitsToZ]; [exact Ha|].
  cbn [allDigits] in Hd. apply andb_true_iff in Hd. destruct Hd as [Hc Hs].
  apply IH; [|exact Hs].
  unfold isDigit in Hc. apply andb_true_iff in Hc. destruct Hc as [Hlo _].
  apply Nat.leb_le in Hlo. unfold digitValue. lia.
Qed.





(** The timers of the witness, as the trace has them: the retry is
    announced, its timer is set to 37 seconds, and the second call is
    issued that much later. *)
Example throttled_run_waits :
  let run := generateActivityInsights sampleHost onConfig run_today None throttledWorld in
  trace (snd run)
  = [EvGenerateContent (NOON + 37000); EvRateGate (NOON + 37000);
     EvSleep 37000; EvRetry 1 37000;
     EvGenerateContent NOON; EvRateGate NOON; EvGenerating "100"]%Z.
Proof. vm_compute. reflexivity. Qed.

(** ** Spacing of the model calls *)

Lemma Later_refl (w : World) : Later w w.
Proof. unfold Later. repeat split; lia. Qed.

Lemma Later_trans (a b c : World) : Later a b -> Later b c -> Later a c.
Proof. unfold Later. intros (?&?&?) (?&?&?). repeat split; try congruence; lia. Qed.

Lemma KeepsRate_refl (w : World) : KeepsRate w w.
Proof. now intros H. Qed.

Lemma KeepsRate_trans (a b c : World) : KeepsRate a b -> KeepsRate b c -> KeepsRate a c.
Proof. unfold KeepsRate. auto. Qed.

Lemma Later_KeepsRate (w w' : World) : Later w w' -> KeepsRate w w'.
Proof.
  unfold Later, KeepsRate, RateLimited, gatesSpaced.
  intros (Hc & Hl & Ht) (H1 & H2 & H3). rewrite Hc, Hl. repeat split; auto. lia.
Qed.

Lemma Steps_Later_KeepsRate {A} (m : M A) : Steps Later m -> Steps KeepsRate m.
Proof. intros H w. apply Later_KeepsRate, H. Qed.

Ltac later_leaf :=
  unfold Later; intros; cbn;
  repeat match goal with
         | |- context [match ?x with _ => _ end] => destruct x; cbn
         end;
  repeat split; try reflexivity; lia.

Ltac later :=
  repeat first
    [ solve [auto 2]
    | apply Steps_ret; exact Later_refl
    | apply Steps_throw; exact Later_refl
    | apply Steps_gets; exact Later_refl
    | apply Steps_liftRes; exact Later_refl
    | apply Steps_bind; [exact Later_trans | | intro]
    | apply Steps_tryCatch; [exact Later_trans | | intro]
    | apply Steps_modify; solve [later_leaf]
    | split_scrutinee ].

Lemma elapse_later : Steps Later elapse.
Proof. unfold elapse. later. Qed.

Lemma sleep_later (ms : Z) : Steps Later (sleep ms).
Proof.
  intros w. destruct (sleep_spec ms w) as (_ & Ht & Hc & _ & Hl).
  pose proof (timerDelay_pos ms). unfold Later. rewrite Ht, Hl.
  repeat split; try reflexivity; lia.
Qed.

Lemma dbStep_later : Steps Later dbStep.
Proof. pose proof elapse_later. unfold dbStep, emit. later. Qed.

Lemma initAIInsightsTable_later : Steps Later initAIInsightsTable.
Proof.
  pose proof dbStep_later.
  unfold initAIInsightsTable, createTable, runMigrations, migrations, columnExists,
    alterTableAddColumn, getDB, sqlError, emit.
  later.
Qed.

Lemma hasAIInsight_later (id : string) : Steps Later (hasAIInsight id).
Proof.
  pose proof dbStep_later. unfold hasAIInsight, getAIInsight, getDB, sqlError, emit. later.
Qed.

Lemma saveAIInsight_later (data : AIInsightData) : Steps Later (saveAIInsight data).
Proof.
  pose proof dbStep_later. unfold saveAIInsight, getDB, sqlError, emit, Date_now. later.
Qed.

Lemma getAllAIInsights_later : Steps Later getAllAIInsights.
Proof. pose proof dbStep_later. unfold getAllAIInsights, getDB, sqlError, emit. later. Qed.

Lemma remoteStep_later : Steps Later remoteStep.
Proof. pose proof elapse_later. unfold remoteStep. later. Qed.

Lemma addActivityComment_later (id comment : string) (c : GarminClientType) (force : bool) :
  Steps Later (addActivityComment id comment c force).
Proof.
  pose proof remoteStep_later.
  unfold addActivityComment, client_getActivity, client_post, applyPost, emit. later.
Qed.

Lemma hasActivityInsight_later (id : string) (c : GarminClientType) :
  Steps Later (hasActivityInsight id c).
Proof.
  pose proof remoteStep_later. unfold hasActivityInsight, client_getActivity, emit. later.
Qed.

(** A model call behind the gate keeps the invariant of the gate. *)
Lemma gated_call_keeps_rate {A} (k : string -> M A) :
  (forall text, Steps KeepsRate (k text)) ->
  Steps KeepsRate (waitForRateLimit ;; prepareCall ;; text <- generateContent ;; k text).
Proof.
  intros Hk w.
  destruct (gated_call_spec w) as (g & c & w2 & E & Hr & Ht & Hl & Hg & Hc & Hgap).
  assert (Hkeep : KeepsRate w w2).
  { intros (H1 & H2 & H3). unfold RateLimited, gatesSpaced in *.
    specialize (Hgap H1). unfold MIN_REQUEST_INTERVAL_MS in *.
    assert (Hcalls : gatedCalls (trace w2) = (g, c) :: gatedCalls (trace w))
      by (destruct Ht as [->|[ms ->]]; reflexivity).
    rewrite Hcalls, Hl.
    split; [lia|]. split.
    - constructor; [|exact H2].
      eapply Forall_impl; [|exact H3]. cbn. intros p Hp. lia.
    - constructor; [cbn; lia|].
      eapply Forall_impl; [|exact H3]. cbn. intros p Hp. lia. }
  assert (Hrun : (waitForRateLimit ;; prepareCall ;; text <- generateContent ;; k text) w
                 = match replyOutcome (replies w) with
                   | Ok text => k text w2
                   | Throw e => (Throw e, w2)
                   end).
  { unfold bind in *. pose proof (waitForRateLimit_returns w) as Hw.
    destruct (waitForRateLimit w) as [[[]|?] w1]; [|discriminate Hw].
    pose proof (proj1 (prepareCall_spec w1)) as Hp.
    destruct (prepareCall w1) as [[[]|?] wp]; [|discriminate Hp].
    rewrite E. now destruct (replyOutcome (replies w)). }
  rewrite Hrun. destruct (replyOutcome (replies w)) as [text|e]; [|exact Hkeep].
  eapply KeepsRate_trans; [exact Hkeep | apply Hk].
Qed.

Ltac keeps :=
  repeat first
    [ solve [auto 2]
    | solve [apply Steps_Later_KeepsRate; auto 2]
    | apply Steps_ret; exact KeepsRate_refl
    | apply Steps_bind; [exact KeepsRate_trans | | intro]
    | apply Steps_tryCatch; [exact KeepsRate_trans | | intro]
    | split_scrutinee
    | solve [apply Steps_Later_KeepsRate; later] ].

Lemma generateAttempts_keeps_rate (n : nat) (k : Z) :
  Steps KeepsRate (generateAttempts n k).
Proof.
  revert k. induction n as [|n IH]; intros k.
  - apply Steps_ret. exact KeepsRate_refl.
  - rewrite generateAttempts_S.
    pose proof sleep_later.
    apply Steps_tryCatch; [exact KeepsRate_trans | | intro].
    + apply gated_call_keeps_rate. intros text. apply Steps_ret. exact KeepsRate_refl.
    + unfold emit. keeps.
Qed.

Section Spacing.

Variable host : Host.
Variable config : Config.

Lemma generateActivityInsights_keeps_rate (a : GarminActivity)
      (all : option (list GarminActivity)) :
  Steps KeepsRate (generateActivityInsights host config a all).
Proof.
  pose proof generateAttempts_keeps_rate.
  unfold generateActivityInsights, emit. keeps.
Qed.

Lemma processActivityWithInsights_keeps_rate (a : GarminActivity)
      (c : option GarminClientType) (all : option (list GarminActivity)) (force : bool) :
  Steps KeepsRate (processActivityWithInsights host config a c all force).
Proof.
  pose proof generateActivityInsights_keeps_rate.
  pose proof initAIInsightsTable_later. pose proof hasAIInsight_later.
  pose proof saveAIInsight_later. pose proof addActivityComment_later.
  unfold processActivityWithInsights. keeps.
Qed.

Lemma processEach_keeps_rate (all : list GarminActivity) (c : option GarminClientType)
      (todo : list GarminActivity) (n : Z) :
  Steps KeepsRate (processEach host config all c todo n).
Proof.
  pose proof processActivityWithInsights_keeps_rate.
  pose proof hasAIInsight_later. pose proof sleep_later.
  revert n. induction todo as [|a todo IH]; intros n; cbn [processEach]; keeps.
Qed.

Lemma processActivitiesWithInsights_keeps_rate (acts : list GarminActivity)
      (c : option GarminClientType) :
  Steps KeepsRate (processActivitiesWithInsights host config acts c).
Proof.
  pose proof processEach_keeps_rate. pose proof initAIInsightsTable_later.
  unfold processActivitiesWithInsights. keeps.
Qed.

Lemma syncEach_later (c : GarminClientType) (todo : list AIInsightRecord) (n : SyncCounts) :
  Steps Later (syncEach host c todo n).
Proof.
  pose proof hasActivityInsight_later. pose proof addActivityComment_later.
  pose proof sleep_later.
  revert n. induction todo as [|r todo IH]; intros n; cbn [syncEach]; later.
Qed.

Lemma syncMissingInsightsToGarmin_later (c : GarminClientType) :
  Steps Later (syncMissingInsightsToGarmin host c).
Proof.
  pose proof syncEach_later. pose proof initAIInsightsTable_later.
  pose proof getAllAIInsights_later.
  unfold syncMissingInsightsToGarmin. later.
Qed.

End Spacing.

(** In a world the gate has kept, every call was issued at least the
    minimum interval after every earlier call went through the gate. *)
Lemma RateLimited_calls (w : World) :
  RateLimited w ->
  ForallOrdPairs (fun later earlier =>
                    (fst earlier + MIN_REQUEST_INTERVAL_MS <= snd later)%Z)
                 (gatedCalls (trace w)).
Proof.
  intros (_ & H2 & H3). unfold gatesSpaced in H2.
  induction H2 as [|p l Hp Hl IH]; [constructor|].
  inversion H3 as [|? ? [Hps _] Hrest]; subst.
  constructor; [|now apply IH].
  eapply Forall_impl; [|exact Hp]. cbn. intros q Hq. lia.
Qed.

(** C9, as the code has it.  On a clock that does not run backwards and
    with timers that do not fire early, every entry point of the engine
    keeps the passes through the gate at least [MIN_REQUEST_INTERVAL_MS]
    apart, any two of them, and issues each model call no earlier than
    it went through the gate; so a call is issued at least that interval
    after every earlier call went through the gate.  [waitForRateLimit]
    returns no earlier than the interval after the last request time it
    found, which it then sets to the time it returns. *)
Theorem model_calls_spaced (host : Host) (config : Config) (w : World) :
  RateLimited w ->
  (forall a all, RateLimited (snd (generateActivityInsights host config a all w)))
  /\ (forall a c all force,
         RateLimited (snd (processActivityWithInsights host config a c all force w)))
  /\ (forall acts c,
         RateLimited (snd (processActivitiesWithInsights host config acts c w)))
  /\ (forall c, RateLimited (snd (syncMissingInsightsToGarmin host c w)))
  /\ (lastRequestTime w + MIN_REQUEST_INTERVAL_MS <= clock (snd (waitForRateLimit w)))%Z
  /\ lastRequestTime (snd (waitForRateLimit w)) = clock (snd (waitForRateLimit w))
  /\ ForallOrdPairs (fun later earlier =>
                       (fst earlier + MIN_REQUEST_INTERVAL_MS <= snd later)%Z)
                    (gatedCalls (trace w)).
Proof.
  intros H. split; [|split; [|split; [|split; [|split; [|split]]]]]; intros.
  - now apply generateActivityInsights_keeps_rate.
  - now apply processActivityWithInsights_keeps_rate.
  - now apply processActivitiesWithInsights_keeps_rate.
  - now apply (Steps_Later_KeepsRate (@syncMissingInsightsToGarmin_later host c)).
  - apply waitForRateLimit_spec. apply H.
  - apply waitForRateLimit_spec.
  - now apply RateLimited_calls.
Qed.

Lemma model_calls_spaced_witness :
  let once := generateActivityInsights sampleHost onConfig run_today None in
  let w1 := snd (once slowStartWorld) in
  let w2 := snd (once w1) in
  RateLimited slowStartWorld
  /\ RateLimited w2
  /\ gatedCalls (trace w2) = [((NOON + 1000)%Z, (NOON + 1000)%Z); (NOON, (NOON + 5)%Z)].
Proof.
  intros once w1 w2.
  assert (H : RateLimited slowStartWorld).
  { unfold RateLimited, gatesSpaced. cbn. split; [discriminate|].
    split; constructor. }
  assert (H1 : RateLimited w1)
    by apply (proj1 (@model_calls_spaced sampleHost onConfig slowStartWorld H)).
  split; [exact H|]. split.
  - apply (proj1 (@model_calls_spaced sampleHost onConfig w1 H1)).
  - vm_compute. reflexivity.
Defined.

(** C9 as stated fails: the gate stamps the time, and the request is
    issued after the client and the prompt are ready.  When that took
    5 ms for the first call and no time for the second, the two calls
    are 995 ms apart. *)
Lemma calls_closer_than_interval :
  let once := generateActivityInsights sampleHost onConfig run_today None in
  let w2 := snd (once (snd (once slowStartWorld))) in
  callTimes (trace w2) = [(NOON + 1000)%Z; (NOON + 5)%Z]
  /\ gateTimes (trace w2) = [(NOON + 1000)%Z; NOON]
  /\ ((NOON + 1000) - (NOON + 5) < MIN_REQUEST_INTERVAL_MS)%Z.
Proof. repeat split; vm_compute; reflexivity. Qed.

(** Two calls one right after the other, on a clock that only the waits
    move: the second is issued a full interval after the first. *)
Example back_to_back_calls :
  let once := generateActivityInsights sampleHost onConfig run_today None in
  callTimes (trace (snd (once (snd (once twoAnswersWorld)))))
  = [(NOON + MIN_REQUEST_INTERVAL_MS)%Z; NOON].
Proof. vm_compute. reflexivity. Qed.

(** ** Replacing the insight block *)

Lemma startsWith_cons (a : ascii) (p : string) (c : ascii) (s : string) :
  startsWith (String a p) (String c s) = (Ascii.eqb a c && startsWith p s)%bool.
Proof. unfold startsWith. simpl. now destruct (Ascii.eqb a c). Qed.

Lemma startsWith_empty (s : string) : startsWith EmptyString s = true.
Proof. unfold startsWith. now destruct s. Qed.

Lemma startsWith_nil (a : ascii) (p : string) : startsWith (String a p) EmptyString = false.
Proof. reflexivity. Qed.

Lemma stripPrefix_length (p s r : string) :
  stripPrefix p s = Some r ->
  String.length s = (String.length p + String.length r)%nat.
Proof.
  revert s. induction p as [|a p IH]; intros s; simpl.
  - intros H. now injection H as ->.
  - destruct s as [|c s]; [discriminate|].
    destruct (Ascii.eqb a c); [|discriminate].
    intros H. simpl. now rewrite (IH _ H).
Qed.

Lemma skipInsightBody_head (r : string) :
  skipInsightBody r = EmptyString \/ startsWith SEPARATOR (skipInsightBody r) = true.
Proof.
  induction r as [|c r IH]; [now left|].
  cbn [skipInsightBody].
  destruct (startsWith SEPARATOR (String c r)) eqn:E; [now right | exact IH].
Qed.

Lemma skipInsightBody_length (r : string) :
  (String.length (skipInsightBody r) <= String.length r)%nat.
Proof.
  induction r as [|c r IH]; [reflexivity|].
  cbn [skipInsightBody].
  destruct (startsWith SEPARATOR (String c r)); simpl; lia.
Qed.

Lemma matchInsightAt_some (s rest : string) :
  matchInsightAt s = Some rest ->
  (rest = EmptyString \/ startsWith SEPARATOR rest = true)
  /\ (String.length rest < String.length s)%nat.
Proof.
  unfold matchInsightAt.
  destruct (stripPrefix (SEPARATOR ++ INSIGHT_MARKER) s) as [r|] eqn:E1.
  - intros H. injection H as <-. split; [apply skipInsightBody_head|].
    apply stripPrefix_length in E1. pose proof (skipInsightBody_length r).
    cbn in E1. lia.
  - destruct (stripPrefix INSIGHT_MARKER s) as [r|] eqn:E2; [|discriminate].
    intros H. injection H as <-. split; [apply skipInsightBody_head|].
    apply stripPrefix_length in E2. pose proof (skipInsightBody_length r).
    cbn in E2. lia.
Qed.

Lemma matchInsightAt_none (s : string) :
  matchInsightAt s = None -> startsWith INSIGHT_MARKER s = false.
Proof.
  unfold matchInsightAt, startsWith.
  destruct (stripPrefix (SEPARATOR ++ INSIGHT_MARKER) s); [discriminate|].
  now destruct (stripPrefix INSIGHT_MARKER s).
Qed.

Lemma removeInsights_S (fuel : nat) (s : string) :
  removeInsights (S fuel) s
  = match matchInsightAt s with
    | Some rest => removeInsights fuel rest
    | None =>
        match s with
        | EmptyString => EmptyString
        | String c s' => String c (removeInsights fuel s')
        end
    end.
Proof. reflexivity. Qed.

(** A text without line feed that starts what is left started the
    original: removing a block joins nothing into a new word. *)
Lemma removeInsights_prefix (fuel : nat) :
  forall s p a,
    (String.length s <= fuel)%nat -> noLF (String a p) = true ->
    startsWith (String a p) (removeInsights fuel s) = true ->
    startsWith (String a p) s = true.
Proof.
  induction fuel as [|fuel IH]; intros s p a Hlen Hp.
  - destruct s; [|simpl in Hlen; lia]. now cbn.
  - rewrite removeInsights_S.
    destruct (matchInsightAt s) as [rest|] eqn:E.
    + intros H. apply matchInsightAt_some in E. destruct E as [Hhead Hl].
      apply IH in H; [|lia|exact Hp].
      exfalso. destruct Hhead as [->|Hsep]; [discriminate|].
      destruct rest as [|c rest]; [discriminate|].
      rewrite startsWith_cons in H. apply andb_true_iff in H. destruct H as [Hac _].
      unfold SEPARATOR in Hsep. rewrite startsWith_cons in Hsep.
      apply andb_true_iff in Hsep. destruct Hsep as [Hlf _].
      apply Ascii.eqb_eq in Hac, Hlf. subst.
      cbn [noLF] in Hp. now rewrite Ascii.eqb_refl in Hp.
    + destruct s as [|c s]; [now cbn|].
      rewrite !startsWith_cons. intros H. apply andb_true_iff in H.
      destruct H as [Hac H]. rewrite Hac. cbn [andb].
      destruct p as [|b p]; [apply startsWith_empty|].
      apply IH; [simpl in Hlen; lia | | exact H].
      cbn [noLF] in Hp. apply andb_true_iff in Hp. tauto.
Qed.

Lemma removeInsights_no_marker (fuel : nat) :
  forall s, (String.length s <= fuel)%nat ->
            includes INSIGHT_MARKER (removeInsights fuel s) = false.
Proof.
  induction fuel as [|fuel IH]; intros s Hlen.
  - destruct s; [reflexivity | simpl in Hlen; lia].
  - pose proof (@removeInsights_prefix (S fuel) s) as Hpre.
    rewrite removeInsights_S in *.
    destruct (matchInsightAt s) as [rest|] eqn:E.
    + apply IH. apply matchInsightAt_some in E. lia.
    + destruct s as [|c s]; [reflexivity|].
      cbn [includes]. rewrite (IH s) by (simpl in Hlen; lia).
      rewrite orb_false_r.
      destruct (startsWith INSIGHT_MARKER (String c (removeInsights fuel s))) eqn:Hs;
        [|reflexivity].
      apply matchInsightAt_none in E.
      unfold INSIGHT_MARKER, ROBOT in Hs, E. cbn [append] in Hs, E.
      apply Hpre in Hs; [congruence | exact Hlen | reflexivity].
Qed.

(** Fuel beyond the length of the text changes nothing. *)
Lemma removeInsights_fuel (fuel : nat) :
  forall s extra, (String.length s <= fuel)%nat ->
                  removeInsights (fuel + extra) s = removeInsights fuel s.
Proof.
  induction fuel as [|fuel IH]; intros s extra Hlen.
  - destruct s; [|simpl in Hlen; lia]. now destruct extra.
  - cbn [Nat.add]. rewrite !removeInsights_S.
    destruct (matchInsightAt s) as [rest|] eqn:E.
    + apply IH. apply matchInsightAt_some in E. lia.
    + destruct s as [|c s]; [reflexivity|].
      f_equal. apply IH. simpl in Hlen. lia.
Qed.

Lemma replaceInsightPattern_no_marker (s : string) :
  includes INSIGHT_MARKER (replaceInsightPattern s) = false.
Proof. apply removeInsights_no_marker. reflexivity. Qed.

Lemma startsWith_app (p a b : string) :
  startsWith p a = true -> startsWith p (a ++ b) = true.
Proof.
  revert a. induction p as [|x p IH]; intros a; [intros _; apply startsWith_empty|].
  destruct a as [|c a]; [discriminate|].
  cbn [append]. rewrite !startsWith_cons. intros H.
  apply andb_true_iff in H. destruct H as [-> H]. now rewrite IH.
Qed.

Lemma includes_app_l (p a b : string) :
  includes p a = true -> includes p (a ++ b) = true.
Proof.
  induction a as [|c a IH]; cbn [includes append].
  - intros H. destruct p; [|discriminate].
    destruct b; cbn [includes]; now rewrite ?startsWith_empty.
  - intros H. apply orb_true_iff in H. apply orb_true_iff.
    destruct H as [H|H]; [left | right; auto].
    now apply (startsWith_app _ (String c a) b).
Qed.

Lemma includes_cons (p : string) (c : ascii) (s : string) :
  includes p s = true -> includes p (String c s) = true.
Proof. intros H. cbn [includes]. rewrite H. apply orb_true_r. Qed.

Lemma includes_after (p a b : string) :
  includes p b = true -> includes p (a ++ b) = true.
Proof.
  induction a as [|c a IH]; cbn [append]; [trivial|].
  intros H. apply includes_cons. auto.
Qed.

Lemma trimStart_suffix (p s : string) :
  includes p (trimStart s) = true -> includes p s = true.
Proof.
  induction s as [s E|s r E IH] using trimStart_ind; rewrite trimStart_eq, E; [trivial|].
  intros H. destruct (stripSpace_suffix s E) as (pre & -> & _).
  apply includes_after. auto.
Qed.

Lemma trimEnd_prefix (s : string) : exists t, s = trimEnd s ++ t.
Proof.
  induction s as [|c s [t IH]]; [now exists EmptyString|].
  cbn [trimEnd]. destruct (isBlank (String c s)).
  - now exists (String c s).
  - exists t. cbn [append]. congruence.
Qed.

Lemma includes_trim (p s : string) :
  includes p s = false -> includes p (trim s) = false.
Proof.
  intros H. destruct (includes p (trim s)) eqn:E; [|reflexivity].
  unfold trim in E. destruct (trimEnd_prefix (trimStart s)) as [t Ht].
  apply (includes_app_l _ _ t) in E. rewrite <- Ht in E.
  apply trimStart_suffix in E. congruence.
Qed.

Lemma startsWith_app_LF (a : ascii) (p s t : string) :
  noLF (String a p) = true ->
  startsWith (String a p) (s ++ String LF t) = startsWith (String a p) s.
Proof.
  revert a s. induction p as [|b p IH]; intros a s Hp.
  - destruct s as [|c s]; cbn [append]; rewrite ?startsWith_cons, ?startsWith_empty.
    + cbn [noLF] in Hp. rewrite andb_true_r in Hp. apply negb_true_iff in Hp.
      now rewrite Hp.
    + reflexivity.
  - destruct s as [|c s]; cbn [append].
    + rewrite startsWith_cons. cbn [noLF] in Hp.
      apply andb_true_iff in Hp. destruct Hp as [Hp _].
      apply negb_true_iff in Hp. now rewrite Hp.
    + rewrite !startsWith_cons. rewrite IH; [reflexivity|].
      cbn [noLF] in Hp. apply andb_true_iff in Hp. tauto.
Qed.

Lemma occurrences_cons (p : string) (c : ascii) (s : string) :
  occurrences p (String c s)
  = ((if startsWith p (String c s) then 1 else 0) + occurrences p s)%nat.
Proof. reflexivity. Qed.

Lemma occurrences_app_LF (a : ascii) (p s t : string) :
  noLF (String a p) = true ->
  occurrences (String a p) (s ++ String LF t)
  = (occurrences (String a p) s + occurrences (String a p) (String LF t))%nat.
Proof.
  intros Hp. induction s as [|c s IH]; [reflexivity|].
  cbn [append].
  rewrite (occurrences_cons (String a p) c (s ++ String LF t)).
  rewrite (occurrences_cons (String a p) c s).
  change (String c (s ++ String LF t)) with (String c s ++ String LF t).
  rewrite (startsWith_app_LF a p (String c s) t Hp). rewrite IH.
  apply Nat.add_assoc.
Qed.

Lemma occurrences_none (a : ascii) (p s : string) :
  includes (String a p) s = false -> occurrences (String a p) s = 0%nat.
Proof.
  induction s as [|c s IH]; [reflexivity|].
  cbn [includes occurrences]. intros H. apply orb_false_iff in H.
  destruct H as [-> H]. now rewrite IH.
Qed.

Lemma occurrences_after_separator (comment : string) :
  occurrences INSIGHT_MARKER (SEPARATOR ++ comment) = occurrences INSIGHT_MARKER comment.
Proof. reflexivity. Qed.

(** The text a forced call writes holds the robot marker as often as the
    comment does: every block that started with it is gone. *)
Lemma replaced_marker_count (description comment : string) :
  occurrences INSIGHT_MARKER (replaced description comment)
  = occurrences INSIGHT_MARKER comment.
Proof.
  unfold replaced, appended.
  pose proof (includes_trim _ _ (replaceInsightPattern_no_marker description)) as H.
  destruct (trim (replaceInsightPattern description)) as [|c kept] eqn:E.
  - reflexivity.
  - cbn [truthy]. unfold SEPARATOR at 1. cbn [append].
    unfold INSIGHT_MARKER, ROBOT in *. cbn [append] in *.
    match goal with |- context [String c (kept ++ String LF ?t)] =>
      change (String c (kept ++ String LF t)) with (String c kept ++ String LF t) end.
    rewrite occurrences_app_LF by reflexivity.
    rewrite occurrences_none by exact H. reflexivity.
Qed.

(** With force, once the activity has been fetched and its description
    holds a marker, the call posts the description with every block that
    starts with the robot marker removed, followed by the comment; the
    text posted holds that marker as often as the comment does. *)
Lemma addActivityComment_with_force
      (id comment : string) (c : GarminClientType) (w : World)
      (activity : RemoteActivity) :
  nextRemoteFails w = false ->
  lookupActivity id (activities w) = Some activity ->
  let description := descriptionOrEmpty (ra_description activity) in
  let run := addActivityComment id comment c true w in
  hasExistingInsight description = true ->
  history remoteWrites (snd run)
  = EvPostDescription id (replaced description comment) :: history remoteWrites w
  /\ occurrences INSIGHT_MARKER (replaced description comment)
     = occurrences INSIGHT_MARKER comment
  /\ (hd Answered (tl (remoteFaults w)) = Answered ->
      fst run = Ok true
      /\ lookupActivity id (activities (snd run))
         = Some (mkRemote (ra_activityName activity)
                          (Some (replaced description comment)))).
Proof.
  intros Hf Hl description run He. subst run.
  unfold addActivityComment, tryCatch, bind.
  destruct (client_getActivity_spec c id w) as (Ht & Ha & Hr & Hres).
  rewrite Hf, Hl in Hres.
  destruct (client_getActivity c id w) as [r w1]. cbn [fst snd] in *. subst r.
  fold description. rewrite He. cbn [andb negb].
  fold (appended (trim (replaceInsightPattern description)) comment).
  fold (replaced description comment).
  destruct (@client_post_spec c id (ra_activityName activity)
              (replaced description comment) w1) as (Ht2 & Hr2 & Hres2).
  destruct (client_post c id (ra_activityName activity)
              (replaced description comment) w1) as [r2 w2].
  cbn [fst snd] in *.
  split; [|split].
  - destruct r2; cbn; unfold history; rewrite Ht2, Ht; reflexivity.
  - apply replaced_marker_count.
  - intros Hf2. rewrite Hr, Hf2 in Hres2.
    destruct Hres2 as [-> Ha2]. cbn.
    rewrite Ha2, Ha. split; [reflexivity|].
    eapply lookup_storeActivity, Hl.
Qed.

(** C6 at a description whose insight block has lost the robot face:
    the call finds the block by its label, removes nothing, and leaves
    two blocks, the old one and the new one. *)
Theorem forced_replace_keeps_plain_block :
  let run := addActivityComment "100" newComment GarminClient true plainBlockWorld in
  hasExistingInsight plainBlock = true
  /\ fst run = Ok true
  /\ lookupActivity "100" (activities (snd run))
     = Some (mkRemote "Morning Run" (Some (plainBlock ++ SEPARATOR ++ newComment)))
  /\ occurrences PLAIN_MARKER (plainBlock ++ SEPARATOR ++ newComment) = 2%nat.
Proof. repeat split; vm_compute; reflexivity. Qed.

(** The same call on a block that starts with the robot face leaves
    one. *)
Example forced_replace_of_robot_block :
  let run := addActivityComment "100" newComment GarminClient true robotBlockWorld in
  lookupActivity "100" (activities (snd run))
  = Some (mkRemote "Morning Run" (Some ("Felt strong." ++ SEPARATOR ++ newComment)))
  /\ occurrences PLAIN_MARKER ("Felt strong." ++ SEPARATOR ++ newComment) = 1%nat.
Proof. repeat split; vm_compute; reflexivity. Qed.


(* ================================================================= *)
(** * Further properties of the code *)

(** ** The insight table *)

Lemma dbStep_inv (w w' : World) :
  dbStep w = (Ok tt, w') ->
  table w' = table w /\ trace w' = trace w /\ activities w' = activities w
  /\ remoteFaults w' = remoteFaults w /\ replies w' = replies w
  /\ dbFaults w' = tl (dbFaults w).
Proof.
  unfold dbStep, elapse, bind, gets, modify, ret, throw, emit.
  destruct (ticks w); cbn; destruct (dbFaults w) as [|[|] fs] eqn:E; cbn;
    intros H; try discriminate; injection H as <-; cbn; rewrite ?E; auto 10.
Qed.

Lemma find_filter_other {A} (p q : A -> bool) (l : list A) :
  (forall x, p x = true -> q x = true) ->
  find p (filter q l) = find p l.
Proof.
  intros Hpq. induction l as [|x l IH]; simpl; [reflexivity|].
  destruct (q x) eqn:Hq; simpl.
  - now rewrite IH.
  - destruct (p x) eqn:Hp; [|exact IH].
    apply Hpq in Hp. congruence.
Qed.

Lemma filter_filter_other {A} (p q : A -> bool) (l : list A) :
  (forall x, p x = true -> q x = true) ->
  filter p (filter q l) = filter p l.
Proof. apply filter_filter_sub. Qed.

Lemma filter_none {A} (p q : A -> bool) (l : list A) :
  (forall x, p x = true -> q x = false) ->
  filter p (filter q l) = [].
Proof.
  intros Hpq. induction l as [|x l IH]; simpl; [reflexivity|].
  destruct (q x) eqn:Hq; simpl; [|exact IH].
  destruct (p x) eqn:Hp; [|exact IH].
  apply Hpq in Hp. congruence.
Qed.

(** What a [saveAIInsight] that returns has done to the table. *)
Lemma saveAIInsight_inv (data : AIInsightData) (w w' : World) :
  saveAIInsight data w = (Ok tt, w') ->
  exists t now,
    table w = Some t
    /\ hasColumns INSERT_COLUMNS t = true
    /\ table w'
       = Some (mkTable (columns t)
                 (mkRow (sequence t + 1) (d_activityId data) (d_activityName data)
                        (d_insight data) (d_model data) (bindReal (d_confidence data)) now
                  :: filter (fun r => negb (String.eqb (r_activityId r) (d_activityId data)))
                            (rows t))
                 (sequence t + 1)).
Proof.
  intros E. unfold saveAIInsight, getDB, bind in E.
  destruct (dbStep w) as [[[]|e] w1] eqn:E1; [|discriminate].
  destruct (dbStep w1) as [[[]|e] w2] eqn:E2; [|discriminate].
  apply dbStep_inv in E1, E2. destruct E1 as (T1 & _), E2 as (T2 & _).
  cbv beta iota delta [gets Date_now] in E.
  destruct (table w2) as [t|] eqn:Ht; [|discriminate].
  destruct (hasColumns INSERT_COLUMNS t) eqn:Hc; [|discriminate].
  cbn in E. injection E as <-.
  exists t, (clock w2). split; [congruence|]. split; [exact Hc | reflexivity].
Qed.

(** What a [getAIInsight] that returns has read. *)
Lemma getAIInsight_inv (id : string) (w : World) (r : option string) (w' : World) :
  getAIInsight id w = (Ok r, w') ->
  r = storedInsightOf id w /\ table w' = table w.
Proof.
  intros E. unfold getAIInsight, getDB, bind in E.
  destruct (dbStep w) as [[[]|e] w1] eqn:E1; [|discriminate].
  destruct (dbStep w1) as [[[]|e] w2] eqn:E2; [|discriminate].
  apply dbStep_inv in E1, E2. destruct E1 as (T1 & _), E2 as (T2 & _).
  cbv beta iota delta [gets] in E. unfold storedInsightOf.
  rewrite <- T1, <- T2.
  destruct (table w2) as [t|] eqn:Ht; [|discriminate].
  match type of E with context [if ?c then _ else _] => destruct c end;
    [|discriminate].
  unfold ret in E. injection E as <- <-. split; [reflexivity | congruence].
Qed.

Lemma storedInsightOf_storeHas (id : string) (w : World) :
  storeHas id w = match storedInsightOf id w with Some _ => true | None => false end.
Proof.
  unfold storeHas, storedInsightOf. destruct (table w) as [t|]; [|reflexivity].
  induction (rows t) as [|r l IH]; simpl; [reflexivity|].
  destruct (String.eqb (r_activityId r) id); [reflexivity | exact IH].
Qed.

Lemma hasAIInsight_inv (id : string) (w : World) (b : bool) (w' : World) :
  hasAIInsight id w = (Ok b, w') -> b = storeHas id w /\ table w' = table w.
Proof.
  intros E. unfold hasAIInsight, bind in E.
  destruct (getAIInsight id w) as [[r|e] w1] eqn:E1; [|discriminate].
  apply getAIInsight_inv in E1. destruct E1 as [-> T1].
  unfold ret in E. injection E as <- <-.
  split; [now rewrite storedInsightOf_storeHas | exact T1].
Qed.

(** X1.  Insert and look up: a read that follows a save gives the
    insight just saved for the identifier saved under, and for any other
    identifier what the table held before the save. *)
Theorem saveAIInsight_then_getAIInsight
        (data : AIInsightData) (id : string) (w : World)
        (r : option string) (w' : World) :
  (saveAIInsight data ;; getAIInsight id) w = (Ok r, w') ->
  r = if String.eqb id (d_activityId data)
      then Some (d_insight data)
      else storedInsightOf id w.
Proof.
  unfold bind at 1. intros E.
  destruct (saveAIInsight data w) as [[[]|e] w1] eqn:E1; [|discriminate].
  apply saveAIInsight_inv in E1. destruct E1 as (t & now & Ht & _ & Ht1).
  apply getAIInsight_inv in E. destruct E as [-> _].
  unfold storedInsightOf. rewrite Ht1, Ht. cbn [rows find r_activityId].
  rewrite (String.eqb_sym id).
  destruct (String.eqb (d_activityId data) id) eqn:Hid; [reflexivity|].
  f_equal. apply find_filter_other.
  intros x Hx. apply String.eqb_eq in Hx. subst id.
  now rewrite String.eqb_sym, Hid.
Qed.

Lemma saveAIInsight_then_getAIInsight_witness :
  let run := (saveAIInsight revisedInsight ;; getAIInsight "100") storedWorld in
  run = (Ok (Some "Strong finish."), snd run)
  /\ storedInsightOf "100" storedWorld = Some "Steady aerobic effort."
  /\ Some "Strong finish."
     = (if String.eqb "100" (d_activityId revisedInsight)
        then Some (d_insight revisedInsight)
        else storedInsightOf "100" storedWorld).
Proof.
  intros run.
  assert (E : run = (Ok (Some "Strong finish."), snd run)) by (vm_compute; reflexivity).
  split; [exact E | split; [reflexivity|]].
  exact (@saveAIInsight_then_getAIInsight revisedInsight "100" storedWorld _ _ E).
Defined.

(** X2.  [INSERT OR REPLACE]: after a save exactly one row carries the
    identifier saved under; it holds the name, the insight and the
    model saved, and the confidence saved when that is a number, while
    a confidence that is [NaN] is stored as NULL; the rows of every
    other identifier are the rows there were. *)
Theorem saveAIInsight_replaces (data : AIInsightData) (w w' : World) :
  saveAIInsight data w = (Ok tt, w') ->
  (exists row,
      rowsOf (d_activityId data) w' = [row]
      /\ r_activityName row = d_activityName data
      /\ r_insight row = d_insight data
      /\ r_model row = d_model data
      /\ r_confidenceColumn row = match d_confidence data with
                                  | Num q => Some q
                                  | NaN => None
                                  end)
  /\ (forall id, id <> d_activityId data -> rowsOf id w' = rowsOf id w).
Proof.
  intros E. apply saveAIInsight_inv in E. destruct E as (t & now & Ht & _ & Ht').
  unfold rowsOf. rewrite Ht', Ht. cbn [rows filter r_activityId]. split.
  - rewrite String.eqb_refl.
    rewrite filter_none by (intros x Hx; now rewrite Hx).
    eexists. split; [reflexivity|]. cbn. auto.
  - intros id Hid. apply String.eqb_neq in Hid.
    rewrite String.eqb_sym, Hid. apply filter_filter_sub.
    intros x Hx. apply String.eqb_eq in Hx. subst id.
    now rewrite Hid.
Qed.

Lemma saveAIInsight_replaces_witness :
  let w' := snd (saveAIInsight revisedInsight storedWorld) in
  rowsOf "100" storedWorld = [storedInsight]
  /\ (exists row,
         rowsOf "100" w' = [row]
         /\ r_activityName row = "Morning Run"
         /\ r_insight row = "Strong finish."
         /\ r_model row = GEMINI_MODEL
         /\ r_confidenceColumn row = Some 0.9).
Proof.
  intros w'. split; [reflexivity|].
  apply (@saveAIInsight_replaces revisedInsight storedWorld w').
  vm_compute. reflexivity.
Defined.

(** A confidence that is no number, as [parseConfidence] gives it for a
    tag without digits, is stored as NULL, and the sweep that reads it
    back posts it as 0 per cent. *)
Example nan_confidence_stored_as_null :
  let data := mkData "100" "Morning Run" "Steady run." GEMINI_MODEL
                     (pc_confidence (parseConfidence "Steady run. [CONFIDENCE: .]")) in
  let saved := snd (saveAIInsight data storedWorld) in
  d_confidence data = NaN
  /\ map r_confidenceColumn (rowsOf "100" saved) = [None]
  /\ history remoteWrites (snd (syncMissingInsightsToGarmin sampleHost GarminClient saved))
     = [EvPostDescription "100"
          (ROBOT_AS_WRITTEN ++ " AI Insights (gemini-2.5-flash-lite, 0% confidence):"
                            ++ String LF "Steady run.")].
Proof. repeat split; vm_compute; reflexivity. Qed.

(** *** Order of the rows read *)

Section SortDescFacts.

Variable A : Type.
Variable key : A -> Z.

Lemma insertDesc_perm (x : A) (l : list A) : Permutation (insertDesc key x l) (x :: l).
Proof.
  induction l as [|y l IH]; simpl; [reflexivity|].
  destruct (key x <? key y)%Z; [|reflexivity].
  rewrite IH. apply perm_swap.
Qed.

Lemma sortDesc_perm (l : list A) : Permutation (sortDesc key l) l.
Proof.
  induction l as [|x l IH]; simpl; [reflexivity|].
  rewrite insertDesc_perm. now constructor.
Qed.

Lemma insertDesc_sorted (x : A) (l : list A) :
  StronglySorted (fun a b => (key b <= key a)%Z) l ->
  StronglySorted (fun a b => (key b <= key a)%Z) (insertDesc key x l).
Proof.
  induction l as [|y l IH]; simpl; intros Hs.
  - repeat constructor.
  - apply StronglySorted_inv in Hs. destruct Hs as [Hl Hy].
    destruct (key x <? key y)%Z eqn:E.
    + apply Z.ltb_lt in E. constructor; [now apply IH|].
      rewrite Forall_forall in *. intros z Hz.
      apply (Permutation_in _ (insertDesc_perm x l)) in Hz.
      destruct Hz as [<-|Hz]; [lia | now apply Hy].
    + apply Z.ltb_ge in E. constructor; [now constructor|].
      constructor; [exact E|].
      rewrite Forall_forall in *. intros z Hz. specialize (Hy z Hz). lia.
Qed.

Lemma sortDesc_sorted (l : list A) :
  StronglySorted (fun a b => (key b <= key a)%Z) (sortDesc key l).
Proof.
  induction l as [|x l IH]; simpl; [constructor | now apply insertDesc_sorted].
Qed.

End SortDescFacts.

(** X3.  [ORDER BY id DESC]: what [getAllAIInsights] returns is the rows
    of the table, each once, the row with the greatest [id] first. *)
Theorem getAllAIInsights_newest_first (w : World) (l : list AIInsightRecord) (w' : World) :
  getAllAIInsights w = (Ok l, w') ->
  exists t,
    table w = Some t
    /\ Permutation l (rows t)
    /\ StronglySorted (fun a b => (r_id b <= r_id a)%Z) l
    /\ table w' = table w.
Proof.
  intros E. unfold getAllAIInsights, getDB, bind in E.
  destruct (dbStep w) as [[[]|e] w1] eqn:E1; [|discriminate].
  destruct (dbStep w1) as [[[]|e] w2] eqn:E2; [|discriminate].
  apply dbStep_inv in E1, E2. destruct E1 as (T1 & _), E2 as (T2 & _).
  cbv beta iota delta [gets] in E.
  destruct (table w2) as [t|] eqn:Ht; [|discriminate].
  match type of E with context [if ?c then _ else _] => destruct c end;
    [|discriminate].
  unfold ret in E. injection E as <- <-.
  exists t. split; [congruence|].
  split; [apply sortDesc_perm | split; [apply sortDesc_sorted | congruence]].
Qed.

Lemma getAllAIInsights_newest_first_witness :
  fst (getAllAIInsights twoStoredWorld) = Ok [missingInsight; storedInsight]
  /\ exists t,
       table twoStoredWorld = Some t
       /\ Permutation [missingInsight; storedInsight] (rows t)
       /\ StronglySorted (fun a b => (r_id b <= r_id a)%Z) [missingInsight; storedInsight]
       /\ table (snd (getAllAIInsights twoStoredWorld)) = table twoStoredWorld.
Proof.
  split; [reflexivity|].
  apply (@getAllAIInsights_newest_first twoStoredWorld [missingInsight; storedInsight]
           (snd (getAllAIInsights twoStoredWorld))).
  vm_compute. reflexivity.
Defined.

(** *** Creating and migrating the table *)

Lemma columnExists_inv (c : string) (w : World) (b : bool) (w' : World) :
  columnExists c w = (Ok b, w') ->
  b = match table w with Some t => hasColumn c t | None => false end
  /\ table w' = table w.
Proof.
  intros E. unfold columnExists, bind in E.
  destruct (dbStep w) as [[[]|e] w1] eqn:E1; [|discriminate].
  apply dbStep_inv in E1. destruct E1 as (T1 & _).
  cbv beta iota delta [gets ret] in E. injection E as <- <-.
  now rewrite T1.
Qed.

Lemma alterTableAddColumn_inv (m : Migration) (w w' : World) :
  alterTableAddColumn m w = (Ok tt, w') ->
  exists t,
    table w = Some t
    /\ hasColumn (mg_column m) t = false
    /\ table w'
       = Some (mkTable (columns t ++ [mg_column m])
                       (map (fillDefault (mg_column m)) (rows t))
                       (sequence t)).
Proof.
  intros E. unfold alterTableAddColumn, bind in E.
  destruct (dbStep w) as [[[]|e] w1] eqn:E1; [|discriminate].
  apply dbStep_inv in E1. destruct E1 as (T1 & _).
  cbv beta iota delta [gets] in E.
  destruct (table w1) as [t|] eqn:Ht; [|discriminate].
  destruct (negb _); [discriminate|].
  destruct (hasColumn (mg_column m) t) eqn:Hc; [discriminate|].
  cbn in E. injection E as <-.
  exists t. split; [congruence|]. split; [exact Hc | reflexivity].
Qed.

Lemma fillDefault_keeps (c : string) (r : AIInsightRecord) :
  r_id (fillDefault c r) = r_id r
  /\ r_activityId (fillDefault c r) = r_activityId r
  /\ r_activityName (fillDefault c r) = r_activityName r
  /\ r_insight (fillDefault c r) = r_insight r.
Proof.
  unfold fillDefault.
  repeat match goal with |- context [if ?b then _ else _] => destruct b end;
    repeat split; reflexivity.
Qed.

Lemma Migrated_refl (t : Table) : Migrated t t.
Proof. unfold Migrated. auto 10. Qed.

Lemma Migrated_trans (a b c : Table) : Migrated a b -> Migrated b c -> Migrated a c.
Proof.
  unfold Migrated. intros (H1 & H2 & H3 & H4 & H5 & H6) (K1 & K2 & K3 & K4 & K5 & K6).
  repeat split; try congruence. auto.
Qed.

Lemma hasColumn_added (c d : string) (t : Table) (rs : list AIInsightRecord) (s : Z) :
  hasColumn c (mkTable (columns t ++ [d]) rs s)
  = (hasColumn c t || String.eqb c d)%bool.
Proof.
  unfold hasColumn. cbn [columns]. rewrite existsb_app. cbn [existsb].
  now rewrite orb_false_r.
Qed.

Lemma Migrated_added (t : Table) (c : string) :
  Migrated t (mkTable (columns t ++ [c]) (map (fillDefault c) (rows t)) (sequence t)).
Proof.
  unfold Migrated. cbn [rows sequence].
  rewrite !map_map.
  repeat split;
    try (apply map_ext; intros r; apply (fillDefault_keeps c r)).
  intros d Hd. rewrite hasColumn_added, Hd. reflexivity.
Qed.

Lemma runMigrations_inv (ms : list Migration) :
  forall w w' t,
    table w = Some t ->
    runMigrations ms w = (Ok tt, w') ->
    exists t', table w' = Some t'
               /\ Migrated t t'
               /\ (forall m, In m ms -> hasColumn (mg_column m) t' = true).
Proof.
  induction ms as [|m ms IH]; intros w w' t Ht E.
  - cbn in E. injection E as <-. exists t.
    split; [exact Ht | split; [apply Migrated_refl | intros m []]].
  - cbn [runMigrations] in E. unfold bind at 1 in E.
    destruct (columnExists (mg_column m) w) as [[b|e] w1] eqn:E1; [|discriminate].
    apply columnExists_inv in E1. destruct E1 as [Hb T1]. rewrite Ht in Hb, T1.
    unfold bind at 1 in E.
    destruct b; cbn [negb] in E.
    + cbn in E. destruct (IH _ _ _ T1 E) as (t' & Ht' & Hm & Hcols).
      exists t'. split; [exact Ht' | split; [exact Hm|]].
      intros x [<-|Hx]; [|now apply Hcols].
      apply (proj1 Hm). now symmetry.
    + destruct (alterTableAddColumn m w1) as [[[]|e] w2] eqn:E2; [|discriminate].
      apply alterTableAddColumn_inv in E2.
      destruct E2 as (t1 & Ht1 & Hc & Ht2). rewrite T1 in Ht1.
      injection Ht1 as <-.
      destruct (IH _ _ _ Ht2 E) as (t' & Ht' & Hm & Hcols).
      exists t'. split; [exact Ht'|]. split.
      * eapply Migrated_trans; [apply Migrated_added | exact Hm].
      * intros x [<-|Hx]; [|now apply Hcols].
        apply (proj1 Hm). rewrite hasColumn_added, String.eqb_refl.
        apply orb_true_r.
Qed.

Lemma createTable_inv (w w' : World) :
  createTable w = (Ok tt, w') ->
  table w = None /\ table w' = Some (mkTable FULL_SCHEMA [] 0).
Proof.
  intros E. unfold createTable, bind in E.
  destruct (dbStep w) as [[[]|e] w1] eqn:E1; [|discriminate].
  apply dbStep_inv in E1. destruct E1 as (T1 & _).
  cbv beta iota delta [gets] in E.
  destruct (table w1) as [t|] eqn:Ht; [discriminate|].
  cbn in E. injection E as <-. split; [congruence | reflexivity].
Qed.

(** From the start of [initAIInsightsTable] to its test of [tableExists]. *)
Lemma initAIInsightsTable_inv (w w' : World) :
  initAIInsightsTable w = (Ok tt, w') ->
  exists w2,
    table w2 = table w
    /\ match table w with
       | None => createTable w2 = (Ok tt, w')
       | Some _ => runMigrations migrations w2 = (Ok tt, w')
       end.
Proof.
  intros E. unfold initAIInsightsTable, getDB, bind in E.
  destruct (dbStep w) as [[[]|e] w1] eqn:E1; [|discriminate].
  destruct (dbStep w1) as [[[]|e] w2] eqn:E2; [|discriminate].
  apply dbStep_inv in E1, E2. destruct E1 as (T1 & _), E2 as (T2 & _).
  cbv beta iota delta [gets] in E.
  exists w2. split; [congruence|].
  rewrite <- T1, <- T2. now destruct (table w2).
Qed.

Lemma initAIInsightsTable_result (w w' : World) :
  initAIInsightsTable w = (Ok tt, w') ->
  exists t',
    table w' = Some t'
    /\ hasColumns ["model"; "confidence"; "created_at"] t' = true
    /\ match table w with
       | None => t' = mkTable FULL_SCHEMA [] 0
       | Some t => Migrated t t'
       end.
Proof.
  intros E. apply initAIInsightsTable_inv in E. destruct E as (w2 & T2 & E).
  destruct (table w) as [t|].
  - destruct (runMigrations_inv migrations _ T2 E) as (t' & Ht' & Hm & Hcols).
    exists t'. split; [exact Ht' | split; [|exact Hm]].
    assert (H1 : hasColumn "model" t' = true)
      by (apply (Hcols (mkMigration "model" "VARCHAR(50)" (Some "'unknown'")));
          cbn; auto).
    assert (H2 : hasColumn "confidence" t' = true)
      by (apply (Hcols (mkMigration "confidence" "REAL" (Some "0.7"))); cbn; auto).
    assert (H3 : hasColumn "created_at" t' = true)
      by (apply (Hcols (mkMigration "created_at" "DATETIME" (Some "datetime('now')")));
          cbn; auto).
    unfold hasColumns. cbn [forallb]. now rewrite H1, H2, H3.
  - apply createTable_inv in E. destruct E as [_ Ht'].
    exists (mkTable FULL_SCHEMA [] 0). split; [exact Ht' | split; reflexivity].
Qed.

(** X4.  When [initAIInsightsTable] returns, the table exists and has
    the columns [model], [confidence] and [created_at]; a table that was
    not there is new and empty, and one that was there has kept its
    columns, its rows with their keys, names and insights, and its
    sequence. *)
Theorem initAIInsightsTable_postcondition (w w' : World) :
  initAIInsightsTable w = (Ok tt, w') ->
  exists t',
    table w' = Some t'
    /\ hasColumns ["model"; "confidence"; "created_at"] t' = true
    /\ match table w with
       | None => t' = mkTable FULL_SCHEMA [] 0
       | Some t => Migrated t t'
       end.
Proof. apply initAIInsightsTable_result. Qed.

Lemma initAIInsightsTable_postcondition_witness :
  let w' := snd (initAIInsightsTable legacyWorld) in
  exists t',
    table w' = Some t'
    /\ hasColumns ["model"; "confidence"; "created_at"] t' = true
    /\ match table legacyWorld with
       | None => t' = mkTable FULL_SCHEMA [] 0
       | Some t => Migrated t t'
       end.
Proof.
  intros w'.
  apply (@initAIInsightsTable_postcondition legacyWorld w').
  vm_compute. reflexivity.
Defined.

(** X5.  Once [initAIInsightsTable] has returned, any later call of it,
    whatever has been saved in between, leaves the table as it finds it
    and writes nothing. *)
Theorem initAIInsightsTable_idempotent (w w1 w2 : World) (t1 t2 : Table) :
  initAIInsightsTable w = (Ok tt, w1) ->
  table w1 = Some t1 -> table w2 = Some t2 -> columns t2 = columns t1 ->
  table (snd (initAIInsightsTable w2)) = table w2
  /\ history storeWrites (snd (initAIInsightsTable w2)) = history storeWrites w2.
Proof.
  intros E Ht1 Ht2 Hcols.
  destruct (@initAIInsightsTable_result _ _ E) as (t' & Ht' & Hc & _).
  rewrite Ht1 in Ht'. injection Ht' as <-.
  assert (Hq : Quiet w2 (snd (initAIInsightsTable w2))).
  { unfold initAIInsightsTable, getDB, bind.
    destruct (dbStep w2) as [[[]|e] wa] eqn:Ea; along Ea dbStep_quiet; [|exact F].
    destruct (dbStep wa) as [[[]|e] wb] eqn:Eb; along Eb dbStep_quiet;
      [|eapply Quiet_trans; eassumption].
    assert (Hq : Quiet w2 wb) by (eapply Quiet_trans; eassumption).
    cbv beta iota delta [gets].
    assert (Hb : table wb = Some t2) by (rewrite (proj1 Hq); exact Ht2).
    rewrite Hb. eapply Quiet_trans; [exact Hq|].
    apply (@runMigrations_quiet t2); [exact Hb|].
    unfold hasColumns in Hc. cbn [forallb] in Hc.
    unfold hasColumn in *. rewrite Hcols.
    repeat (apply andb_true_iff in Hc; destruct Hc as [? Hc]).
    intros m [<-|[<-|[<-|[]]]]; assumption. }
  destruct Hq as [Hq1 Hq2]. split; [exact Hq1|].
  apply (@history_sub storeWrites effects); [|exact Hq2].
  now intros [].
Qed.

Lemma initAIInsightsTable_idempotent_witness :
  let w1 := snd (initAIInsightsTable legacyWorld) in
  let w2 := snd (saveAIInsight otherInsight w1) in
  history storeWrites w2
  = [EvSqlWrite (InsertOrReplace "99"); EvSqlWrite (AddColumn "confidence");
     EvSqlWrite (AddColumn "model")]
  /\ table (snd (initAIInsightsTable w2)) = table w2
  /\ history storeWrites (snd (initAIInsightsTable w2)) = history storeWrites w2.
Proof.
  intros w1 w2. split; [reflexivity|].
  refine (@initAIInsightsTable_idempotent legacyWorld w1 w2 _ _ _ _ _ _).
  - vm_compute. reflexivity.
  - vm_compute. reflexivity.
  - vm_compute. reflexivity.
  - reflexivity.
Defined.

(** X6.  A table that has [created_at] but neither [model] nor
    [confidence] gets both columns, in that order, and every row it holds
    reads ['unknown'] and [0.7] in them; nothing else of it changes. *)
Theorem initAIInsightsTable_fills_defaults (w w' : World) (t : Table) :
  table w = Some t ->
  hasColumn "model" t = false ->
  hasColumn "confidence" t = false ->
  hasColumn "created_at" t = true ->
  initAIInsightsTable w = (Ok tt, w') ->
  table w'
  = Some (mkTable (columns t ++ ["model"; "confidence"])
                  (map withDefaults (rows t)) (sequence t)).
Proof.
  intros Ht Hm Hc Hd E.
  apply initAIInsightsTable_inv in E. destruct E as (w2 & T2 & E).
  rewrite Ht in E, T2. unfold migrations in E.
  cbn [runMigrations mg_column] in E.
  unfold bind at 1 in E.
  destruct (columnExists "model" w2) as [[b|e] wa] eqn:Ea; [|discriminate].
  apply columnExists_inv in Ea. destruct Ea as [Hb Ta]. rewrite T2 in Hb, Ta.
  rewrite Hm in Hb. subst b. cbn [negb] in E. unfold bind at 1 in E.
  destruct (alterTableAddColumn _ wa) as [[[]|e] wb] eqn:Eb; [|discriminate].
  apply alterTableAddColumn_inv in Eb. destruct Eb as (ta & Hta & _ & Tb).
  rewrite Ta in Hta. injection Hta as <-. cbn [mg_column] in Tb.
  unfold bind at 1 in E.
  destruct (columnExists "confidence" wb) as [[b|e] wc] eqn:Ec; [|discriminate].
  apply columnExists_inv in Ec. destruct Ec as [Hb Tc]. rewrite Tb in Hb, Tc.
  rewrite hasColumn_added, Hc in Hb. subst b.
  change (String.eqb "confidence" "model") with false in E.
  cbn [orb negb] in E. unfold bind at 1 in E.
  destruct (alterTableAddColumn _ wc) as [[[]|e] wd] eqn:Ed; [|discriminate].
  apply alterTableAddColumn_inv in Ed. destruct Ed as (tc & Htc & _ & Td).
  rewrite Tc in Htc. injection Htc as <-. cbn [mg_column] in Td.
  unfold bind at 1 in E.
  destruct (columnExists "created_at" wd) as [[b|e] we] eqn:Ee; [|discriminate].
  apply columnExists_inv in Ee. destruct Ee as [Hb Te]. rewrite Td in Hb, Te.
  rewrite !hasColumn_added, Hd in Hb. subst b. cbn [orb negb] in E.
  unfold bind, ret in E. injection E as <-.
  rewrite Te. cbn [columns rows sequence].
  rewrite <- app_assoc. cbn [app]. rewrite map_map. reflexivity.
Qed.

Lemma initAIInsightsTable_fills_defaults_witness :
  table (snd (initAIInsightsTable legacyWorld))
  = Some (mkTable ["id"; "activity_id"; "activity_name"; "insight"; "created_at";
                   "model"; "confidence"]
                  [mkRow 1 "100" "Morning Run" "Steady aerobic effort." "unknown"
                         (Some 0.7) 1710054000000] 1).
Proof.
  refine (@initAIInsightsTable_fills_defaults legacyWorld
            (snd (initAIInsightsTable legacyWorld))
            (mkTable ["id"; "activity_id"; "activity_name"; "insight"; "created_at"]
                     [storedInsight] 1) _ _ _ _ _).
  - reflexivity.
  - reflexivity.
  - reflexivity.
  - reflexivity.
  - vm_compute. reflexivity.
Defined.

(** On a table without [created_at] the third migration is a statement
    SQLite does not parse: the call throws, having added the two columns
    before it. *)
Example initAIInsightsTable_without_created_at :
  let old := mkWorld (Some (mkTable ["id"; "activity_id"; "activity_name"; "insight"]
                                    [storedInsight] 1)) []
                     [("100", mkRemote "Morning Run" None)] [] [] [] NOON 0 [] in
  fst (initAIInsightsTable old) = Throw SqliteError
  /\ history storeWrites (snd (initAIInsightsTable old))
     = [EvSqlWrite (AddColumn "confidence"); EvSqlWrite (AddColumn "model")]
  /\ fst (processActivityWithInsights sampleHost onConfig run_today None None false old)
     = Ok None.
Proof. repeat split; vm_compute; reflexivity. Qed.

(** *** Identifiers without a row *)

Lemma existsb_eqb_In (id : string) (l : list string) :
  existsb (String.eqb id) l = true <-> In id l.
Proof.
  rewrite existsb_exists. split.
  - intros (x & Hx & E). apply String.eqb_eq in E. now subst.
  - intros H. exists id. split; [exact H | apply String.eqb_refl].
Qed.

(** The identifiers the [SELECT ... IN (...)] finds are those of the list
    that have a row. *)
Lemma found_among (ids : list string) (l : list AIInsightRecord) (id : string) :
  In id ids ->
  existsb (String.eqb id)
    (map r_activityId
       (filter (fun r => existsb (String.eqb (r_activityId r)) ids) l))
  = existsb (fun r => String.eqb (r_activityId r) id) l.
Proof.
  intros Hin. induction l as [|r l IH]; [reflexivity|].
  cbn [filter existsb].
  destruct (String.eqb (r_activityId r) id) eqn:E.
  - apply String.eqb_eq in E.
    assert (H : existsb (String.eqb (r_activityId r)) ids = true)
      by (apply existsb_eqb_In; now rewrite E).
    rewrite H. cbn [map existsb]. rewrite E, String.eqb_refl. reflexivity.
  - destruct (existsb (String.eqb (r_activityId r)) ids); [|exact IH].
    cbn [map existsb]. rewrite String.eqb_sym, E. exact IH.
Qed.

Lemma filter_ext_In' {A} (p q : A -> bool) (l : list A) :
  (forall x, In x l -> p x = q x) -> filter p l = filter q l.
Proof.
  induction l as [|x l IH]; intros H; [reflexivity|].
  cbn [filter]. rewrite (H x) by now left.
  rewrite IH by (intros y Hy; apply H; now right). reflexivity.
Qed.

(** X7.  [getActivitiesWithoutInsights] answers the empty list without a
    step against the database, so also when the file cannot be opened;
    and whenever it returns, it returns the identifiers it was given
    that have no row, in the order and as often as they were given, and
    leaves the table as it was. *)
Theorem getActivitiesWithoutInsights_spec :
  (forall w, getActivitiesWithoutInsights [] w = (Ok [], w))
  /\ (forall ids w l w',
         getActivitiesWithoutInsights ids w = (Ok l, w') ->
         l = filter (fun id => negb (storeHas id w)) ids
         /\ table w' = table w).
Proof.
  split; [reflexivity|].
  intros ids w l w' E. destruct ids as [|id0 ids'].
  - cbn in E. injection E as <- <-.
    split; reflexivity.
  - unfold getActivitiesWithoutInsights in E.
    remember (id0 :: ids') as ids eqn:Hids. clear Hids.
    unfold getDB, bind in E.
    destruct (dbStep w) as [[[]|e] w1] eqn:E1; [|discriminate].
    destruct (dbStep w1) as [[[]|e] w2] eqn:E2; [|discriminate].
    apply dbStep_inv in E1, E2. destruct E1 as (T1 & _), E2 as (T2 & _).
    cbv beta iota delta [gets] in E.
    destruct (table w2) as [t|] eqn:Ht; [|discriminate].
    destruct (_ <? _)%Z; [discriminate|].
    match type of E with context [if ?c then _ else _] => destruct c end;
      [|discriminate].
    unfold ret in E. injection E as <- <-.
    split; [|congruence].
    apply filter_ext_In'. intros id Hin.
    unfold storeHas. rewrite <- T1, <- T2.
    now rewrite found_among.
Qed.

Lemma getActivitiesWithoutInsights_spec_witness :
  fst (getActivitiesWithoutInsights [] brokenStoreWorld) = Ok []
  /\ fst (getActivitiesWithoutInsights ["99"; "100"; "99"] storedWorld) = Ok ["99"; "99"]
  /\ ["99"; "99"] = filter (fun id => negb (storeHas id storedWorld)) ["99"; "100"; "99"].
Proof.
  destruct getActivitiesWithoutInsights_spec as [H0 H1].
  split; [now rewrite H0 | split; [reflexivity|]].
  apply (H1 ["99"; "100"; "99"] storedWorld ["99"; "99"]
            (snd (getActivitiesWithoutInsights ["99"; "100"; "99"] storedWorld))).
  vm_compute. reflexivity.
Defined.

(** *** Deleting a row *)

Lemma deleteInsight_inv (id : string) (w w' : World) :
  RefreshInsights.deleteInsight id w = (Ok tt, w') ->
  exists t,
    table w = Some t
    /\ table w'
       = Some (mkTable (columns t)
                       (filter (fun r => negb (String.eqb (r_activityId r) id)) (rows t))
                       (sequence t))
    /\ trace w' = trace w /\ activities w' = activities w
    /\ remoteFaults w' = remoteFaults w /\ replies w' = replies w.
Proof.
  intros E. unfold RefreshInsights.deleteInsight, getDB, bind in E.
  destruct (dbStep w) as [[[]|e] w1] eqn:E1; [|discriminate].
  destruct (dbStep w1) as [[[]|e] w2] eqn:E2; [|discriminate].
  apply dbStep_inv in E1, E2.
  destruct E1 as (T1 & A1 & B1 & C1 & D1 & _), E2 as (T2 & A2 & B2 & C2 & D2 & _).
  cbv beta iota delta [gets] in E.
  destruct (table w2) as [t|] eqn:Ht; [|discriminate].
  match type of E with context [if ?c then _ else _] => destruct c end;
    [|discriminate].
  cbn in E. injection E as <-. exists t. cbn.
  repeat split; congruence.
Qed.

Lemma existsb_filter_other {A} (p q : A -> bool) (l : list A) :
  (forall x, p x = true -> q x = true) ->
  existsb p (filter q l) = existsb p l.
Proof.
  intros Hpq. induction l as [|x l IH]; simpl; [reflexivity|].
  destruct (q x) eqn:Hq; simpl.
  - now rewrite IH.
  - destruct (p x) eqn:Hp; [|exact IH].
    apply Hpq in Hp. congruence.
Qed.

Lemma existsb_filter_none {A} (p q : A -> bool) (l : list A) :
  (forall x, p x = true -> q x = false) ->
  existsb p (filter q l) = false.
Proof.
  intros Hpq. induction l as [|x l IH]; simpl; [reflexivity|].
  destruct (q x) eqn:Hq; simpl; [|exact IH].
  destruct (p x) eqn:Hp; [|exact IH].
  apply Hpq in Hp. congruence.
Qed.

(** What a delete that returns leaves in the store. *)
Lemma deleteInsight_storeHas (id id' : string) (w w' : World) :
  RefreshInsights.deleteInsight id w = (Ok tt, w') ->
  storeHas id' w' = (negb (String.eqb id' id) && storeHas id' w)%bool.
Proof.
  intros E. apply deleteInsight_inv in E. destruct E as (t & Ht & Ht' & _).
  unfold storeHas. rewrite Ht, Ht'. cbn [rows].
  destruct (String.eqb id' id) eqn:Hid; cbn [negb andb].
  - apply String.eqb_eq in Hid. subst id'.
    apply existsb_filter_none. intros x Hx. now rewrite Hx.
  - apply existsb_filter_other. intros x Hx.
    apply String.eqb_eq in Hx. subst id'. now rewrite Hid.
Qed.

(** X8.  Delete and look up: after [deleteInsight] the store has no
    insight for the identifier deleted, and has one for any other
    identifier exactly when it had one before. *)
Theorem deleteInsight_then_hasAIInsight (id id' : string) (w : World)
        (b : bool) (w' : World) :
  (RefreshInsights.deleteInsight id ;; hasAIInsight id') w = (Ok b, w') ->
  b = (negb (String.eqb id' id) && storeHas id' w)%bool.
Proof.
  unfold bind at 1. intros E.
  destruct (RefreshInsights.deleteInsight id w) as [[[]|e] w1] eqn:E1; [|discriminate].
  apply hasAIInsight_inv in E. destruct E as [-> _].
  now apply deleteInsight_storeHas.
Qed.

Lemma deleteInsight_then_hasAIInsight_witness :
  let run := (RefreshInsights.deleteInsight "100" ;; hasAIInsight "100") storedWorld in
  storeHas "100" storedWorld = true
  /\ run = (Ok false, snd run)
  /\ false = (negb (String.eqb "100" "100") && storeHas "100" storedWorld)%bool.
Proof.
  intros run.
  assert (E : run = (Ok false, snd run)) by (vm_compute; reflexivity).
  split; [reflexivity | split; [exact E|]].
  exact (@deleteInsight_then_hasAIInsight "100" "100" storedWorld _ _ E).
Defined.

(** ** The remote description *)

Lemma lookup_storeActivity_other (id id' : string) (a : RemoteActivity)
      (l : list (string * RemoteActivity)) :
  id' <> id -> lookupActivity id' (storeActivity id a l) = lookupActivity id' l.
Proof.
  intros Hne. induction l as [|[k x] l IH]; simpl; [reflexivity|].
  destruct (String.eqb k id) eqn:E; simpl.
  - apply String.eqb_eq in E. subst k.
    destruct (String.eqb id id') eqn:E'; [|reflexivity].
    apply String.eqb_eq in E'. congruence.
  - destruct (String.eqb k id'); [reflexivity | exact IH].
Qed.

(** One call of [addActivityComment], request by request. *)
Lemma addActivityComment_cases (id comment : string) (c : GarminClientType)
      (force : bool) (w : World) :
  let run := addActivityComment id comment c force w in
  match (if nextRemoteFails w then None else lookupActivity id (activities w)) with
  | None =>
      fst run = Ok false
      /\ activities (snd run) = activities w
      /\ history remoteWrites (snd run) = history remoteWrites w
      /\ remoteFaults (snd run) = tl (remoteFaults w)
  | Some a =>
      let d := descriptionOrEmpty (ra_description a) in
      if (hasExistingInsight d && negb force)%bool
      then fst run = Ok true
           /\ activities (snd run) = activities w
           /\ history remoteWrites (snd run) = history remoteWrites w
           /\ remoteFaults (snd run) = tl (remoteFaults w)
      else
        let posted := if hasExistingInsight d then replaced d comment
                      else appended d comment in
        let written := storeActivity id (mkRemote (ra_activityName a) (Some posted))
                                     (activities w) in
        history remoteWrites (snd run)
        = EvPostDescription id posted :: history remoteWrites w
        /\ remoteFaults (snd run) = tl (tl (remoteFaults w))
        /\ match hd Answered (tl (remoteFaults w)) with
           | Answered => fst run = Ok true /\ activities (snd run) = written
           | Refused => fst run = Ok false /\ activities (snd run) = activities w
           | AnswerLost => fst run = Ok false /\ activities (snd run) = written
           end
  end.
Proof.
  intros run. subst run.
  unfold addActivityComment, tryCatch, bind.
  destruct (client_getActivity_spec c id w) as (Ht & Ha & Hr & Hres).
  destruct (client_getActivity c id w) as [r w1]. cbn [fst snd] in *.
  destruct (nextRemoteFails w) eqn:Hf.
  - subst r. cbn. unfold history. rewrite Ht, Ha, Hr. cbn. auto.
  - subst r. destruct (lookupActivity id (activities w)) as [a|] eqn:Hl.
    + cbv zeta.
      set (d := descriptionOrEmpty (ra_description a)).
      destruct (hasExistingInsight d && negb force)%bool eqn:Hskip.
      * cbn. unfold history. rewrite Ht, Ha, Hr. cbn. auto.
      * match goal with |- context [client_post c id ?n ?p w1] =>
          assert (Hp : p = if hasExistingInsight d then replaced d comment
                           else appended d comment)
            by (destruct (hasExistingInsight d); reflexivity);
          rewrite Hp; clear Hp
        end.
        set (posted := if hasExistingInsight d then replaced d comment
                       else appended d comment).
        destruct (client_post_spec c id (ra_activityName a) posted w1)
          as (Ht2 & Hr2 & Hres2).
        destruct (client_post c id (ra_activityName a) posted w1) as [r2 w2].
        cbn [fst snd] in *.
        split; [destruct r2; cbn; unfold history; rewrite Ht2, Ht; reflexivity|].
        split; [destruct r2; cbn; rewrite Hr2, Hr; reflexivity|].
        rewrite Hr in Hres2.
        destruct (hd Answered (tl (remoteFaults w))); destruct Hres2 as [-> Ha2];
          cbn; rewrite Ha2, Ha; auto.
    + cbn. unfold history. rewrite Ht, Ha, Hr. cbn. auto.
Qed.

Lemma cons_neq_self {A} (x : A) (l : list A) : x :: l <> l.
Proof.
  intros E. apply (f_equal (@length A)) in E. cbn in E. lia.
Qed.

(** X9.  Whatever the remote service does, [addActivityComment] changes
    at most the description of the activity it is called for: every other
    activity is as it was, the activity keeps its name, and a call that
    posts nothing leaves the account as it was.  A call that posts has
    fetched the activity, and what the account holds afterwards goes by
    what the service did with the post: answered, the description is the
    text posted and the call answers true; refused, the account is as it
    was and the call answers false; written with the answer lost, the
    description is the text posted and the call answers false all the
    same. *)
Theorem addActivityComment_changes_one_description
        (id comment : string) (c : GarminClientType) (force : bool) (w : World) :
  let run := addActivityComment id comment c force w in
  (forall id', id' <> id ->
     lookupActivity id' (activities (snd run)) = lookupActivity id' (activities w))
  /\ option_map ra_activityName (lookupActivity id (activities (snd run)))
     = option_map ra_activityName (lookupActivity id (activities w))
  /\ (history remoteWrites (snd run) = history remoteWrites w ->
      activities (snd run) = activities w)
  /\ (forall posted,
        history remoteWrites (snd run)
        = EvPostDescription id posted :: history remoteWrites w ->
        exists a,
          lookupActivity id (activities w) = Some a
          /\ let written := storeActivity id (mkRemote (ra_activityName a) (Some posted))
                                          (activities w) in
             match hd Answered (tl (remoteFaults w)) with
             | Answered => fst run = Ok true /\ activities (snd run) = written
             | Refused => fst run = Ok false /\ activities (snd run) = activities w
             | AnswerLost => fst run = Ok false /\ activities (snd run) = written
             end).
Proof.
  intros run. pose proof (addActivityComment_cases id comment c force w) as H.
  fold run in H. cbv zeta in H.
  assert (Hno : activities (snd run) = activities w ->
                history remoteWrites (snd run) = history remoteWrites w ->
                (forall id', id' <> id ->
                   lookupActivity id' (activities (snd run))
                   = lookupActivity id' (activities w))
                /\ option_map ra_activityName (lookupActivity id (activities (snd run)))
                   = option_map ra_activityName (lookupActivity id (activities w))
                /\ (history remoteWrites (snd run) = history remoteWrites w ->
                    activities (snd run) = activities w)
                /\ (forall posted,
                      history remoteWrites (snd run)
                      = EvPostDescription id posted :: history remoteWrites w ->
                      exists a,
                        lookupActivity id (activities w) = Some a
                        /\ let written :=
                             storeActivity id (mkRemote (ra_activityName a) (Some posted))
                                           (activities w) in
                           match hd Answered (tl (remoteFaults w)) with
                           | Answered => fst run = Ok true /\ activities (snd run) = written
                           | Refused => fst run = Ok false
                                        /\ activities (snd run) = activities w
                           | AnswerLost => fst run = Ok false
                                           /\ activities (snd run) = written
                           end)).
  { intros Ha Ht. rewrite Ha. repeat split; auto.
    intros posted Hp. rewrite Ht in Hp. symmetry in Hp.
    now apply cons_neq_self in Hp. }
  destruct (nextRemoteFails w).
  - destruct H as (_ & Ha & Ht & _). now apply Hno.
  - destruct (lookupActivity id (activities w)) as [a|] eqn:Hl.
    + destruct (hasExistingInsight _ && negb force)%bool.
      * destruct H as (_ & Ha & Ht & _). now apply Hno.
      * clear Hno. destruct H as (Ht & _ & H).
        assert (Hw : forall p,
                   (forall id', id' <> id ->
                      lookupActivity id'
                        (storeActivity id (mkRemote (ra_activityName a) (Some p))
                                       (activities w))
                      = lookupActivity id' (activities w))
                   /\ option_map ra_activityName
                        (lookupActivity id
                           (storeActivity id (mkRemote (ra_activityName a) (Some p))
                                          (activities w)))
                      = Some (ra_activityName a)).
        { intros p. split.
          - intros id' Hne. now apply lookup_storeActivity_other.
          - rewrite (lookup_storeActivity id _ _ Hl). reflexivity. }
        split; [|split; [|split]].
        -- destruct (hd Answered (tl (remoteFaults w))); destruct H as [_ ->];
             auto; apply (proj1 (Hw _)).
        -- destruct (hd Answered (tl (remoteFaults w))); destruct H as [_ ->];
             rewrite ?Hl; cbn [option_map]; try reflexivity; apply (proj2 (Hw _)).
        -- intros E. rewrite Ht in E. now apply cons_neq_self in E.
        -- intros posted Hp. rewrite Ht in Hp. injection Hp as <-.
           exists a. split; [reflexivity|]. exact H.
    + destruct H as (_ & Ha & Ht & _). now apply Hno.
Qed.

Lemma addActivityComment_changes_one_description_witness :
  let run := addActivityComment "100" newComment GarminClient false lostAnswerWorld in
  history remoteWrites (snd run)
  = EvPostDescription "100" (appended "Felt strong." newComment)
      :: history remoteWrites lostAnswerWorld
  /\ hd Answered (tl (remoteFaults lostAnswerWorld)) = AnswerLost
  /\ fst run = Ok false
  /\ descriptionAt "100" (snd run) = appended "Felt strong." newComment
  /\ lookupActivity "101" (activities (snd run)) = None.
Proof.
  intros run.
  destruct (@addActivityComment_changes_one_description
              "100" newComment GarminClient false lostAnswerWorld)
    as (Hother & _ & _ & Hpost).
  destruct (Hpost (appended "Felt strong." newComment) eq_refl) as (a & Ha & Hrun).
  injection Ha as <-. cbv zeta in Hrun.
  change (hd Answered (tl (remoteFaults lostAnswerWorld))) with AnswerLost in Hrun.
  destruct Hrun as [Hr Hacts].
  split; [reflexivity|]. split; [reflexivity|]. split; [exact Hr|].
  split.
  - unfold descriptionAt. subst run. rewrite Hacts. reflexivity.
  - subst run. rewrite (Hother "101"); [reflexivity | discriminate].
Defined.

Lemma hasActivityInsight_cases (id : string) (c : GarminClientType) (w : World) :
  let check := hasActivityInsight id c w in
  activities (snd check) = activities w
  /\ history remoteWrites (snd check) = history remoteWrites w
  /\ remoteFaults (snd check) = tl (remoteFaults w)
  /\ fst check = Ok (if nextRemoteFails w then false else markerAt id w).
Proof.
  intros check. subst check. unfold hasActivityInsight, tryCatch, bind.
  destruct (client_getActivity_spec c id w) as (Ht & Ha & Hr & Hres).
  destruct (client_getActivity c id w) as [r w1]. cbn [fst snd] in *.
  destruct (nextRemoteFails w); subst r; cbn; unfold history; rewrite Ht, Ha, Hr;
    cbn; repeat split.
  all: unfold markerAt, descriptionAt; now destruct (lookupActivity id (activities w)).
Qed.

(** X10.  [hasActivityInsight] only reads: it changes nothing on the
    account and posts nothing.  And once it has answered true, a call of
    [addActivityComment] without force that follows it posts nothing
    either, whatever the remote service does: the marker it saw is seen
    again, or the activity cannot be fetched. *)
Theorem hasActivityInsight_guards_append
        (id comment : string) (c : GarminClientType) (w : World) :
  let check := hasActivityInsight id c w in
  activities (snd check) = activities w
  /\ history remoteWrites (snd check) = history remoteWrites w
  /\ (fst check = Ok true ->
      let run := addActivityComment id comment c false (snd check) in
      activities (snd run) = activities w
      /\ history remoteWrites (snd run) = history remoteWrites w).
Proof.
  intros check.
  destruct (hasActivityInsight_cases id c w) as (Ha & Ht & _ & Hr).
  fold check in Ha, Ht, Hr.
  split; [exact Ha | split; [exact Ht|]].
  intros Htrue run. rewrite Hr in Htrue.
  destruct (nextRemoteFails w); [discriminate|].
  injection Htrue as Hm. unfold markerAt, descriptionAt in Hm.
  pose proof (addActivityComment_cases id comment c false (snd check)) as H.
  fold run in H. cbv zeta in H. rewrite Ha in H.
  destruct (nextRemoteFails (snd check)).
  - destruct H as (_ & Ha2 & Ht2 & _). split; congruence.
  - destruct (lookupActivity id (activities w)) as [a|].
    + rewrite Hm in H. cbn [andb negb] in H.
      destruct H as (_ & Ha2 & Ht2 & _). split; congruence.
    + destruct H as (_ & Ha2 & Ht2 & _). split; congruence.
Qed.

Lemma hasActivityInsight_guards_append_witness :
  let check := hasActivityInsight "100" GarminClient robotBlockWorld in
  let run := addActivityComment "100" newComment GarminClient false (snd check) in
  fst check = Ok true
  /\ activities (snd run) = activities robotBlockWorld
  /\ history remoteWrites (snd run) = history remoteWrites robotBlockWorld.
Proof.
  intros check run. split; [reflexivity|].
  apply (proj2 (proj2 (@hasActivityInsight_guards_append "100" newComment GarminClient
                         robotBlockWorld))).
  reflexivity.
Defined.

(** *** Replacing the block the engine wrote *)

Lemma stripPrefix_cons (a : ascii) (p : string) (b : ascii) (s : string) :
  stripPrefix (String a p) (String b s)
  = if Ascii.eqb a b then stripPrefix p s else None.
Proof. reflexivity. Qed.

Lemma stripPrefix_startsWith (p s : string) :
  stripPrefix p s = None <-> startsWith p s = false.
Proof. unfold startsWith. destruct (stripPrefix p s); split; congruence. Qed.

Lemma includes_nil_false (a : ascii) (p s : string) :
  includes (String a p) s = false -> startsWith (String a p) s = false.
Proof. destruct s as [|c s]; cbn [includes]; [trivial|]. intros H. now apply orb_false_iff in H. Qed.

Lemma includes_tail_false (p : string) (c : ascii) (s : string) :
  includes p (String c s) = false -> includes p s = false.
Proof. cbn [includes]. intros H. now apply orb_false_iff in H. Qed.

Lemma skipInsightBody_no_separator (body : string) :
  includes SEPARATOR body = false -> skipInsightBody body = EmptyString.
Proof.
  induction body as [|c body IH]; [reflexivity|].
  intros H. cbn [skipInsightBody].
  pose proof (includes_nil_false _ _ _ H) as Hs.
  change (startsWith SEPARATOR (String c body) = false) in Hs. rewrite Hs.
  apply IH. eapply includes_tail_false, H.
Qed.

Lemma removeInsights_empty (fuel : nat) : removeInsights fuel EmptyString = EmptyString.
Proof. now destruct fuel. Qed.

(** The block the engine wrote, where it starts. *)
Lemma matchInsightAt_block (body : string) :
  matchInsightAt (SEPARATOR ++ INSIGHT_MARKER ++ body) = Some (skipInsightBody body)
  /\ matchInsightAt (INSIGHT_MARKER ++ body) = Some (skipInsightBody body).
Proof. split; reflexivity. Qed.

(** No match starts inside a text without the marker that stands before
    the block. *)
Lemma matchInsightAt_before_block (c : ascii) (d body : string) :
  includes INSIGHT_MARKER (String c d) = false ->
  matchInsightAt (String c d ++ SEPARATOR ++ INSIGHT_MARKER ++ body) = None.
Proof.
  intros Hd. unfold matchInsightAt.
  assert (Hm : forall s t, includes INSIGHT_MARKER s = false ->
                           stripPrefix INSIGHT_MARKER (s ++ String LF t) = None).
  { intros s t Hs. apply stripPrefix_startsWith.
    unfold INSIGHT_MARKER, ROBOT in *. cbn [append] in *.
    rewrite startsWith_app_LF by reflexivity.
    now apply includes_nil_false. }
  assert (H2 : stripPrefix INSIGHT_MARKER
                 (String c d ++ SEPARATOR ++ INSIGHT_MARKER ++ body) = None)
    by (apply Hm, Hd).
  rewrite H2.
  destruct (stripPrefix (SEPARATOR ++ INSIGHT_MARKER)
              (String c d ++ SEPARATOR ++ INSIGHT_MARKER ++ body)) as [r|] eqn:E;
    [|reflexivity].
  exfalso. clear H2 Hm.
  unfold SEPARATOR at 1 in E. unfold INSIGHT_MARKER at 1 in E.
  unfold ROBOT at 1 in E. cbn [append] in E.
  repeat match type of E with
         | stripPrefix (String ?a ?p) (String ?b ?s) = Some _ =>
             rewrite stripPrefix_cons in E;
             destruct (Ascii.eqb a b) eqn:?; [|discriminate E]
         | stripPrefix (String ?a ?p) (SEPARATOR ++ ?s) = Some _ =>
             unfold SEPARATOR at 1 in E; cbn [append] in E
         | stripPrefix (String ?a ?p) (INSIGHT_MARKER ++ ?s) = Some _ =>
             unfold INSIGHT_MARKER at 1, ROBOT at 1 in E; cbn [append] in E
         | stripPrefix (String ?a ?p) (?d ++ ?s) = Some _ =>
             destruct d; cbn [append] in E
         end.
  all: try match goal with
           | H : Ascii.eqb ?a ?b = true |- _ =>
               let v := eval vm_compute in (Ascii.eqb a b) in
               match v with false => vm_compute in H; discriminate H end
           end.
  repeat match goal with
         | H : Ascii.eqb _ _ = true |- _ => apply Ascii.eqb_eq in H; subst
         end.
  assert (Ht : includes INSIGHT_MARKER (SEPARATOR ++ INSIGHT_MARKER ++ d) = true).
  { unfold SEPARATOR. cbn [append]. do 7 apply includes_cons.
    now apply includes_app_l. }
  change (includes INSIGHT_MARKER (SEPARATOR ++ INSIGHT_MARKER ++ d) = false) in Hd.
  congruence.
Qed.

(** Removing the insight blocks from a text without the marker followed
    by one block of the engine gives that text back. *)
Lemma removeInsights_own_block (body : string) :
  includes SEPARATOR body = false ->
  forall d fuel,
    includes INSIGHT_MARKER d = false -> d <> EmptyString ->
    (String.length (d ++ SEPARATOR ++ INSIGHT_MARKER ++ body) <= fuel)%nat ->
    removeInsights fuel (d ++ SEPARATOR ++ INSIGHT_MARKER ++ body) = d.
Proof.
  intros Hb. induction d as [|c d IH]; intros fuel Hd Hne Hlen; [congruence|].
  destruct fuel as [|fuel]; [cbn in Hlen; lia|].
  rewrite removeInsights_S, (matchInsightAt_before_block c d body Hd).
  cbn [append]. f_equal.
  destruct d as [|c' d'].
  - cbn [append]. destruct fuel as [|fuel]; [cbn in Hlen; lia|].
    rewrite removeInsights_S, (proj1 (matchInsightAt_block body)).
    rewrite (skipInsightBody_no_separator _ Hb). apply removeInsights_empty.
  - apply IH; [eapply includes_tail_false, Hd | discriminate | cbn in Hlen |- *; lia].
Qed.

Lemma includes_self_app (a : ascii) (p s : string) :
  includes (String a p) (String a p ++ s) = true.
Proof.
  apply includes_app_l. cbn [includes]. unfold startsWith.
  assert (H : forall q, stripPrefix q q = Some EmptyString).
  { induction q as [|x q IH]; [reflexivity|].
    cbn [stripPrefix]. now rewrite Ascii.eqb_refl. }
  now rewrite H.
Qed.

Lemma includes_app_r (p a b : string) :
  includes p b = true -> includes p (a ++ b) = true.
Proof.
  intros H. induction a as [|c a IH]; [exact H|].
  cbn [append]. now apply includes_cons.
Qed.

(** The description with a block of the engine at its end holds the
    marker. *)
Lemma appended_has_marker (d body : string) :
  hasExistingInsight (appended d (INSIGHT_MARKER ++ body)) = true.
Proof.
  unfold hasExistingInsight, appended.
  assert (H : includes INSIGHT_MARKER (INSIGHT_MARKER ++ body) = true)
    by apply includes_self_app.
  rewrite (includes_app_r _ d _ (includes_app_r _ _ _ H)). reflexivity.
Qed.

(** The text a forced call writes over a description that ends in a
    block of the engine: the description as it was before the block, and
    the new comment. *)
Lemma replaced_appended (d body comment : string) :
  trim d = d ->
  includes INSIGHT_MARKER d = false ->
  includes SEPARATOR body = false ->
  replaced (appended d (INSIGHT_MARKER ++ body)) comment = appended d comment.
Proof.
  intros Ht Hd Hb. unfold replaced. f_equal.
  unfold appended at 1. destruct d as [|c d].
  - cbn [truthy append]. unfold replaceInsightPattern.
    destruct (String.length (INSIGHT_MARKER ++ body)) eqn:El; [discriminate El|].
    rewrite removeInsights_S, (proj2 (matchInsightAt_block body)).
    rewrite (skipInsightBody_no_separator _ Hb), removeInsights_empty. reflexivity.
  - cbn [truthy]. unfold replaceInsightPattern.
    rewrite removeInsights_own_block; [exact Ht | exact Hb | exact Hd | discriminate | lia].
Qed.

(** X11.  Append, then replace: on a description that holds no insight
    and is trimmed, a call without force appends the block after the
    divider; a forced call that follows removes exactly that block and
    puts the new comment in its place, so that the description is the
    text it was before the first call followed by the new comment.  The
    block is the marker followed by a text without the divider. *)
Theorem forced_replace_restores_description
        (id comment body : string) (c : GarminClientType) (w : World)
        (a : RemoteActivity) :
  remoteFaults w = [] ->
  lookupActivity id (activities w) = Some a ->
  let d := descriptionOrEmpty (ra_description a) in
  trim d = d ->
  hasExistingInsight d = false ->
  includes SEPARATOR body = false ->
  let first := addActivityComment id (INSIGHT_MARKER ++ body) c false w in
  let second := addActivityComment id comment c true (snd first) in
  fst first = Ok true
  /\ descriptionAt id (snd first) = appended d (INSIGHT_MARKER ++ body)
  /\ fst second = Ok true
  /\ descriptionAt id (snd second) = appended d comment.
Proof.
  intros Hf Hl d Ht He Hb first second.
  pose proof (addActivityComment_cases id (INSIGHT_MARKER ++ body) c false w) as H1.
  fold first in H1. cbv zeta in H1.
  unfold nextRemoteFails in H1. rewrite Hf, Hl in H1. cbn [hd tl] in H1.
  fold d in H1. rewrite He in H1. cbn [andb] in H1.
  destruct H1 as (_ & Hf1 & Hr1 & Ha1).
  assert (Hl1 : lookupActivity id (activities (snd first))
                = Some (mkRemote (ra_activityName a)
                                 (Some (appended d (INSIGHT_MARKER ++ body)))))
    by (rewrite Ha1; eapply lookup_storeActivity, Hl).
  split; [exact Hr1|]. split; [unfold descriptionAt; now rewrite Hl1|].
  pose proof (addActivityComment_cases id comment c true (snd first)) as H2.
  fold second in H2. cbv zeta in H2.
  unfold nextRemoteFails in H2. rewrite Hf1, Hl1 in H2.
  cbn [hd tl ra_description ra_activityName descriptionOrEmpty] in H2.
  rewrite appended_has_marker in H2. cbn [andb negb] in H2.
  destruct H2 as (_ & _ & Hr2 & Ha2).
  split; [exact Hr2|].
  unfold descriptionAt. rewrite Ha2, (lookup_storeActivity id _ _ Hl1).
  cbn [ra_description descriptionOrEmpty].
  apply replaced_appended; [exact Ht | | exact Hb].
  unfold hasExistingInsight in He. now apply orb_false_iff in He.
Qed.

Lemma forced_replace_restores_description_witness :
  let w := twoStoredWorld in
  let first := addActivityComment "100" robotBlock GarminClient false w in
  let second := addActivityComment "100" newComment GarminClient true (snd first) in
  descriptionAt "100" w = "Felt strong."
  /\ fst first = Ok true
  /\ descriptionAt "100" (snd first)
     = appended "Felt strong."
         (INSIGHT_MARKER ++ " (gemini-2.5-flash-lite, 80% confidence):"
                         ++ String LF "Old insight.")
  /\ fst second = Ok true
  /\ descriptionAt "100" (snd second) = appended "Felt strong." newComment.
Proof.
  intros w first second. split; [reflexivity|].
  apply (@forced_replace_restores_description "100" newComment
           (" (gemini-2.5-flash-lite, 80% confidence):" ++ String LF "Old insight.")
           GarminClient w (mkRemote "Morning Run" (Some "Felt strong."))).
  - reflexivity.
  - reflexivity.
  - reflexivity.
  - reflexivity.
  - reflexivity.
Defined.

(** [trim] takes off white space of any kind, so that a description
    that starts with an ideographic space is not trimmed. *)
Example trim_wide_space :
  trim (IDEOGRAPHIC_SPACE ++ "Felt strong." ++ NBSP ++ " ") = "Felt strong."
  /\ trim (IDEOGRAPHIC_SPACE ++ "Felt strong.") <> IDEOGRAPHIC_SPACE ++ "Felt strong.".
Proof. split; [reflexivity | discriminate]. Qed.

(** The block the engine itself posts does not start with the robot
    face the pattern looks for: a forced call on it finds the marker
    without the robot face, removes nothing and appends, so that the
    description holds the old block and the new one. *)
Example forced_replace_of_written_block :
  let old := commentFor sampleHost GEMINI_MODEL (Num 0.8) "Old insight." in
  let new := commentFor sampleHost GEMINI_MODEL (Num 0.85) "New insight." in
  let w := mkWorld None [] [("100", mkRemote "Morning Run" (Some old))]
                   [] [] [] NOON 0 [] in
  let run := addActivityComment "100" new GarminClient true w in
  includes INSIGHT_MARKER old = false
  /\ hasExistingInsight old = true
  /\ fst run = Ok true
  /\ descriptionAt "100" (snd run) = old ++ SEPARATOR ++ new.
Proof. repeat split; vm_compute; reflexivity. Qed.

(** ** The trend context *)

Lemma StronglySorted_firstn {A} (R : A -> A -> Prop) (n : nat) (l : list A) :
  StronglySorted R l -> StronglySorted R (firstn n l).
Proof.
  revert l. induction n as [|n IH]; intros [|x l] Hs; cbn [firstn]; try constructor.
  - apply IH. now apply StronglySorted_inv in Hs.
  - apply StronglySorted_inv in Hs. destruct Hs as [_ Hx].
    rewrite Forall_forall in *. intros y Hy. apply Hx. eapply In_firstn, Hy.
Qed.

Lemma dateLt_inv (a b : option Z) :
  dateLt a b = true -> exists x y, a = Some x /\ b = Some y /\ (x < y)%Z.
Proof.
  destruct a as [x|], b as [y|]; cbn; try discriminate.
  intros H. apply Z.ltb_lt in H. eauto.
Qed.

Lemma dateLe_inv (a b : option Z) :
  dateLe a b = true -> exists x y, a = Some x /\ b = Some y /\ (x <= y)%Z.
Proof.
  destruct a as [x|], b as [y|]; cbn; try discriminate.
  intros H. apply Z.leb_le in H. eauto.
Qed.

(** X12.  The recent activities of the context are at most seven, each
    started before the current activity did, and they come latest start
    first. *)
Theorem getHistoricalContext_recent
        (host : Host) (current : GarminActivity) (candidates : list GarminActivity)
        (ctx : HistoricalContext) :
  getHistoricalContext host current candidates = Ok ctx ->
  (length (recentActivities ctx) <= 7)%nat
  /\ (forall a, In a (recentActivities ctx) ->
        exists t tc, startOf host a = Some t
                     /\ startOf host current = Some tc
                     /\ timeOf host a = t
                     /\ (t < tc)%Z)
  /\ StronglySorted (fun a b => (timeOf host b <= timeOf host a)%Z) (recentActivities ctx).
Proof.
  unfold getHistoricalContext.
  set (same := filter _ candidates).
  set (recent := firstn 7 _).
  assert (Hrec : (length recent <= 7)%nat
                 /\ (forall a, In a recent ->
                       exists t tc, startOf host a = Some t
                                    /\ startOf host current = Some tc
                                    /\ timeOf host a = t
                                    /\ (t < tc)%Z)
                 /\ StronglySorted (fun a b => (timeOf host b <= timeOf host a)%Z) recent).
  { split; [apply firstn_le_length|]. split.
    - intros a Ha. apply In_firstn, In_sortDesc in Ha.
      apply filter_In in Ha. destruct Ha as [_ Hlt].
      apply dateLt_inv in Hlt. destruct Hlt as (t & tc & Ht & Htc & Hlt).
      exists t, tc. unfold startOf, timeOf. rewrite Ht. auto.
    - apply StronglySorted_firstn, sortDesc_sorted. }
  clearbody recent.
  set (week := find _ same). clearbody week.
  destruct (getDateString host _) as [yesterdayStr|e]; cbn [rbind]; [|discriminate].
  destruct (findRes _ same) as [y|e]; cbn [rbind]; [|discriminate].
  intros H. injection H as <-. exact Hrec.
Qed.

Lemma getHistoricalContext_recent_witness :
  getHistoricalContext sampleHost run_today sampleActivities
  = Ok (mkContext (Some run_yesterday) (Some run_lastWeek) [run_yesterday; run_lastWeek])
  /\ (length [run_yesterday; run_lastWeek] <= 7)%nat
  /\ StronglySorted (fun a b => (timeOf sampleHost b <= timeOf sampleHost a)%Z)
                    [run_yesterday; run_lastWeek].
Proof.
  split; [reflexivity|].
  destruct (@getHistoricalContext_recent sampleHost run_today sampleActivities
              (mkContext (Some run_yesterday) (Some run_lastWeek)
                         [run_yesterday; run_lastWeek]) eq_refl) as (H1 & _ & H3).
  split; [exact H1 | exact H3].
Defined.

Lemma findRes_Some_holds {A} (p : A -> Res bool) (l : list A) (x : A) :
  findRes p l = Ok (Some x) -> p x = Ok true.
Proof.
  induction l as [|y l IH]; simpl; [discriminate|].
  destruct (p y) as [[|]|e] eqn:E; simpl; intros H.
  - injection H as <-. exact E.
  - now apply IH.
  - discriminate.
Qed.

(** X13.  The activity of yesterday, when the context has one, starts on
    the calendar day that the day before the current start falls on, as
    [toISOString] writes days; the activity of last week, when the
    context has one, starts no earlier than eight days and no later than
    six days before the current start. *)
Theorem getHistoricalContext_days
        (host : Host) (current : GarminActivity) (candidates : list GarminActivity)
        (ctx : HistoricalContext) :
  getHistoricalContext host current candidates = Ok ctx ->
  exists tc dayBefore,
    startOf host current = Some tc
    /\ Date_minusDays host tc 1 = Some dayBefore
    /\ (forall y, yesterdayActivity ctx = Some y ->
          exists t, startOf host y = Some t
                    /\ Date_isoDate host t = Date_isoDate host dayBefore)
    /\ (forall x, lastWeekActivity ctx = Some x ->
          exists t from to,
            startOf host x = Some t
            /\ Date_minusDays host tc 8 = Some from
            /\ Date_minusDays host tc 6 = Some to
            /\ (from <= t <= to)%Z).
Proof.
  unfold getHistoricalContext, startOf.
  set (same := filter _ candidates).
  set (recent := firstn 7 _). clearbody recent.
  destruct (Date_parse host (startTimeLocal current)) as [tc|]; cbn [setDateBack];
    [|discriminate].
  destruct (Date_minusDays host tc 1) as [dayBefore|] eqn:Hday;
    cbn [getDateString rbind]; [|discriminate].
  destruct (findRes _ same) as [y|e] eqn:Hy; cbn [rbind]; [|discriminate].
  intros H. injection H as <-. cbn [yesterdayActivity lastWeekActivity].
  exists tc, dayBefore. split; [reflexivity | split; [exact Hday|]]. split.
  - intros y' ->. apply findRes_Some_holds in Hy.
    destruct (Date_parse host (startTimeLocal y')) as [t|]; cbn in Hy; [|discriminate].
    injection Hy as Hy. apply String.eqb_eq in Hy. eauto.
  - intros x Hx. apply find_some in Hx. destruct Hx as [_ Hx].
    apply andb_true_iff in Hx. destruct Hx as [H1 H2].
    apply dateLe_inv in H1, H2.
    destruct H1 as (from & t & Hfrom & Ht & Hle1).
    destruct H2 as (t' & to & Ht' & Hto & Hle2).
    rewrite Ht in Ht'. injection Ht' as <-.
    exists t, from, to. auto.
Qed.

Lemma getHistoricalContext_days_witness :
  exists tc dayBefore,
    startOf sampleHost run_today = Some tc
    /\ Date_minusDays sampleHost tc 1 = Some dayBefore
    /\ (forall y, Some run_yesterday = Some y ->
          exists t, startOf sampleHost y = Some t
                    /\ Date_isoDate sampleHost t = Date_isoDate sampleHost dayBefore)
    /\ (forall x, Some run_lastWeek = Some x ->
          exists t from to,
            startOf sampleHost x = Some t
            /\ Date_minusDays sampleHost tc 8 = Some from
            /\ Date_minusDays sampleHost tc 6 = Some to
            /\ (from <= t <= to)%Z).
Proof.
  exact (@getHistoricalContext_days sampleHost run_today sampleActivities
           (mkContext (Some run_yesterday) (Some run_lastWeek)
                      [run_yesterday; run_lastWeek]) eq_refl).
Defined.

(** An activity whose start cannot be read has no trend context. *)
Lemma getHistoricalContext_undated
      (host : Host) (current : GarminActivity) (candidates : list GarminActivity) :
  startOf host current = None ->
  getHistoricalContext host current candidates = Throw RangeError.
Proof. unfold getHistoricalContext, startOf. now intros ->. Qed.

Lemma generateActivityInsights_undated
      (host : Host) (config : Config) (a : GarminActivity)
      (all : list GarminActivity) (w : World) :
  isAIInsightsEnabled config = true ->
  startOf host a = None ->
  (1 < length all)%nat ->
  generateActivityInsights host config a (Some all) w = (Throw RangeError, w).
Proof.
  intros He Hd Hl. unfold generateActivityInsights. rewrite He. cbn [negb].
  apply Nat.ltb_lt in Hl. rewrite Hl.
  unfold bind, liftRes. now rewrite getHistoricalContext_undated.
Qed.

(** X14.  An activity whose [startTimeLocal] cannot be read as a date,
    handed over with a list of two or more activities: the trend context
    throws a [RangeError], [generateActivityInsights] throws it too,
    before any model call, and [processActivityWithInsights] catches it
    and returns null; no model is called and nothing is posted. *)
Theorem undated_activity_gets_no_insight
        (host : Host) (config : Config) (a : GarminActivity)
        (all : list GarminActivity) (c : option GarminClientType)
        (force : bool) (w : World) :
  isAIInsightsEnabled config = true ->
  startOf host a = None ->
  (1 < length all)%nat ->
  getHistoricalContext host a all = Throw RangeError
  /\ generateActivityInsights host config a (Some all) w = (Throw RangeError, w)
  /\ (let run := processActivityWithInsights host config a c (Some all) force w in
      fst run = Ok None
      /\ history generation (snd run) = history generation w
      /\ history remoteWrites (snd run) = history remoteWrites w).
Proof.
  intros He Hd Hl.
  split; [now apply getHistoricalContext_undated|].
  split; [now apply generateActivityInsights_undated|].
  cbv zeta. unfold processActivityWithInsights. rewrite He. cbn [negb].
  unfold tryCatch, bind.
  destruct (initAIInsightsTable w) as [[[]|e] wa] eqn:Ea;
    along Ea (@initAIInsightsTable_trace generation eq_refl eq_refl);
    along Ea (@initAIInsightsTable_trace remoteWrites eq_refl eq_refl);
    unfold Frame in *; [|cbn; auto].
  match goal with |- context [?m wa] =>
    match m with
    | (if negb force then _ else _) =>
        assert (Hb : history generation (snd (m wa)) = history generation wa
                     /\ history remoteWrites (snd (m wa)) = history remoteWrites wa);
        [|destruct (m wa) as [[b|e] wb] eqn:Eb]
    end
  end.
  { destruct force; cbn [negb]; [split; reflexivity|]. split.
    - apply (@hasAIInsight_trace generation _ eq_refl wa).
    - apply (@hasAIInsight_trace remoteWrites _ eq_refl wa). }
  - cbn [snd] in Hb. destruct Hb as [Hb1 Hb2].
    destruct b; [cbn; split; [reflexivity | split; congruence]|].
    rewrite (generateActivityInsights_undated host config a all wb He Hd Hl).
    cbn. split; [reflexivity | split; congruence].
  - cbn [snd] in Hb. destruct Hb as [Hb1 Hb2]. cbn. split; [reflexivity | split; congruence].
Qed.

Lemma undated_activity_gets_no_insight_witness :
  let all := [run_undated; run_yesterday] in
  startOf sampleHost run_undated = None
  /\ getHistoricalContext sampleHost run_undated all = Throw RangeError
  /\ fst (processActivityWithInsights sampleHost onConfig run_undated (Some GarminClient)
            (Some all) false answeringWorld) = Ok None
  /\ fst (processActivityWithInsights sampleHost onConfig run_undated (Some GarminClient)
            None false answeringWorld)
     = Ok (Some (mkResult "Steady aerobic effort." GEMINI_MODEL (Num 0.85))).
Proof.
  intros all. split; [reflexivity|].
  destruct (@undated_activity_gets_no_insight sampleHost onConfig run_undated all
              (Some GarminClient) false answeringWorld eq_refl eq_refl)
    as (H1 & _ & H3 & _).
  - cbn. lia.
  - split; [exact H1 | split; [exact H3|]]. vm_compute. reflexivity.
Defined.

(** ** One activity *)

Lemma StoredSame_refl (w : World) : StoredSame w w.
Proof. now intros id. Qed.

Lemma StoredSame_trans (a b c : World) : StoredSame a b -> StoredSame b c -> StoredSame a c.
Proof. unfold StoredSame. intros H1 H2 id. now rewrite H2, H1. Qed.

Lemma Frame_table_StoredSame (w w' : World) : Frame table w w' -> StoredSame w w'.
Proof. unfold Frame, StoredSame, storedInsightOf. now intros ->. Qed.

Lemma Steps_table_StoredSame {A} (m : M A) : Steps (Frame table) m -> Steps StoredSame m.
Proof. intros H w. apply Frame_table_StoredSame, H. Qed.

Lemma find_fillDefault (id c : string) (l : list AIInsightRecord) :
  option_map r_insight
    (find (fun r => String.eqb (r_activityId r) id) (map (fillDefault c) l))
  = option_map r_insight (find (fun r => String.eqb (r_activityId r) id) l).
Proof.
  induction l as [|r l IH]; [reflexivity|].
  cbn [map find]. destruct (fillDefault_keeps c r) as (_ & -> & _ & Hi).
  destruct (String.eqb (r_activityId r) id); [cbn; now rewrite Hi | exact IH].
Qed.

Lemma alterTableAddColumn_stored (m : Migration) : Steps StoredSame (alterTableAddColumn m).
Proof.
  intros w. unfold alterTableAddColumn, sqlError, emit, modify, throw, bind, gets.
  destruct (dbStep w) as [[[]|e] w1] eqn:E1; along E1 dbStep_table;
    [|now apply Frame_table_StoredSame].
  unfold StoredSame, storedInsightOf. unfold Frame in F. rewrite <- F.
  destruct (table w1) as [t|] eqn:Ht; [|intros id; cbn; now rewrite Ht].
  destruct (negb _); [intros id; cbn; now rewrite Ht|].
  destruct (hasColumn (mg_column m) t); intros id; cbn; rewrite ?Ht; [reflexivity|].
  apply find_fillDefault.
Qed.

Lemma createTable_stored : Steps StoredSame createTable.
Proof.
  intros w. unfold createTable, sqlError, emit, modify, throw, bind, gets.
  destruct (dbStep w) as [[[]|e] w1] eqn:E1; along E1 dbStep_table;
    [|now apply Frame_table_StoredSame].
  unfold StoredSame, storedInsightOf. unfold Frame in F. rewrite <- F.
  destruct (table w1) as [t|] eqn:Ht; intros id; cbn; rewrite ?Ht; reflexivity.
Qed.

Lemma initAIInsightsTable_stored : Steps StoredSame initAIInsightsTable.
Proof.
  pose proof alterTableAddColumn_stored.
  pose proof createTable_stored.
  pose proof (Steps_table_StoredSame dbStep_table).
  pose proof (fun c => Steps_table_StoredSame (columnExists_table c)).
  unfold initAIInsightsTable, runMigrations, migrations, getDB.
  repeat first
    [ assumption
    | solve [auto]
    | apply Steps_ret; exact StoredSame_refl
    | apply Steps_gets; exact StoredSame_refl
    | apply Steps_bind; [exact StoredSame_trans | | intro]
    | split_scrutinee ].
Qed.

(** A [saveAIInsight] that throws has written nothing. *)
Lemma saveAIInsight_thrown (data : AIInsightData) (w : World) (e : JsError) (w' : World) :
  saveAIInsight data w = (Throw e, w') -> table w' = table w.
Proof.
  intros E. unfold saveAIInsight, getDB, bind in E.
  destruct (dbStep w) as [[[]|e1] w1] eqn:E1; along E1 dbStep_table;
    [|injection E as _ <-; exact F].
  destruct (dbStep w1) as [[[]|e2] w2] eqn:E2; along E2 dbStep_table;
    unfold Frame in *; [|injection E as _ <-; congruence].
  cbv beta iota delta [gets Date_now] in E.
  destruct (table w2) as [t|] eqn:Ht.
  - destruct (hasColumns INSERT_COLUMNS t); cbn in E; [discriminate|].
    injection E as _ <-. cbn. congruence.
  - cbn in E. injection E as _ <-. cbn. congruence.
Qed.

Lemma saveAIInsight_stored (data : AIInsightData) (w w' : World) :
  saveAIInsight data w = (Ok tt, w') ->
  storedInsightOf (d_activityId data) w' = Some (d_insight data).
Proof.
  intros E. apply saveAIInsight_inv in E. destruct E as (t & now & _ & _ & Ht').
  unfold storedInsightOf. rewrite Ht'. cbn. now rewrite String.eqb_refl.
Qed.

Section OneActivity.

Variable host : Host.
Variable config : Config.

(** The check of the store at the start of [processActivityWithInsights]. *)
Lemma existing_check_unchanged (id : string) (force : bool) (w : World) :
  let check := (if negb force then hasAIInsight id else ret false) w in
  table (snd check) = table w
  /\ history remoteWrites (snd check) = history remoteWrites w.
Proof.
  destruct force; cbn [negb]; [split; reflexivity|]. split.
  - apply hasAIInsight_table.
  - apply (@hasAIInsight_trace remoteWrites id eq_refl w).
Qed.

Lemma processActivityWithInsights_store_effect
      (a : GarminActivity) (c : option GarminClientType)
      (all : option (list GarminActivity)) (force : bool) (w : World) :
  let run := processActivityWithInsights host config a c all force w in
  (forall r, fst run = Ok (Some r) ->
             storedInsightOf (String_ (activityId a)) (snd run) = Some (insight r))
  /\ (fst run = Ok None ->
      StoredSame w (snd run)
      /\ history remoteWrites (snd run) = history remoteWrites w).
Proof.
  cbv zeta. unfold processActivityWithInsights.
  destruct (negb (isAIInsightsEnabled config)).
  { cbn. split; [discriminate|]. intros _. split; [apply StoredSame_refl | reflexivity]. }
  unfold tryCatch, bind.
  destruct (initAIInsightsTable w) as [[[]|e] wa] eqn:Ea;
    along Ea initAIInsightsTable_stored;
    along Ea (@initAIInsightsTable_trace remoteWrites eq_refl eq_refl);
    unfold Frame in *.
  2:{ cbn. split; [discriminate|]. intros _. split; assumption. }
  destruct (existing_check_unchanged (String_ (activityId a)) force wa) as [Tb Rb].
  cbv zeta in Tb, Rb.
  destruct ((if negb force then hasAIInsight (String_ (activityId a)) else ret false) wa)
    as [[b|e] wb]; cbn [snd] in Tb, Rb.
  2:{ cbn. split; [discriminate|]. intros _. split; [|congruence].
      eapply StoredSame_trans; [exact F|]. now apply Frame_table_StoredSame. }
  assert (Sb : StoredSame w wb)
    by (eapply StoredSame_trans; [exact F|]; now apply Frame_table_StoredSame).
  destruct b.
  { cbn. split; [discriminate|]. intros _. split; [exact Sb | congruence]. }
  destruct (generateActivityInsights host config a all wb) as [[res|e] wc] eqn:Ec;
    along Ec (generateActivityInsights_table host config a all);
    along Ec (@generateActivityInsights_trace host config remoteWrites a all
                eq_refl eq_refl eq_refl eq_refl eq_refl);
    unfold Frame in *.
  2:{ cbn. split; [discriminate|]. intros _. split; [|congruence].
      eapply StoredSame_trans; [exact Sb|]. now apply Frame_table_StoredSame. }
  assert (Sc : StoredSame w wc)
    by (eapply StoredSame_trans; [exact Sb|]; now apply Frame_table_StoredSame).
  destruct res as [res|].
  2:{ cbn. split; [discriminate|]. intros _. split; [exact Sc | congruence]. }
  destruct (saveAIInsight _ wc) as [[[]|e] wd] eqn:Ed.
  2:{ along Ed (@saveAIInsight_trace remoteWrites
                  (mkData (String_ (activityId a)) (activityName a) (insight res)
                          (model res) (confidence res)) eq_refl eq_refl).
      apply saveAIInsight_thrown in Ed. unfold Frame in *.
      cbn. split; [discriminate|]. intros _. split; [|congruence].
      eapply StoredSame_trans; [exact Sc|]. now apply Frame_table_StoredSame. }
  apply saveAIInsight_stored in Ed. cbn [d_activityId d_insight] in Ed.
  destruct c as [client|].
  - destruct (addActivityComment_returns (String_ (activityId a))
                (commentFor host (model res) (confidence res) (insight res))
                client force wd) as [ok Hok].
    pose proof (addActivityComment_table (String_ (activityId a))
                  (commentFor host (model res) (confidence res) (insight res))
                  client force wd) as Te.
    destruct (addActivityComment _ _ client force wd) as [[ok'|e] we];
      cbn [fst snd] in *; [|discriminate].
    cbn. split; [|discriminate]. intros r Hr. injection Hr as <-.
    unfold Frame in Te. unfold storedInsightOf in *. now rewrite Te.
  - cbn. split; [|discriminate]. intros r Hr. injection Hr as <-. exact Ed.
Qed.

(** X15.  [processActivityWithInsights] returns an insight only after
    it has saved it: when it returns one, the store holds that insight
    for the activity, whether the post to the remote activity succeeded
    or not; and when it returns null, every insight in the store is the
    one that was there and nothing was posted. *)
Theorem processActivityWithInsights_stores_what_it_returns
        (a : GarminActivity) (c : option GarminClientType)
        (all : option (list GarminActivity)) (force : bool) (w : World) :
  let run := processActivityWithInsights host config a c all force w in
  (forall r, fst run = Ok (Some r) ->
             storedInsightOf (String_ (activityId a)) (snd run) = Some (insight r))
  /\ (fst run = Ok None ->
      StoredSame w (snd run)
      /\ history remoteWrites (snd run) = history remoteWrites w).
Proof. apply processActivityWithInsights_store_effect. Qed.

End OneActivity.

(** A remote service that refuses the post does not cost the insight. *)
Lemma processActivityWithInsights_stores_what_it_returns_witness :
  let w := mkWorld None [] [("100", mkRemote "Morning Run" None)] [Answered; Refused]
                   [ReplyText "Steady aerobic effort. [CONFIDENCE: 0.85]"] [] NOON 0 [] in
  let run := processActivityWithInsights sampleHost onConfig run_today (Some GarminClient)
               None false w in
  fst run = Ok (Some (mkResult "Steady aerobic effort." GEMINI_MODEL (Num 0.85)))
  /\ descriptionAt "100" (snd run) = EmptyString
  /\ storedInsightOf "100" (snd run) = Some "Steady aerobic effort.".
Proof.
  intros w run.
  assert (E : fst run = Ok (Some (mkResult "Steady aerobic effort." GEMINI_MODEL
                                           (Num 0.85))))
    by (vm_compute; reflexivity).
  split; [exact E | split; [vm_compute; reflexivity|]].
  exact (proj1 (@processActivityWithInsights_stores_what_it_returns sampleHost onConfig
                  run_today (Some GarminClient) None false w) _ E).
Defined.

(** ** What the steps leave alone *)

Ltac leaf_for obs :=
  unfold Frame, obs; intros; cbn;
  repeat match goal with
         | |- context [match ?x with _ => _ end] => destruct x; cbn
         end;
  reflexivity.

Ltac frame_for obs :=
  repeat first
    [ solve [auto 2]
    | apply Steps_ret; exact (@Frame_refl _ _)
    | apply Steps_throw; exact (@Frame_refl _ _)
    | apply Steps_gets; exact (@Frame_refl _ _)
    | apply Steps_liftRes; exact (@Frame_refl _ _)
    | apply Steps_bind; [exact (@Frame_trans _ _) | | intro]
    | apply Steps_tryCatch; [exact (@Frame_trans _ _) | | intro]
    | apply Steps_modify; solve [leaf_for obs]
    | split_scrutinee ].

Section AccountFrames.

Lemma dbStep_account : Steps (Frame account) dbStep.
Proof. unfold dbStep, elapse, emit. frame_for account. Qed.

Lemma sleep_account (ms : Z) : Steps (Frame account) (sleep ms).
Proof. unfold sleep, elapse, emit. frame_for account. Qed.

Lemma initAIInsightsTable_account : Steps (Frame account) initAIInsightsTable.
Proof.
  pose proof dbStep_account.
  unfold initAIInsightsTable, createTable, runMigrations, migrations, columnExists,
    alterTableAddColumn, getDB, sqlError, emit, Date_now.
  frame_for account.
Qed.

Lemma hasAIInsight_account (id : string) : Steps (Frame account) (hasAIInsight id).
Proof.
  pose proof dbStep_account.
  unfold hasAIInsight, getAIInsight, getDB, sqlError, emit. frame_for account.
Qed.

Lemma saveAIInsight_account (data : AIInsightData) : Steps (Frame account) (saveAIInsight data).
Proof.
  pose proof dbStep_account.
  unfold saveAIInsight, getDB, sqlError, emit, Date_now. frame_for account.
Qed.

Lemma generateAttempts_account (n : nat) (k : Z) : Steps (Frame account) (generateAttempts n k).
Proof.
  pose proof sleep_account.
  revert k. induction n as [|n IH]; intros k.
  - apply Steps_ret. exact (@Frame_refl _ _).
  - rewrite generateAttempts_S.
    unfold waitForRateLimit, generateContent, elapse, emit, Date_now.
    frame_for account.
Qed.

Lemma generateActivityInsights_account (host : Host) (config : Config)
      (a : GarminActivity) (all : option (list GarminActivity)) :
  Steps (Frame account) (generateActivityInsights host config a all).
Proof.
  pose proof generateAttempts_account.
  unfold generateActivityInsights, emit. frame_for account.
Qed.

End AccountFrames.

Section NoClient.

Variable host : Host.
Variable config : Config.

Lemma processActivityWithInsights_no_client
      (a : GarminActivity) (all : option (list GarminActivity)) (force : bool) :
  Steps (Frame account) (processActivityWithInsights host config a None all force)
  /\ Steps (Frame (history remoteReads))
           (processActivityWithInsights host config a None all force).
Proof.
  split.
  - pose proof initAIInsightsTable_account. pose proof hasAIInsight_account.
    pose proof saveAIInsight_account.
    pose proof (generateActivityInsights_account host config).
    unfold processActivityWithInsights. frame_for account.
  - pose proof (@initAIInsightsTable_trace remoteReads eq_refl eq_refl).
    pose proof (fun id => @hasAIInsight_trace remoteReads id eq_refl).
    pose proof (fun d => @saveAIInsight_trace remoteReads d eq_refl eq_refl).
    pose proof (fun a all => @generateActivityInsights_trace host config remoteReads a all
                               eq_refl eq_refl eq_refl eq_refl eq_refl).
    unfold processActivityWithInsights. frame.
Qed.

Lemma processEach_no_client (all todo : list GarminActivity) (n : Z) :
  Steps (Frame account) (processEach host config all None todo n)
  /\ Steps (Frame (history remoteReads)) (processEach host config all None todo n).
Proof.
  revert n. induction todo as [|a todo IH]; intros n; cbn [processEach].
  - split; apply Steps_ret; exact (@Frame_refl _ _).
  - split.
    + pose proof hasAIInsight_account. pose proof sleep_account.
      pose proof (fun a all force =>
                    proj1 (processActivityWithInsights_no_client a all force)).
      pose proof (fun n => proj1 (IH n)).
      frame_for account.
    + pose proof (fun id => @hasAIInsight_trace remoteReads id eq_refl).
      pose proof (fun ms => @sleep_trace remoteReads ms eq_refl).
      pose proof (fun a all force =>
                    proj2 (processActivityWithInsights_no_client a all force)).
      pose proof (fun n => proj2 (IH n)).
      frame.
Qed.

(** X16.  Without a client the engine leaves the remote account alone:
    [processActivityWithInsights] and [processActivitiesWithInsights]
    called without one send no request, neither a read nor a post, and
    the account is as it was. *)
Theorem no_client_no_remote_request (w : World) :
  (forall a all force,
      let run := processActivityWithInsights host config a None all force w in
      history remoteReads (snd run) = history remoteReads w
      /\ activities (snd run) = activities w
      /\ remoteFaults (snd run) = remoteFaults w)
  /\ (forall acts,
         let run := processActivitiesWithInsights host config acts None w in
         history remoteReads (snd run) = history remoteReads w
         /\ activities (snd run) = activities w
         /\ remoteFaults (snd run) = remoteFaults w).
Proof.
  split.
  - intros a all force run.
    destruct (processActivityWithInsights_no_client a all force) as [H1 H2].
    specialize (H1 w). specialize (H2 w). fold run in H1, H2.
    unfold Frame, account in *. injection H1 as Ha Hf. auto.
  - intros acts run.
    assert (H : Steps (Frame account) (processActivitiesWithInsights host config acts None)
                /\ Steps (Frame (history remoteReads))
                         (processActivitiesWithInsights host config acts None)).
    { split.
      - pose proof initAIInsightsTable_account.
        pose proof (fun all todo n => proj1 (processEach_no_client all todo n)).
        unfold processActivitiesWithInsights. frame_for account.
      - pose proof (@initAIInsightsTable_trace remoteReads eq_refl eq_refl).
        pose proof (fun all todo n => proj2 (processEach_no_client all todo n)).
        unfold processActivitiesWithInsights. frame. }
    destruct H as [H1 H2]. specialize (H1 w). specialize (H2 w). fold run in H1, H2.
    unfold Frame, account in *. injection H1 as Ha Hf. auto.
Qed.

End NoClient.

(** ** Counting what a sweep saved *)

Section SaveFrames.

Lemma dbStep_saves : Steps (Frame saves) dbStep.
Proof. unfold dbStep, elapse, emit. frame_for saves. Qed.

Lemma sleep_saves (ms : Z) : Steps (Frame saves) (sleep ms).
Proof. unfold sleep, elapse, emit. frame_for saves. Qed.

Lemma initAIInsightsTable_saves : Steps (Frame saves) initAIInsightsTable.
Proof.
  pose proof dbStep_saves.
  unfold initAIInsightsTable, createTable, runMigrations, migrations, columnExists,
    alterTableAddColumn, getDB, sqlError, emit, Date_now.
  frame_for saves.
Qed.

Lemma hasAIInsight_saves (id : string) : Steps (Frame saves) (hasAIInsight id).
Proof.
  pose proof dbStep_saves.
  unfold hasAIInsight, getAIInsight, getDB, sqlError, emit. frame_for saves.
Qed.

Lemma generateAttempts_saves (n : nat) (k : Z) : Steps (Frame saves) (generateAttempts n k).
Proof.
  pose proof sleep_saves.
  revert k. induction n as [|n IH]; intros k.
  - apply Steps_ret. exact (@Frame_refl _ _).
  - rewrite generateAttempts_S.
    unfold waitForRateLimit, generateContent, elapse, emit, Date_now.
    frame_for saves.
Qed.

Lemma generateActivityInsights_saves (host : Host) (config : Config)
      (a : GarminActivity) (all : option (list GarminActivity)) :
  Steps (Frame saves) (generateActivityInsights host config a all).
Proof.
  pose proof generateAttempts_saves.
  unfold generateActivityInsights, emit. frame_for saves.
Qed.

Lemma addActivityComment_saves (id comment : string) (c : GarminClientType) (force : bool) :
  Steps (Frame saves) (addActivityComment id comment c force).
Proof.
  unfold addActivityComment, client_getActivity, client_post, remoteStep, elapse, emit.
  frame_for saves.
Qed.

(** A save writes one row when it returns and none when it throws. *)
Lemma saveAIInsight_saves (data : AIInsightData) (w : World) :
  saves (snd (saveAIInsight data w))
  = match fst (saveAIInsight data w) with
    | Ok _ => EvSqlWrite (InsertOrReplace (d_activityId data)) :: saves w
    | Throw _ => saves w
    end.
Proof.
  unfold saveAIInsight, getDB, sqlError, emit, modify, throw, bind.
  destruct (dbStep w) as [[[]|e1] w1] eqn:E1; along E1 dbStep_saves; [|exact F].
  destruct (dbStep w1) as [[[]|e2] w2] eqn:E2; along E2 dbStep_saves;
    unfold Frame in *; [|cbn; congruence].
  cbv beta iota delta [gets Date_now].
  destruct (table w2) as [t|]; [|unfold saves in *; cbn; congruence].
  destruct (hasColumns INSERT_COLUMNS t); unfold saves in *; cbn; congruence.
Qed.

End SaveFrames.

Section Counting.

Variable host : Host.
Variable config : Config.

(** One call saves one row when it returns an insight, and none when it
    returns null. *)
Lemma processActivityWithInsights_saves
      (a : GarminActivity) (c : option GarminClientType)
      (all : option (list GarminActivity)) (force : bool) (w : World) :
  let run := processActivityWithInsights host config a c all force w in
  exists r,
    fst run = Ok r
    /\ saves (snd run)
       = match r with
         | Some _ => EvSqlWrite (InsertOrReplace (String_ (activityId a))) :: saves w
         | None => saves w
         end.
Proof.
  cbv zeta. unfold processActivityWithInsights.
  destruct (negb (isAIInsightsEnabled config)); [now exists None|].
  unfold tryCatch, bind.
  destruct (initAIInsightsTable w) as [[[]|e] wa] eqn:Ea;
    along Ea initAIInsightsTable_saves; unfold Frame in *;
    [|now exists None].
  assert (Hb : saves (snd ((if negb force then hasAIInsight (String_ (activityId a))
                            else ret false) wa)) = saves wa)
    by (destruct force; cbn [negb]; [reflexivity | apply hasAIInsight_saves]).
  destruct ((if negb force then hasAIInsight (String_ (activityId a)) else ret false) wa)
    as [[b|e] wb]; cbn [snd] in Hb; [|exists None; cbn; split; congruence].
  destruct b; [exists None; cbn; split; congruence|].
  destruct (generateActivityInsights host config a all wb) as [[res|e] wc] eqn:Ec;
    along Ec (generateActivityInsights_saves host config a all); unfold Frame in *;
    [|exists None; cbn; split; congruence].
  destruct res as [res|]; [|exists None; cbn; split; congruence].
  match goal with |- context [saveAIInsight ?d wc] =>
    pose proof (saveAIInsight_saves d wc) as Hs;
    destruct (saveAIInsight d wc) as [[[]|e] wd]
  end; cbn [fst snd d_activityId] in Hs; [|exists None; cbn; split; congruence].
  destruct c as [client|].
  - destruct (addActivityComment_returns (String_ (activityId a))
                (commentFor host (model res) (confidence res) (insight res))
                client force wd) as [ok Hok].
    pose proof (addActivityComment_saves (String_ (activityId a))
                  (commentFor host (model res) (confidence res) (insight res))
                  client force wd) as He.
    destruct (addActivityComment _ _ client force wd) as [[ok'|e] we];
      cbn [fst snd] in *; [|discriminate].
    exists (Some res). cbn. unfold Frame in He. split; congruence.
  - exists (Some res). cbn. split; congruence.
Qed.

Lemma processEach_count (all : list GarminActivity) (c : option GarminClientType)
      (todo : list GarminActivity) :
  forall n w n' w',
    processEach host config all c todo n w = (Ok n', w') ->
    (n <= n' <= n + Z.of_nat (length todo))%Z
    /\ (n' - n)%Z = (Z.of_nat (length (saves w')) - Z.of_nat (length (saves w)))%Z.
Proof.
  induction todo as [|a todo IH]; intros n w n' w' E.
  - cbn in E. injection E as <- <-. split; [cbn; lia | lia].
  - cbn [processEach] in E. unfold bind at 1 in E.
    destruct (hasAIInsight _ w) as [[b|e] w1] eqn:E1; [|discriminate].
    along E1 (hasAIInsight_saves (String_ (activityId a))). unfold Frame in F.
    cbn [length]. rewrite Nat2Z.inj_succ.
    destruct b.
    + apply IH in E. rewrite F in E. lia.
    + unfold bind at 1 in E.
      destruct (processActivityWithInsights_saves a c (Some all) false w1)
        as (r & Hr & Hs). cbv zeta in Hr, Hs.
      destruct (processActivityWithInsights host config a c (Some all) false w1)
        as [[r'|e] w2]; cbn [fst snd] in Hr, Hs; [|discriminate].
      injection Hr as ->. destruct r as [res|].
      * unfold bind at 1 in E.
        pose proof (sleep_returns 500 w2) as Hsl.
        pose proof (sleep_saves 500 w2) as Fs.
        destruct (sleep 500 w2) as [[[]|e] w3]; cbn [fst snd] in Hsl, Fs; [|discriminate].
        unfold Frame in Fs. apply IH in E. rewrite Fs, Hs, F in E.
        cbn [length] in E. rewrite Nat2Z.inj_succ in E. lia.
      * apply IH in E. rewrite Hs, F in E. lia.
Qed.

(** X17.  The count [processActivitiesWithInsights] returns is the
    number of insights it saved during the sweep, at most one for each
    activity it was given. *)
Theorem processActivitiesWithInsights_count
        (acts : list GarminActivity) (c : option GarminClientType)
        (w : World) (n : Z) (w' : World) :
  processActivitiesWithInsights host config acts c w = (Ok n, w') ->
  (0 <= n <= Z.of_nat (length acts))%Z
  /\ n = (Z.of_nat (length (saves w')) - Z.of_nat (length (saves w)))%Z.
Proof.
  unfold processActivitiesWithInsights.
  destruct (negb (isAIInsightsEnabled config)).
  - intros E. injection E as <- <-. split; lia.
  - unfold bind. intros E.
    destruct (initAIInsightsTable w) as [[[]|e] wa] eqn:Ea; [|discriminate].
    along Ea initAIInsightsTable_saves. unfold Frame in F.
    apply processEach_count in E. rewrite F in E. lia.
Qed.

End Counting.

Lemma processActivitiesWithInsights_count_witness :
  let run := processActivitiesWithInsights sampleHost onConfig
               [run_today; run_yesterday] (Some GarminClient) answeringWorld in
  run = (Ok 1%Z, snd run)
  /\ saves (snd run) = [EvSqlWrite (InsertOrReplace "100")]
  /\ (0 <= 1 <= Z.of_nat (length [run_today; run_yesterday]))%Z
  /\ 1%Z = (Z.of_nat (length (saves (snd run)))
            - Z.of_nat (length (saves answeringWorld)))%Z.
Proof.
  intros run.
  assert (E : run = (Ok 1%Z, snd run)) by (vm_compute; reflexivity).
  split; [exact E | split; [vm_compute; reflexivity|]].
  exact (@processActivitiesWithInsights_count sampleHost onConfig
           [run_today; run_yesterday] (Some GarminClient) answeringWorld 1%Z _ E).
Defined.

(** ** A store that cannot be opened *)

Lemma dbStep_fails (w : World) :
  hd false (dbFaults w) = true -> fst (dbStep w) = Throw SqliteError.
Proof.
  unfold dbStep, elapse, bind, gets, modify, emit, throw.
  destruct (ticks w); cbn; destruct (dbFaults w) as [|[|] fs]; cbn; congruence.
Qed.

(** X18.  Unlike [processActivityWithInsights], the two sweeps do not
    catch a failure of the store: when the database file cannot be
    opened, [processActivitiesWithInsights] (with the feature enabled)
    and [syncMissingInsightsToGarmin] throw, having sent no request to
    the remote service and called no model. *)
Theorem sweeps_throw_when_store_fails
        (host : Host) (config : Config) (acts : list GarminActivity)
        (c : option GarminClientType) (client : GarminClientType) (w : World) :
  hd false (dbFaults w) = true ->
  (isAIInsightsEnabled config = true ->
   let run := processActivitiesWithInsights host config acts c w in
   fst run = Throw SqliteError
   /\ history remoteReads (snd run) = history remoteReads w
   /\ history generation (snd run) = history generation w)
  /\ (let run := syncMissingInsightsToGarmin host client w in
      fst run = Throw SqliteError
      /\ history remoteReads (snd run) = history remoteReads w
      /\ history generation (snd run) = history generation w).
Proof.
  intros Hf.
  assert (Hi : fst (initAIInsightsTable w) = Throw SqliteError).
  { unfold initAIInsightsTable, getDB, bind.
    pose proof (dbStep_fails w Hf) as H.
    destruct (dbStep w) as [[[]|e] w1]; cbn [fst] in H; [discriminate|].
    injection H as ->. reflexivity. }
  pose proof (@initAIInsightsTable_trace remoteReads eq_refl eq_refl w) as H1.
  pose proof (@initAIInsightsTable_trace generation eq_refl eq_refl w) as H2.
  unfold Frame in *. split.
  - intros He. cbv zeta. unfold processActivitiesWithInsights. rewrite He.
    cbn [negb]. unfold bind.
    destruct (initAIInsightsTable w) as [[[]|e] w1]; cbn [fst snd] in *;
      [discriminate|].
    injection Hi as ->. auto.
  - cbv zeta. unfold syncMissingInsightsToGarmin, bind.
    destruct (initAIInsightsTable w) as [[[]|e] w1]; cbn [fst snd] in *;
      [discriminate|].
    injection Hi as ->. auto.
Qed.

Lemma sweeps_throw_when_store_fails_witness :
  fst (processActivitiesWithInsights sampleHost onConfig [run_today] (Some GarminClient)
         brokenStoreWorld) = Throw SqliteError
  /\ fst (syncMissingInsightsToGarmin sampleHost GarminClient brokenStoreWorld)
     = Throw SqliteError
  /\ fst (processActivityWithInsights sampleHost onConfig run_today (Some GarminClient)
            None false brokenStoreWorld) = Ok None.
Proof.
  destruct (@sweeps_throw_when_store_fails sampleHost onConfig [run_today]
              (Some GarminClient) GarminClient brokenStoreWorld eq_refl) as [H1 H2].
  split; [apply (H1 eq_refl) | split; [apply H2 | reflexivity]].
Defined.

(** ** The reconciliation sweep *)

Lemma hasActivityInsight_table (id : string) (c : GarminClientType) :
  Steps (Frame table) (hasActivityInsight id c).
Proof.
  unfold hasActivityInsight, client_getActivity, remoteStep, emit. frame.
Qed.

Lemma storeHas_storedIds (id : string) (w : World) :
  storeHas id w = true <-> In id (storedIds w).
Proof.
  unfold storeHas, storedIds. destruct (table w) as [t|]; [|split; [discriminate | intros []]].
  rewrite existsb_exists, in_map_iff. split.
  - intros (r & Hr & E). apply String.eqb_eq in E. eauto.
  - intros (r & E & Hr). exists r. split; [exact Hr|]. subst id. apply String.eqb_refl.
Qed.

Lemma initAIInsightsTable_storedIds (w w' : World) :
  initAIInsightsTable w = (Ok tt, w') ->
  storedIds w' = storedIds w /\ storedCount w' = storedCount w.
Proof.
  intros E. apply initAIInsightsTable_result in E.
  destruct E as (t' & Ht' & _ & H). unfold storedIds, storedCount. rewrite Ht'.
  destruct (table w) as [t|].
  - destruct H as (_ & Hid & Hids & _). split; [exact Hids|].
    rewrite <- (length_map r_id (rows t')), Hid. apply length_map.
  - subst t'. split; reflexivity.
Qed.

Lemma getAllAIInsights_inv (w : World) (l : list AIInsightRecord) (w' : World) :
  getAllAIInsights w = (Ok l, w') ->
  Permutation (map r_activityId l) (storedIds w)
  /\ length l = storedCount w
  /\ table w' = table w.
Proof.
  intros E. unfold getAllAIInsights, getDB, bind in E.
  destruct (dbStep w) as [[[]|e] w1] eqn:E1; [|discriminate].
  destruct (dbStep w1) as [[[]|e] w2] eqn:E2; [|discriminate].
  apply dbStep_inv in E1, E2. destruct E1 as (T1 & _), E2 as (T2 & _).
  cbv beta iota delta [gets] in E. unfold storedIds, storedCount.
  rewrite <- T1, <- T2.
  destruct (table w2) as [t|] eqn:Ht; [|discriminate].
  match type of E with context [if ?c then _ else _] => destruct c end;
    [|discriminate].
  unfold ret in E. injection E as <- <-.
  split; [apply Permutation_map, sortDesc_perm|].
  split; [apply Permutation_length, sortDesc_perm | congruence].
Qed.

Lemma markerAt_same (id : string) (w w' : World) :
  activities w' = activities w ->
  markerAt id w' = markerAt id w /\ remoteHas id w' = remoteHas id w.
Proof. unfold markerAt, descriptionAt, remoteHas. now intros ->. Qed.

Lemma commentFor_has_marker (host : Host) (m : string) (conf : number) (text d : string) :
  hasExistingInsight (appended d (commentFor host m conf text)) = true.
Proof.
  unfold hasExistingInsight, appended, commentFor.
  assert (H : includes PLAIN_MARKER
                (ROBOT_AS_WRITTEN ++ " AI Insights (" ++ m ++ ", " ++ toFixed0 host conf
                   ++ "% confidence):" ++ String LF text) = true).
  { exact (includes_app_r PLAIN_MARKER (ROBOT_AS_WRITTEN ++ " ")
             (PLAIN_MARKER ++ m ++ ", " ++ toFixed0 host conf
                ++ "% confidence):" ++ String LF text)
             (includes_self_app _ _ _)). }
  rewrite (includes_app_r _ d _ (includes_app_r _ _ _ H)). apply orb_true_r.
Qed.

(** What posting the comment of a record does to the account, when the
    remote service answers. *)
Lemma post_sets_marker (id : string) (a b : RemoteActivity)
      (l : list (string * RemoteActivity)) (w w' : World) :
  activities w = l ->
  lookupActivity id l = Some b ->
  hasExistingInsight (descriptionOrEmpty (ra_description a)) = true ->
  activities w' = storeActivity id a l ->
  markerAt id w' = true
  /\ (forall id', markerAt id' w = true -> markerAt id' w' = true)
  /\ (forall id', remoteHas id' w' = remoteHas id' w).
Proof.
  intros Hw Hl Ha Hw'. unfold markerAt, descriptionAt, remoteHas.
  rewrite Hw', Hw. split; [now rewrite (lookup_storeActivity id a l Hl)|]. split.
  - intros id'. destruct (String.eqb id' id) eqn:E.
    + apply String.eqb_eq in E. subst id'.
      now rewrite (lookup_storeActivity id a l Hl).
    + apply String.eqb_neq in E. now rewrite lookup_storeActivity_other.
  - intros id'. destruct (String.eqb id' id) eqn:E.
    + apply String.eqb_eq in E. subst id'.
      now rewrite (lookup_storeActivity id a l Hl), Hl.
    + apply String.eqb_neq in E. now rewrite lookup_storeActivity_other.
Qed.

Section Sweep.

Variable host : Host.

(** One turn of the loop of [syncMissingInsightsToGarmin] with a remote
    service that answers. *)
Lemma syncEach_turn (c : GarminClientType) (record : AIInsightRecord)
      (todo : list AIInsightRecord) (n : SyncCounts) (w : World) :
  remoteFaults w = [] ->
  let id := r_activityId record in
  exists n1 w1,
    syncEach host c (record :: todo) n w = syncEach host c todo n1 w1
    /\ remoteFaults w1 = []
    /\ table w1 = table w
    /\ markerAt id w1 = remoteHas id w
    /\ (forall id', markerAt id' w = true -> markerAt id' w1 = true)
    /\ (forall id', remoteHas id' w1 = remoteHas id' w)
    /\ (if (remoteHas id w && negb (markerAt id w))%bool
        then syncedCount n1 = (syncedCount n + 1)%Z
             /\ exists text,
                 history remoteWrites w1
                 = EvPostDescription id text :: history remoteWrites w
        else syncedCount n1 = syncedCount n
             /\ history remoteWrites w1 = history remoteWrites w
             /\ activities w1 = activities w).
Proof.
  intros Hf id.
  cbn [syncEach]. fold id. unfold bind at 1. unfold tryCatch at 1. unfold bind at 1.
  destruct (hasActivityInsight_cases id c w) as (Ha & Ht & Hf1 & Hr).
  pose proof (hasActivityInsight_table id c w) as Tb1.
  cbv zeta in Ha, Ht, Hf1, Hr.
  unfold nextRemoteFails in Hr. rewrite Hf in Hr, Hf1. cbn [hd tl] in Hr, Hf1.
  destruct (hasActivityInsight id c w) as [[b|e] w1]; cbn [fst snd] in *;
    [|discriminate].
  injection Hr as ->. unfold Frame in Tb1.
  destruct (markerAt_same id w w1 Ha) as [Hm1 Hh1].
  destruct (markerAt id w) eqn:Hm.
  - exists (mkCounts (syncedCount n) (skippedCount n + 1) (errorCount n)), w1.
    split; [reflexivity|]. split; [exact Hf1|]. split; [exact Tb1|].
    assert (Hhas : remoteHas id w = true).
    { unfold markerAt, descriptionAt, remoteHas in *.
      destruct (lookupActivity id (activities w)); [reflexivity | discriminate]. }
    split; [congruence|].
    split; [intros id' H; now rewrite (proj1 (markerAt_same id' w w1 Ha))|].
    split; [intros id'; apply (markerAt_same id' w w1 Ha)|].
    rewrite Hhas. cbn. auto.
  - set (comment := commentFor host (r_model record) (r_confidence record)
                               (r_insight record)).
    unfold bind at 1.
    pose proof (addActivityComment_cases id comment c false w1) as Hc.
    pose proof (addActivityComment_table id comment c false w1) as Tb2.
    cbv zeta in Hc. unfold nextRemoteFails in Hc. rewrite Hf1, Ha in Hc.
    cbn [hd tl] in Hc. unfold Frame in Tb2.
    destruct (lookupActivity id (activities w)) as [a|] eqn:Hl.
    + assert (He : hasExistingInsight (descriptionOrEmpty (ra_description a)) = false).
      { unfold markerAt, descriptionAt in Hm. now rewrite Hl in Hm. }
      rewrite He in Hc. cbn [andb] in Hc. destruct Hc as (Hw2 & Hf2 & Hr2 & Ha2).
      destruct (addActivityComment id comment c false w1) as [[ok|e] w2];
        cbn [fst snd] in *; [|discriminate].
      injection Hr2 as ->.
      unfold bind at 1.
      pose proof (sleep_returns 1000 w2) as Hs.
      pose proof (sleep_account 1000 w2) as Fs.
      pose proof (sleep_table 1000 w2) as Ts.
      pose proof (@sleep_trace remoteWrites 1000 eq_refl w2) as Ws.
      destruct (sleep 1000 w2) as [[[]|e] w3]; cbn [fst snd] in *; [|discriminate].
      unfold Frame, account in Fs, Ts, Ws. injection Fs as Fa Ff.
      exists (mkCounts (syncedCount n + 1) (skippedCount n) (errorCount n)), w3.
      split; [reflexivity|]. split; [congruence|]. split; [congruence|].
      destruct (@post_sets_marker id
                  (mkRemote (ra_activityName a)
                            (Some (appended (descriptionOrEmpty (ra_description a)) comment)))
                  a (activities w) w w3 eq_refl Hl) as (P1 & P2 & P3).
      { apply commentFor_has_marker. }
      { congruence. }
      assert (Hhas : remoteHas id w = true) by (unfold remoteHas; now rewrite Hl).
      split; [congruence|]. split; [exact P2|]. split; [exact P3|].
      rewrite Hhas. cbn. split; [reflexivity|]. eexists. rewrite Ws, Hw2, Ht. reflexivity.
    + destruct Hc as (Hr2 & Ha2 & Hw2 & Hf2).
      destruct (addActivityComment id comment c false w1) as [[ok|e] w2];
        cbn [fst snd] in *; [|discriminate].
      injection Hr2 as ->.
      unfold bind at 1.
      pose proof (sleep_returns 1000 w2) as Hs.
      pose proof (sleep_account 1000 w2) as Fs.
      pose proof (sleep_table 1000 w2) as Ts.
      pose proof (@sleep_trace remoteWrites 1000 eq_refl w2) as Ws.
      destruct (sleep 1000 w2) as [[[]|e] w3]; cbn [fst snd] in *; [|discriminate].
      unfold Frame, account in Fs, Ts, Ws. injection Fs as Fa Ff.
      exists (mkCounts (syncedCount n) (skippedCount n) (errorCount n + 1)), w3.
      assert (Ha3 : activities w3 = activities w) by congruence.
      assert (Hhas : remoteHas id w = false) by (unfold remoteHas; now rewrite Hl).
      split; [reflexivity|]. split; [congruence|]. split; [congruence|].
      split; [rewrite (proj1 (markerAt_same id w w3 Ha3)); congruence|].
      split; [intros id' H; now rewrite (proj1 (markerAt_same id' w w3 Ha3))|].
      split; [intros id'; apply (markerAt_same id' w w3 Ha3)|].
      rewrite Hhas. cbn. split; [reflexivity | split; congruence].
Qed.

Lemma syncEach_reconciles (c : GarminClientType) (todo : list AIInsightRecord) :
  forall n w,
    remoteFaults w = [] ->
    exists n' w',
      syncEach host c todo n w = (Ok n', w')
      /\ remoteFaults w' = []
      /\ table w' = table w
      /\ (forall id, markerAt id w = true -> markerAt id w' = true)
      /\ (forall id, remoteHas id w' = remoteHas id w)
      /\ (forall r, In r todo -> remoteHas (r_activityId r) w = true ->
                    markerAt (r_activityId r) w' = true)
      /\ (syncedCount n' - syncedCount n
          = Z.of_nat (length (history remoteWrites w'))
            - Z.of_nat (length (history remoteWrites w)))%Z
      /\ ((forall r, In r todo -> remoteHas (r_activityId r) w = true ->
                     markerAt (r_activityId r) w = true) ->
          activities w' = activities w
          /\ history remoteWrites w' = history remoteWrites w).
Proof.
  induction todo as [|record todo IH]; intros n w Hf.
  - exists n, w. cbn. repeat split; auto; try lia; try (intros r []).
  - destruct (@syncEach_turn c record todo n w Hf)
      as (n1 & w1 & E & Hf1 & T1 & Hm1 & Hmono1 & Hhas1 & Hcount).
    cbv zeta in E, Hm1, Hcount.
    destruct (IH n1 w1 Hf1) as (n' & w' & E' & Hf' & T' & Hmono & Hhas & Hall & Hc & Hsame).
    exists n', w'. split; [now rewrite E|]. split; [exact Hf'|].
    split; [congruence|].
    split; [intros id H; apply Hmono, Hmono1, H|].
    split; [intros id; now rewrite Hhas, Hhas1|]. split; [|split].
    + intros r [<-|Hr] Hrem.
      * apply Hmono. now rewrite Hm1.
      * apply Hall; [exact Hr | now rewrite Hhas1].
    + destruct (remoteHas (r_activityId record) w && negb (markerAt (r_activityId record) w))%bool.
      * destruct Hcount as [Hn [text Hw]]. rewrite Hw in Hc. cbn [length] in Hc.
        rewrite Nat2Z.inj_succ in Hc. lia.
      * destruct Hcount as (Hn & Hw & _). rewrite Hw in Hc. lia.
    + intros Hsettled.
      assert (Hskip : (remoteHas (r_activityId record) w
                       && negb (markerAt (r_activityId record) w))%bool = false).
      { destruct (remoteHas (r_activityId record) w) eqn:Hr; [|reflexivity].
        rewrite (Hsettled record (or_introl eq_refl) Hr). reflexivity. }
      rewrite Hskip in Hcount. destruct Hcount as (_ & Hw1 & Ha1).
      rewrite <- Ha1, <- Hw1. apply Hsame. intros r Hr Hrem.
      rewrite (proj1 (markerAt_same (r_activityId r) w w1 Ha1)).
      apply Hsettled; [now right|]. now rewrite <- Hhas1.
Qed.

Lemma getAllAIInsights_account : Steps (Frame account) getAllAIInsights.
Proof.
  pose proof dbStep_account.
  unfold getAllAIInsights, getDB, sqlError, emit. frame_for account.
Qed.

(** From the start of the sweep to its loop. *)
Lemma syncMissingInsightsToGarmin_inv (c : GarminClientType) (w : World) (n : Z) (w' : World) :
  syncMissingInsightsToGarmin host c w = (Ok n, w') ->
  exists l wb,
    Permutation (map r_activityId l) (storedIds w)
    /\ length l = storedCount w
    /\ activities wb = activities w
    /\ remoteFaults wb = remoteFaults w
    /\ history remoteWrites wb = history remoteWrites w
    /\ storedIds wb = storedIds w
    /\ match l with
       | [] => n = 0%Z /\ w' = wb
       | _ => exists n', syncEach host c l (mkCounts 0 0 0) wb = (Ok n', w')
                        /\ n = syncedCount n'
       end.
Proof.
  unfold syncMissingInsightsToGarmin, bind. intros E.
  pose proof (initAIInsightsTable_account w) as Aa.
  pose proof (@initAIInsightsTable_trace remoteWrites eq_refl eq_refl w) as Wa.
  destruct (initAIInsightsTable w) as [[[]|e] wa] eqn:Ea; [|discriminate].
  apply initAIInsightsTable_storedIds in Ea. destruct Ea as [Ia Ca].
  pose proof (getAllAIInsights_account wa) as Ab.
  pose proof (@getAllAIInsights_trace remoteWrites eq_refl wa) as Wb.
  destruct (getAllAIInsights wa) as [[l|e] wb] eqn:Eb; [|discriminate].
  apply getAllAIInsights_inv in Eb. destruct Eb as (Pb & Lb & Tb).
  cbn [snd] in *. unfold Frame, account in *.
  injection Aa as A1 F1. injection Ab as A2 F2.
  exists l, wb. rewrite Ia in Pb. rewrite Ca in Lb.
  split; [exact Pb|]. split; [exact Lb|].
  split; [congruence|]. split; [congruence|]. split; [congruence|].
  split; [unfold storedIds in *; now rewrite Tb|].
  destruct l as [|r l].
  - injection E as <- <-. auto.
  - destruct (syncEach host c (r :: l) (mkCounts 0 0 0) wb) as [[n'|e] w2];
      [|discriminate].
    injection E as <- <-. eauto.
Qed.

(** A sweep over a store all of whose activities carry the marker, or
    are not on the account, posts nothing. *)
Lemma syncMissingInsightsToGarmin_settled (c : GarminClientType) (w : World) :
  remoteFaults w = [] ->
  (forall id, In id (storedIds w) -> remoteHas id w = true -> markerAt id w = true) ->
  let run := syncMissingInsightsToGarmin host c w in
  activities (snd run) = activities w
  /\ history remoteWrites (snd run) = history remoteWrites w
  /\ (forall m, fst run = Ok m -> m = 0%Z).
Proof.
  intros Hf Hsettled. cbv zeta. unfold syncMissingInsightsToGarmin, bind.
  pose proof (initAIInsightsTable_account w) as Aa.
  pose proof (@initAIInsightsTable_trace remoteWrites eq_refl eq_refl w) as Wa.
  destruct (initAIInsightsTable w) as [[[]|e] wa] eqn:Ea; cbn [snd] in *;
    unfold Frame, account in Aa, Wa; injection Aa as A1 F1;
    [|cbn; split; [exact A1 | split; [exact Wa | discriminate]]].
  apply initAIInsightsTable_storedIds in Ea. destruct Ea as [Ia _].
  pose proof (getAllAIInsights_account wa) as Ab.
  pose proof (@getAllAIInsights_trace remoteWrites eq_refl wa) as Wb.
  destruct (getAllAIInsights wa) as [[l|e] wb] eqn:Eb; cbn [snd] in *;
    unfold Frame, account in Ab, Wb; injection Ab as A2 F2;
    [|cbn; split; [congruence | split; [congruence | discriminate]]].
  apply getAllAIInsights_inv in Eb. destruct Eb as (Pb & _ & _).
  assert (Hfb : remoteFaults wb = []) by congruence.
  assert (Hab : activities wb = activities w) by congruence.
  destruct l as [|r l].
  - cbn. split; [congruence | split; [congruence|]]. intros m H. now injection H.
  - destruct (@syncEach_reconciles c (r :: l) (mkCounts 0 0 0) wb Hfb)
      as (n' & w' & E & _ & _ & _ & _ & _ & Hc & Hsame).
    rewrite E. cbn [fst snd].
    assert (Hpre : forall x, In x (r :: l) -> remoteHas (r_activityId x) wb = true ->
                             markerAt (r_activityId x) wb = true).
    { intros x Hx Hrem.
      rewrite (proj1 (markerAt_same (r_activityId x) w wb Hab)).
      rewrite (proj2 (markerAt_same (r_activityId x) w wb Hab)) in Hrem.
      apply Hsettled; [|exact Hrem].
      rewrite <- Ia. eapply Permutation_in; [exact Pb|]. now apply in_map. }
    destruct (Hsame Hpre) as [Ha Hw]. unfold ret. cbn [fst snd].
    split; [congruence | split; [congruence|]].
    intros m H. injection H as <-. rewrite Hw in Hc. cbn in Hc. lia.
Qed.

(** X19.  With a remote service that answers, a sweep that returns has
    reconciled the account with the store: every activity the store has
    an insight for and the account has carries an insight marker in its
    description; the count returned is the number of descriptions
    posted; and the same sweep run again posts nothing, changes nothing
    on the account and, when it returns, returns 0. *)
Theorem syncMissingInsightsToGarmin_reconciles
        (c : GarminClientType) (w : World) (n : Z) (w' : World) :
  remoteFaults w = [] ->
  syncMissingInsightsToGarmin host c w = (Ok n, w') ->
  (forall id, storeHas id w = true -> remoteHas id w = true -> markerAt id w' = true)
  /\ n = (Z.of_nat (length (history remoteWrites w'))
          - Z.of_nat (length (history remoteWrites w)))%Z
  /\ (let again := syncMissingInsightsToGarmin host c w' in
      activities (snd again) = activities w'
      /\ history remoteWrites (snd again) = history remoteWrites w'
      /\ (forall m, fst again = Ok m -> m = 0%Z)).
Proof.
  intros Hf E. apply syncMissingInsightsToGarmin_inv in E.
  destruct E as (l & wb & Pb & _ & Ab & Fb & Wb & Ib & E).
  assert (Hfb : remoteFaults wb = []) by congruence.
  assert (Hmain : (forall id, In id (storedIds w) -> remoteHas id w = true ->
                              markerAt id w' = true)
                  /\ n = (Z.of_nat (length (history remoteWrites w'))
                          - Z.of_nat (length (history remoteWrites w)))%Z
                  /\ remoteFaults w' = []
                  /\ storedIds w' = storedIds w
                  /\ (forall id, remoteHas id w' = remoteHas id w)).
  { destruct l as [|r l].
    - destruct E as [-> ->]. split.
      + intros id Hin. apply (Permutation_in _ (Permutation_sym Pb)) in Hin.
        destruct Hin.
      + rewrite Wb. split; [lia|]. split; [exact Hfb | split; [exact Ib|]].
        intros id. apply (markerAt_same id w wb Ab).
    - destruct E as (n' & E & ->).
      destruct (@syncEach_reconciles c (r :: l) (mkCounts 0 0 0) wb Hfb)
        as (n2 & w2 & E2 & Hf2 & T2 & _ & Hhas & Hall & Hc & _).
      rewrite E in E2. injection E2 as <- <-. split; [|split; [|split; [|split]]].
      + intros id Hin Hrem.
        apply (Permutation_in _ (Permutation_sym Pb)) in Hin.
        apply in_map_iff in Hin. destruct Hin as (x & <- & Hx).
        apply Hall; [exact Hx|].
        now rewrite (proj2 (markerAt_same (r_activityId x) w wb Ab)).
      + rewrite Wb in Hc. cbn in Hc. lia.
      + exact Hf2.
      + unfold storedIds in *. now rewrite T2.
      + intros id. rewrite Hhas. apply (markerAt_same id w wb Ab). }
  destruct Hmain as (Hmark & Hn & Hf' & Hids & Hhas).
  split; [intros id Hs; apply Hmark; now apply storeHas_storedIds|].
  split; [exact Hn|].
  apply syncMissingInsightsToGarmin_settled; [exact Hf'|].
  intros id Hin Hrem. apply Hmark; [now rewrite <- Hids | now rewrite <- Hhas].
Qed.

End Sweep.

Lemma syncMissingInsightsToGarmin_reconciles_witness :
  let run := syncMissingInsightsToGarmin sampleHost GarminClient twoStoredWorld in
  let again := syncMissingInsightsToGarmin sampleHost GarminClient (snd run) in
  run = (Ok 1%Z, snd run)
  /\ storeHas "100" twoStoredWorld = true /\ remoteHas "100" twoStoredWorld = true
  /\ markerAt "100" twoStoredWorld = false
  /\ markerAt "100" (snd run) = true
  /\ storeHas "77" twoStoredWorld = true /\ remoteHas "77" twoStoredWorld = false
  /\ history remoteWrites (snd again) = history remoteWrites (snd run)
  /\ fst again = Ok 0%Z.
Proof.
  intros run again.
  assert (E : run = (Ok 1%Z, snd run)) by (vm_compute; reflexivity).
  destruct (@syncMissingInsightsToGarmin_reconciles sampleHost GarminClient
              twoStoredWorld 1%Z (snd run) eq_refl E) as (H1 & _ & _ & H3 & _).
  split; [exact E|]. split; [reflexivity|]. split; [reflexivity|].
  split; [reflexivity|]. split; [apply H1; reflexivity|].
  split; [reflexivity|]. split; [reflexivity|]. split; [exact H3|].
  vm_compute. reflexivity.
Defined.

Section SweepOnlyPosts.

Variable host : Host.

Lemma syncEach_count (c : GarminClientType) (todo : list AIInsightRecord) :
  forall n w,
    exists n' w',
      syncEach host c todo n w = (Ok n', w')
      /\ (syncedCount n <= syncedCount n' <= syncedCount n + Z.of_nat (length todo))%Z.
Proof.
  induction todo as [|record todo IH]; intros n w.
  - exists n, w. split; [reflexivity | cbn; lia].
  - cbn [syncEach]. unfold bind at 1.
    match goal with |- context [tryCatch ?m ?h w] =>
      assert (Hturn : exists n1 w1,
                 tryCatch m h w = (Ok n1, w1)
                 /\ (syncedCount n <= syncedCount n1 <= syncedCount n + 1)%Z)
    end.
    { unfold tryCatch, bind.
      destruct (hasActivityInsight (r_activityId record) c w) as [[[|]|e] w1];
        [eexists; eexists; split; [reflexivity | cbn; lia]
        | | eexists; eexists; split; [reflexivity | cbn; lia]].
      destruct (addActivityComment _ _ c false w1) as [[[|]|e] w2];
        [ | | eexists; eexists; split; [reflexivity | cbn; lia]];
        destruct (sleep 1000 w2) as [[[]|e] w3];
        eexists; eexists; (split; [reflexivity | cbn; lia]). }
    destruct Hturn as (n1 & w1 & -> & Hn1).
    destruct (IH n1 w1) as (n' & w' & E & Hn').
    exists n', w'. split; [exact E|].
    cbn [length]. rewrite Nat2Z.inj_succ. lia.
Qed.

Lemma syncEach_generation (c : GarminClientType) (todo : list AIInsightRecord) (n : SyncCounts) :
  Steps (Frame (history generation)) (syncEach host c todo n)
  /\ Steps (Frame table) (syncEach host c todo n).
Proof.
  revert n. induction todo as [|record todo IH]; intros n; cbn [syncEach].
  - split; apply Steps_ret; exact (@Frame_refl _ _).
  - split.
    + pose proof (fun id c => @hasActivityInsight_trace generation id c eq_refl).
      pose proof (fun id t c f => @addActivityComment_trace generation id t c f
                                    eq_refl eq_refl).
      pose proof (fun ms => @sleep_trace generation ms eq_refl).
      pose proof (fun n => proj1 (IH n)).
      frame.
    + pose proof hasActivityInsight_table. pose proof addActivityComment_table.
      pose proof sleep_table.
      pose proof (fun n => proj2 (IH n)).
      frame.
Qed.

Lemma getAllAIInsights_table : Steps (Frame table) getAllAIInsights.
Proof. unfold getAllAIInsights, getDB, sqlError, emit. frame. Qed.

(** X20.  The reconciliation sweep only posts: whatever the store and
    the remote service do, it calls no model and every insight in the
    store is the one that was there; and the count it returns is
    between 0 and the number of rows of the table. *)
Theorem syncMissingInsightsToGarmin_only_posts (c : GarminClientType) (w : World) :
  let run := syncMissingInsightsToGarmin host c w in
  history generation (snd run) = history generation w
  /\ StoredSame w (snd run)
  /\ (forall n, fst run = Ok n -> (0 <= n <= Z.of_nat (storedCount w))%Z).
Proof.
  cbv zeta. split; [|split].
  - pose proof (@initAIInsightsTable_trace generation eq_refl eq_refl).
    pose proof (@getAllAIInsights_trace generation eq_refl).
    pose proof (fun c todo n => proj1 (syncEach_generation c todo n)).
    assert (H2 : Steps (Frame (history generation)) (syncMissingInsightsToGarmin host c))
      by (unfold syncMissingInsightsToGarmin; frame).
    apply H2.
  - pose proof initAIInsightsTable_stored.
    pose proof (Steps_table_StoredSame getAllAIInsights_table).
    pose proof (fun c todo n => Steps_table_StoredSame (proj2 (syncEach_generation c todo n))).
    assert (H2 : Steps StoredSame (syncMissingInsightsToGarmin host c)).
    { unfold syncMissingInsightsToGarmin.
      repeat first
        [ assumption
        | solve [auto]
        | apply Steps_ret; exact StoredSame_refl
        | apply Steps_bind; [exact StoredSame_trans | | intro]
        | split_scrutinee ]. }
    apply H2.
  - intros n Hn.
    destruct (syncMissingInsightsToGarmin host c w) as [r w'] eqn:E. cbn [fst] in Hn.
    subst r. apply syncMissingInsightsToGarmin_inv in E.
    destruct E as (l & wb & _ & Hl & _ & _ & _ & _ & E).
    destruct l as [|r l].
    + destruct E as [-> _]. lia.
    + destruct E as (n' & E & ->).
      destruct (syncEach_count c (r :: l) (mkCounts 0 0 0) wb) as (n2 & w2 & E2 & Hb).
      rewrite E in E2. injection E2 as <- <-. rewrite Hl in Hb. cbn in Hb. lia.
Qed.

End SweepOnlyPosts.

Lemma syncMissingInsightsToGarmin_only_posts_witness :
  let run := syncMissingInsightsToGarmin sampleHost GarminClient unreachableWorld in
  fst run = Ok 1%Z
  /\ storedCount unreachableWorld = 1%nat
  /\ (0 <= 1 <= Z.of_nat (storedCount unreachableWorld))%Z.
Proof.
  intros run.
  assert (E : fst run = Ok 1%Z) by (vm_compute; reflexivity).
  split; [exact E | split; [reflexivity|]].
  exact (proj2 (proj2 (@syncMissingInsightsToGarmin_only_posts sampleHost GarminClient
                         unreachableWorld)) _ E).
Defined.

(** ** What a generated insight looks like *)

(** A byte from 128 to 191 goes on a character and starts none. *)
Lemma stripSpace_continuation (b : ascii) (r : string) :
  (128 <= nat_of_ascii b <= 191)%nat -> stripSpace (String b r) = None.
Proof.
  intros Hb. cbn [stripSpace].
  assert (Hw : isWhiteSpace b = false).
  { destruct (isWhiteSpace b) eqn:E; [|reflexivity].
    apply isWhiteSpace_ascii in E. unfold isAscii in E. apply Nat.ltb_lt in E. lia. }
  assert (H2 : forall c, isWideSpace2 b c = false).
  { intros c. unfold isWideSpace2.
    destruct (Nat.eqb_spec (nat_of_ascii b) 194); [lia | reflexivity]. }
  assert (H3 : forall c d, isWideSpace3 b c d = false).
  { intros c d. unfold isWideSpace3. cbv zeta.
    destruct (Nat.eqb_spec (nat_of_ascii b) 225); [lia|].
    destruct (Nat.eqb_spec (nat_of_ascii b) 226); [lia|].
    destruct (Nat.eqb_spec (nat_of_ascii b) 227); [lia|].
    destruct (Nat.eqb_spec (nat_of_ascii b) 239); [lia|]. reflexivity. }
  rewrite Hw. destruct r as [|c [|d r]]; rewrite ?H2, ?H3; reflexivity.
Qed.

Lemma isWideSpace2_continuation (a b : ascii) :
  isWideSpace2 a b = true -> (128 <= nat_of_ascii b <= 191)%nat.
Proof.
  unfold isWideSpace2. intros H. apply andb_true_iff in H. destruct H as [_ H].
  apply Nat.eqb_eq in H. lia.
Qed.

Lemma isWideSpace3_continuation (a b c : ascii) :
  isWideSpace3 a b c = true ->
  (128 <= nat_of_ascii b <= 191)%nat /\ (128 <= nat_of_ascii c <= 191)%nat.
Proof.
  unfold isWideSpace3. cbv zeta. intros H.
  repeat match type of H with
         | (_ || _)%bool = true => apply orb_true_iff in H; destruct H as [H|H]
         end;
    repeat match goal with
           | H : (_ && _)%bool = true |- _ => apply andb_true_iff in H; destruct H
           | H : (_ || _)%bool = true |- _ => apply orb_true_iff in H; destruct H
           | H : Nat.eqb _ _ = true |- _ => apply Nat.eqb_eq in H
           | H : Nat.leb _ _ = true |- _ => apply Nat.leb_le in H
           end;
    lia.
Qed.

Lemma isBlank_black (s : string) :
  stripSpace s = None -> s <> EmptyString -> isBlank s = false.
Proof.
  intros H Hs. unfold isBlank. rewrite trimStart_eq, H.
  destruct s; [congruence | reflexivity].
Qed.

Lemma isBlank_step (s r : string) : stripSpace s = Some r -> isBlank s = isBlank r.
Proof. intros H. unfold isBlank. now rewrite (trimStart_eq s), H. Qed.

(** What [stripSpace] looks at is at the start of the text. *)
Lemma stripSpace_app (p r t : string) :
  stripSpace p = Some r -> stripSpace (p ++ t) = Some (r ++ t).
Proof.
  destruct p as [|a [|b [|c p]]]; cbn [stripSpace append]; try discriminate;
    destruct (isWhiteSpace a);
    try (intros H; injection H as <-; reflexivity);
    try discriminate;
    destruct (isWideSpace2 a b);
    try (intros H; injection H as <-; reflexivity);
    try discriminate.
  destruct (isWideSpace3 a b c); [|discriminate].
  intros H. injection H as <-. reflexivity.
Qed.

Lemma stripSpace_prefix (p t : string) :
  stripSpace (p ++ t) = None -> stripSpace p = None.
Proof.
  intros H. destruct (stripSpace p) as [r|] eqn:E; [|reflexivity].
  rewrite (@stripSpace_app p r t E) in H. discriminate.
Qed.

Lemma trimEnd_cons (c : ascii) (s : string) :
  trimEnd (String c s) = if isBlank (String c s) then EmptyString else String c (trimEnd s).
Proof. reflexivity. Qed.

(** The white space character a text that is not blank starts with
    stays where it is when the end is trimmed. *)
Lemma trimEnd_step (s r : string) :
  stripSpace s = Some r -> isBlank s = false ->
  stripSpace (trimEnd s) = Some (trimEnd r).
Proof.
  intros E Hb.
  destruct s as [|a s1]; [discriminate|].
  rewrite trimEnd_cons, Hb.
  cbn [stripSpace] in E |- *.
  destruct (isWhiteSpace a); [now injection E as <-|].
  destruct s1 as [|b s2]; [discriminate|].
  destruct (isWideSpace2 a b) eqn:E2.
  - injection E as <-.
    rewrite trimEnd_cons,
      (@isBlank_black _ (@stripSpace_continuation b s2 (@isWideSpace2_continuation a b E2)))
      by discriminate.
    now rewrite E2.
  - destruct s2 as [|c s3]; [discriminate|].
    destruct (isWideSpace3 a b c) eqn:E3; [|discriminate].
    injection E as <-.
    destruct (@isWideSpace3_continuation a b c E3) as [Cb Cc].
    rewrite trimEnd_cons, (@isBlank_black _ (@stripSpace_continuation b _ Cb))
      by discriminate.
    rewrite trimEnd_cons, (@isBlank_black _ (@stripSpace_continuation c _ Cc))
      by discriminate.
    now rewrite E2, E3.
Qed.

Lemma trimEnd_startsBlack (s : string) : startsBlack s -> startsBlack (trimEnd s).
Proof.
  unfold startsBlack. intros H. destruct (trimEnd_prefix s) as [t Ht].
  rewrite Ht in H. eapply stripSpace_prefix, H.
Qed.

Lemma isBlank_trimEnd (s : string) : isBlank s = false -> isBlank (trimEnd s) = false.
Proof.
  induction s as [s E|s r E IH] using trimStart_ind; intros Hb.
  - destruct s as [|c s]; [discriminate|].
    apply isBlank_black; [now apply trimEnd_startsBlack|].
    rewrite trimEnd_cons, Hb. discriminate.
  - rewrite (@isBlank_step _ _ (@trimEnd_step s r E Hb)). apply IH.
    now rewrite <- (@isBlank_step s r E).
Qed.

Lemma trimEnd_idem (s : string) : trimEnd (trimEnd s) = trimEnd s.
Proof.
  induction s as [|c s IH]; [reflexivity|].
  pose proof (@isBlank_trimEnd (String c s)) as H.
  rewrite trimEnd_cons in H |- *.
  destruct (isBlank (String c s)); [reflexivity|].
  rewrite trimEnd_cons, (H eq_refl), IH. reflexivity.
Qed.

Lemma trimStart_startsBlack (s : string) : startsBlack (trimStart s).
Proof. apply stripSpace_trimStart. Qed.

Lemma trimStart_black (s : string) : startsBlack s -> trimStart s = s.
Proof. unfold startsBlack. intros H. now rewrite trimStart_eq, H. Qed.

Lemma trim_idem (s : string) : trim (trim s) = trim s.
Proof.
  unfold trim.
  rewrite (@trimStart_black (trimEnd (trimStart s)))
    by apply trimEnd_startsBlack, trimStart_startsBlack.
  apply trimEnd_idem.
Qed.

Lemma resultOf_shape (text : string) :
  model (resultOf text) = GEMINI_MODEL
  /\ trim (insight (resultOf text)) = insight (resultOf text)
  /\ (confidence (resultOf text) = NaN
      \/ inRange 0 1 (confidence (resultOf text)) = true).
Proof.
  unfold resultOf, parseConfidence. cbn [model insight confidence].
  split; [reflexivity|].
  destruct (findConfidence (trim text)) as [[[pre g] rest]|];
    cbn [pc_insight pc_confidence].
  - split; [apply trim_idem|].
    destruct (parseFloat g) as [|q] eqn:E; [now left|].
    right. apply clamp_inRange. discriminate.
  - split; [apply trim_idem | now right].
Qed.

Lemma generateAttempts_result (n : nat) :
  forall k w r w',
    generateAttempts n k w = (Ok (Some r), w') -> exists text, r = resultOf text.
Proof.
  induction n as [|n IH]; intros k w r w' E.
  - cbn in E. discriminate.
  - destruct (generateAttempts_turn n k w) as (w2 & _ & H).
    destruct (replyOutcome (replies w)) as [text|error].
    + rewrite H in E. injection E as <- _. now exists text.
    + destruct (isRateLimited error && (k <? MAX_RETRIES)%Z)%bool.
      * destruct H as (w3 & _ & _ & _ & H). rewrite H in E. eapply IH, E.
      * rewrite H in E. discriminate.
Qed.

(** X21.  Every insight [generateActivityInsights] returns names the
    model of the engine, is trimmed of white space at both ends, and has
    a confidence that is a number from 0 to 1 or no number at all. *)
Theorem generateActivityInsights_result_shape
        (host : Host) (config : Config) (a : GarminActivity)
        (all : option (list GarminActivity)) (w : World)
        (r : AIInsightResult) (w' : World) :
  generateActivityInsights host config a all w = (Ok (Some r), w') ->
  model r = GEMINI_MODEL
  /\ trim (insight r) = insight r
  /\ (confidence r = NaN \/ inRange 0 1 (confidence r) = true).
Proof.
  unfold generateActivityInsights.
  destruct (negb (isAIInsightsEnabled config)); [discriminate|].
  unfold bind at 1.
  match goal with |- context [match ?m w with _ => _ end] =>
    destruct (m w) as [[ctx|e] w1] end; [|discriminate].
  unfold bind, emit, modify. intros E.
  apply generateAttempts_result in E. destruct E as [text ->].
  apply resultOf_shape.
Qed.

Lemma generateActivityInsights_result_shape_witness :
  let run := generateActivityInsights sampleHost onConfig run_today None
               (mkWorld None [] [] [] [ReplyText "  Push the pace. [confidence: 3]  "]
                        [] NOON 0 []) in
  run = (Ok (Some (mkResult "Push the pace." GEMINI_MODEL (Num 1))), snd run)
  /\ trim "Push the pace." = "Push the pace."
  /\ inRange 0 1 (Num 1) = true.
Proof.
  intros run.
  assert (E : run = (Ok (Some (mkResult "Push the pace." GEMINI_MODEL (Num 1))), snd run))
    by (vm_compute; reflexivity).
  split; [exact E|].
  destruct (@generateActivityInsights_result_shape sampleHost onConfig run_today None
              _ _ _ E) as (_ & H2 & H3).
  split; [exact H2|]. destruct H3 as [H3|H3]; [discriminate H3 | exact H3].
Defined.

(** ** The refresh script *)

Lemma saveAIInsight_keeps (id : string) (data : AIInsightData) :
  Steps (Keeps id) (saveAIInsight data).
Proof.
  intros w. destruct (saveAIInsight data w) as [[[]|e] w'] eqn:E; cbn [snd].
  - apply saveAIInsight_inv in E. destruct E as (t & now & Ht & _ & Ht').
    unfold Keeps, storeHas. rewrite Ht, Ht'. cbn [rows existsb r_activityId].
    intros H. destruct (String.eqb (d_activityId data) id) eqn:Hid; [reflexivity|].
    cbn [orb]. rewrite existsb_filter_other; [exact H|].
    intros x Hx. apply String.eqb_eq in Hx. subst id. now rewrite String.eqb_sym, Hid.
  - apply saveAIInsight_thrown in E. apply Frame_table_Keeps. exact E.
Qed.

Section Refresh.

Variable host : Host.
Variable config : Config.

Lemma processActivityWithInsights_keeps (id : string)
      (a : GarminActivity) (c : option GarminClientType)
      (all : option (list GarminActivity)) (force : bool) :
  Steps (Keeps id) (processActivityWithInsights host config a c all force).
Proof.
  pose proof (initAIInsightsTable_keeps id).
  pose proof (saveAIInsight_keeps id).
  pose proof (fun x => Steps_table_Keeps id (hasAIInsight_table x)).
  pose proof (fun a all =>
                Steps_table_Keeps id (generateActivityInsights_table host config a all)).
  pose proof (fun x t c f => Steps_table_Keeps id (addActivityComment_table x t c f)).
  unfold processActivityWithInsights.
  repeat first
    [ assumption
    | solve [auto]
    | apply Steps_ret; exact (Keeps_refl id)
    | apply Steps_bind; [exact (@Keeps_trans id) | | intro]
    | apply Steps_tryCatch; [exact (@Keeps_trans id) | | intro]
    | split_scrutinee ].
Qed.

Lemma processActivityWithInsights_returns
      (a : GarminActivity) (c : option GarminClientType)
      (all : option (list GarminActivity)) (force : bool) :
  NoThrow (processActivityWithInsights host config a c all force).
Proof.
  unfold processActivityWithInsights.
  destruct (negb (isAIInsightsEnabled config)); [apply NoThrow_ret|].
  apply NoThrow_tryCatch. intros e. apply NoThrow_ret.
Qed.

(** One turn of the loop of [refreshInsights]. *)
Lemma refreshEach_turn (client : GarminClientType) (force : bool)
      (all : list GarminActivity) (a : GarminActivity) (todo : list GarminActivity)
      (n : RefreshInsights.Counts) (w : World) :
  exists n1 w1,
    RefreshInsights.refreshEach host config client force all (a :: todo) n w
    = RefreshInsights.refreshEach host config client force all todo n1 w1
    /\ (RefreshInsights.processedCount n1 + RefreshInsights.skippedCount n1
        + RefreshInsights.errorCount n1
        = RefreshInsights.processedCount n + RefreshInsights.skippedCount n
          + RefreshInsights.errorCount n + 1)%Z
    /\ (force = false ->
        RefreshInsights.errorCount n1 = RefreshInsights.errorCount n
        /\ forall id, Keeps id w w1).
Proof.
  cbn [RefreshInsights.refreshEach]. unfold bind, tryCatch, ret.
  destruct force.
  - destruct (RefreshInsights.deleteInsight (String_ (activityId a)) w)
      as [[[]|e] w1].
    + destruct (processActivityWithInsights_returns
                  a (Some client) (Some all) true w1) as [r Hr].
      destruct (processActivityWithInsights host config a (Some client) (Some all) true w1)
        as [[r'|e] w2]; cbn [fst] in Hr; [|discriminate].
      pose proof (sleep_returns 500 w2) as Hs.
      destruct r' as [res|];
        destruct (sleep 500 w2) as [[[]|e] w3]; cbn [fst] in Hs; try discriminate;
        eexists; eexists; (split; [reflexivity|]); cbn; (split; [lia | discriminate]).
    + pose proof (sleep_returns 500 w1) as Hs.
      destruct (sleep 500 w1) as [[[]|e'] w3]; cbn [fst] in Hs; try discriminate.
      eexists; eexists; (split; [reflexivity|]); cbn; (split; [lia | discriminate]).
  - destruct (processActivityWithInsights_returns
                a (Some client) (Some all) false w) as [r Hr].
    pose proof (fun id => processActivityWithInsights_keeps id a (Some client) (Some all)
                            false w) as Hk.
    destruct (processActivityWithInsights host config a (Some client) (Some all) false w)
      as [[r'|e] w2]; cbn [fst snd] in Hr, Hk; [|discriminate].
    pose proof (sleep_returns 500 w2) as Hs.
    pose proof (sleep_table 500 w2) as Ts.
    destruct r' as [res|];
      destruct (sleep 500 w2) as [[[]|e] w3]; cbn [fst snd] in Hs, Ts; try discriminate;
      eexists; eexists; (split; [reflexivity|]); cbn;
      (split; [lia|]); intros _; (split; [reflexivity|]);
      intros id; (eapply Keeps_trans; [apply Hk | now apply Frame_table_Keeps]).
Qed.

End Refresh.

Section RefreshLoop.

Variable host : Host.
Variable config : Config.

(** X22.  The loop of [refreshInsights] never throws and counts each
    activity exactly once, as processed, skipped or failed.  Without
    [--force] it counts no failure and every identifier that had a
    stored insight still has one. *)
Theorem refreshEach_counts_every_activity
        (client : GarminClientType) (force : bool) (all todo : list GarminActivity)
        (n : RefreshInsights.Counts) (w : World) :
  exists n' w',
    RefreshInsights.refreshEach host config client force all todo n w = (Ok n', w')
    /\ (RefreshInsights.processedCount n' + RefreshInsights.skippedCount n'
        + RefreshInsights.errorCount n'
        = RefreshInsights.processedCount n + RefreshInsights.skippedCount n
          + RefreshInsights.errorCount n + Z.of_nat (length todo))%Z
    /\ (force = false ->
        RefreshInsights.errorCount n' = RefreshInsights.errorCount n
        /\ forall id, storeHas id w = true -> storeHas id w' = true).
Proof.
  revert n w. induction todo as [|a todo IH]; intros n w.
  - exists n, w. split; [reflexivity|]. split; [cbn; lia|].
    intros _. split; [reflexivity | auto].
  - destruct (refreshEach_turn host config client force all a todo n w)
      as (n1 & w1 & E & Hsum & Hf).
    destruct (IH n1 w1) as (n' & w' & E' & Hsum' & Hf').
    exists n', w'. split; [now rewrite E|].
    split; [cbn [length]; rewrite Nat2Z.inj_succ; lia|].
    intros F. destruct (Hf F) as [He Hk]. destruct (Hf' F) as [He' Hk'].
    split; [congruence|]. intros id H. apply Hk', Hk, H.
Qed.

(** X23.  A forced refresh deletes the stored insight before it asks
    for a new one: when the delete has returned and the regeneration
    then returns null, the store is left without an insight for the
    activity, and the turn is counted as skipped. *)
Theorem forced_refresh_deletes_before_generating
        (client : GarminClientType) (all : list GarminActivity)
        (a : GarminActivity) (todo : list GarminActivity)
        (n : RefreshInsights.Counts) (w w1 w2 : World) :
  RefreshInsights.deleteInsight (String_ (activityId a)) w = (Ok tt, w1) ->
  processActivityWithInsights host config a (Some client) (Some all) true w1
  = (Ok None, w2) ->
  storeHas (String_ (activityId a)) w2 = false
  /\ RefreshInsights.refreshEach host config client true all (a :: todo) n w
     = RefreshInsights.refreshEach host config client true all todo
         (RefreshInsights.mkCounts (RefreshInsights.processedCount n)
                                   (RefreshInsights.skippedCount n + 1)
                                   (RefreshInsights.errorCount n))
         (snd (sleep 500 w2)).
Proof.
  intros Ed Ep. split.
  - pose proof (@deleteInsight_storeHas _ (String_ (activityId a)) _ _ Ed) as H1.
    rewrite String.eqb_refl in H1. cbn [negb andb] in H1.
    destruct (processActivityWithInsights_store_effect host config a (Some client)
                (Some all) true w1) as [_ Hnone].
    rewrite Ep in Hnone. cbn [fst snd] in Hnone.
    destruct (Hnone eq_refl) as [Hsame _].
    rewrite storedInsightOf_storeHas in *. rewrite Hsame. exact H1.
  - cbn [RefreshInsights.refreshEach]. unfold bind, tryCatch, ret.
    rewrite Ed, Ep.
    pose proof (sleep_returns 500 w2) as Hs.
    destruct (sleep 500 w2) as [[[]|e] w3]; cbn [fst] in Hs; [|discriminate].
    reflexivity.
Qed.

End RefreshLoop.

Lemma forced_refresh_deletes_before_generating_witness :
  storeHas "100" failingModelWorld = true
  /\ storeHas "100"
       (snd (RefreshInsights.refreshEach sampleHost onConfig GarminClient true
               [run_today] [run_today] (RefreshInsights.mkCounts 0 0 0)
               failingModelWorld)) = false.
Proof.
  split; [reflexivity|].
  set (w1 := snd (RefreshInsights.deleteInsight "100" failingModelWorld)).
  set (w2 := snd (processActivityWithInsights sampleHost onConfig run_today
                    (Some GarminClient) (Some [run_today]) true w1)).
  destruct (@forced_refresh_deletes_before_generating sampleHost onConfig GarminClient
              [run_today] run_today [] (RefreshInsights.mkCounts 0 0 0)
              failingModelWorld w1 w2) as [H1 H2].
  - vm_compute. reflexivity.
  - vm_compute. reflexivity.
  - rewrite H2. cbn [RefreshInsights.refreshEach]. unfold ret. cbn [snd].
    pose proof (sleep_table 500 w2) as T. unfold Frame in T.
    unfold storeHas in *. rewrite T. exact H1.
Defined.

(** ** The arguments of the refresh script *)

Section ParseArgs.

Import RefreshInsights.

(** No literal the loop compares [arg] with is the one met: the tests
    on [arg] in the context decide it. *)
Ltac literal_clash :=
  let E := fresh "E" in
  intros E; try discriminate E; subst;
  repeat match goal with
         | H : _ = true |- _ => vm_compute in H; discriminate H
         | H : _ = false |- _ => vm_compute in H; discriminate H
         | H : _ = Some _ |- _ => vm_compute in H; discriminate H
         end.

Ltac no_flag x :=
  assert (x <> "--force") by literal_clash;
  assert (x <> "-f") by literal_clash;
  assert (x <> "--global") by literal_clash;
  assert (x <> "--help") by literal_clash;
  assert (x <> "-h") by literal_clash.

Ltac which_literal H :=
  apply orb_true_iff in H; rewrite !String.eqb_eq in H; destruct H; subst.

Lemma parseLoop_flags (n : nat) :
  forall args a0 a,
    (length args <= n)%nat ->
    parseLoop args a0 = Returns a ->
    (force a = true <-> force a0 = true \/ In "--force" args \/ In "-f" args)
    /\ (useGlobal a = true <-> useGlobal a0 = true \/ In "--global" args)
    /\ (showHelp a = true <-> showHelp a0 = true \/ In "--help" args \/ In "-h" args).
Proof.
  induction n as [|n IH]; intros args a0 a Hn E;
    (destruct args as [|arg rest];
     [cbn in E; injection E as <-; cbn [In]; tauto|]);
    [cbn in Hn; lia|].
  cbn [length] in Hn. cbn [parseLoop] in E.
  destruct (String.eqb arg "--count" || String.eqb arg "-n")%bool eqn:Hc.
  { no_flag arg.
    destruct rest as [|nextArg rest'].
    - cbn in E. injection E as <-. cbn [In]. tauto.
    - destruct (truthy nextArg && negb (startsWith "-" nextArg))%bool eqn:Hv.
      + destruct (invalidCount (parseInt nextArg)); [discriminate|].
        no_flag nextArg.
        apply IH in E; [|cbn [length] in Hn; lia].
        cbn [force useGlobal showHelp withCount] in E. cbn [In]. tauto.
      + apply IH in E; [|lia]. cbn [In] in *. tauto. }
  destruct (stripPrefix "--count=" arg) as [value|] eqn:Hp.
  { no_flag arg.
    destruct (invalidCount (parseInt (beforeEquals value))); [discriminate|].
    apply IH in E; [|lia].
    cbn [force useGlobal showHelp withCount] in E. cbn [In]. tauto. }
  destruct (String.eqb arg "--force" || String.eqb arg "-f")%bool eqn:Hf.
  { apply IH in E; [|lia]. cbn [force useGlobal showHelp] in E.
    which_literal Hf; cbn [In]; intuition congruence. }
  destruct (String.eqb arg "--global") eqn:Hg.
  { apply IH in E; [|lia]. cbn [force useGlobal showHelp] in E.
    apply String.eqb_eq in Hg. subst. cbn [In]. intuition congruence. }
  destruct (String.eqb arg "--help" || String.eqb arg "-h")%bool eqn:Hh.
  { apply IH in E; [|lia]. cbn [force useGlobal showHelp] in E.
    which_literal Hh; cbn [In]; intuition congruence. }
  no_flag arg.
  destruct (isBareNumber arg).
  - apply IH in E; [|lia]. cbn [force useGlobal showHelp withCount] in E.
    cbn [In]. tauto.
  - apply IH in E; [|lia]. cbn [In]. tauto.
Qed.

(** X24.  When [parseArgs] returns, a flag is set exactly when it
    stands somewhere in the arguments (or, for the account, when the
    environment sets it): no flag is taken for the value of a count
    option, and the order of the arguments does not matter. *)
Theorem parseArgs_flags (env : Env) (argv : list string) (a : Args) :
  parseArgs env argv = Returns a ->
  (force a = true <-> In "--force" argv \/ In "-f" argv)
  /\ (useGlobal a = true <-> USE_GLOBAL env = Some "true" \/ In "--global" argv)
  /\ (showHelp a = true <-> In "--help" argv \/ In "-h" argv).
Proof.
  intros E. apply (@parseLoop_flags (length argv)) in E; [|lia].
  cbn [force useGlobal showHelp] in E. destruct E as (F & G & H).
  split; [|split].
  - rewrite F. intuition congruence.
  - rewrite G. destruct (USE_GLOBAL env) as [v|].
    + rewrite String.eqb_eq. intuition congruence.
    + intuition congruence.
  - rewrite H. intuition congruence.
Qed.

Lemma toDouble_nonneg (n : Z) : (0 <= n)%Z -> (0 <= toDouble n)%Z.
Proof.
  intros Hn. unfold toDouble. cbv zeta.
  destruct (Z.abs n <? 2 ^ 53)%Z; [exact Hn|].
  set (e := (Z.log2 (Z.abs n) - 52)%Z).
  set (q := Z.shiftr (Z.abs n) e).
  assert (Hq : (0 <= q)%Z) by (apply Z.shiftr_nonneg; lia).
  match goal with |- (0 <= Z.sgn n * Z.shiftl ?q' e)%Z =>
    assert (Hq' : (0 <= q')%Z)
      by (repeat match goal with |- context [if ?c then _ else _] => destruct c end; lia);
    pose proof (proj2 (Z.shiftl_nonneg q' e) Hq')
  end.
  pose proof (Z.sgn_nonneg n). nia.
Qed.

Lemma span_digits (s : string) : allDigits (fst (span isDigit s)) = true.
Proof.
  induction s as [|c s IH]; cbn [span]; [reflexivity|].
  destruct (isDigit c) eqn:Hc; [|reflexivity].
  destruct (span isDigit s) as [a b]. cbn [fst allDigits] in *.
  now rewrite Hc, IH.
Qed.

(** [parseInt] of a run of digits is not negative. *)
Lemma parseInt_bare (arg : string) :
  isBareNumber arg = true -> exists z, parseInt arg = Num (inject_Z z) /\ (0 <= z)%Z.
Proof.
  unfold isBareNumber, parseInt. intros H.
  destruct arg as [|c r]; [discriminate H|].
  pose proof (span_digits (String c r)) as Hd.
  cbn [span] in H, Hd.
  destruct (isDigit c) eqn:Hc; [|discriminate H].
  assert (Hw : isWhiteSpace c = false).
  { unfold isDigit in Hc. unfold isWhiteSpace.
    apply andb_true_iff in Hc. destruct Hc as [Hlo _]. apply Nat.leb_le in Hlo.
    repeat (apply orb_false_iff; split); apply Nat.eqb_neq; lia. }
  assert (Hs : (Ascii.eqb c "-" || Ascii.eqb c "+")%bool = false).
  { apply orb_false_iff; split; apply Ascii.eqb_neq; intros ->; discriminate Hc. }
  assert (Hm : startsWith "-" (String c r) = false).
  { unfold startsWith. cbn [stripPrefix].
    destruct (Ascii.eqb "-" c) eqn:E; [|reflexivity].
    apply Ascii.eqb_eq in E. subst c. discriminate Hc. }
  assert (Ht : trimStart (String c r) = String c r).
  { assert (Ha : isAscii c = true).
    { unfold isDigit in Hc. unfold isAscii.
      apply andb_true_iff in Hc. destruct Hc as [_ Hhi]. apply Nat.leb_le in Hhi.
      apply Nat.ltb_lt. lia. }
    pose proof (@stripSpace_app_ascii c r EmptyString Ha Hw) as H0.
    change (stripSpace (String c r) = None) in H0.
    now rewrite trimStart_eq, H0. }
  cbv zeta. rewrite Ht, Hs, Hm. cbn [span]. rewrite Hc.
  destruct (span isDigit r) as [a b]. cbn [fst] in *.
  eexists. split; [reflexivity|].
  apply toDouble_nonneg.
  exact (@digitsToZ_nonneg (String c a) 0%Z (Z.le_refl 0) Hd).
Qed.

Lemma invalidCount_false (n : number) :
  invalidCount n = false -> exists q, n = Num q /\ 0 < q.
Proof.
  destruct n as [|q]; cbn [invalidCount]; [discriminate|]. intros H.
  exists q. split; [reflexivity|].
  apply Qnot_le_lt. intros Hle. apply Qle_bool_iff in Hle. congruence.
Qed.

Lemma parseLoop_count (n : nat) :
  forall args a0 a,
    (length args <= n)%nat ->
    parseLoop args a0 = Returns a ->
    count a = count a0
    \/ exists q, count a = Num q
                 /\ (0 < q
                     \/ (q == 0 /\ exists arg, In arg args /\ isBareNumber arg = true)).
Proof.
  induction n as [|n IH]; intros args a0 a Hn E;
    (destruct args as [|arg rest];
     [cbn in E; injection E as <-; now left|]);
    [cbn in Hn; lia|].
  cbn [length] in Hn. cbn [parseLoop] in E.
  assert (Later : forall rest' a1,
             (length rest' <= n)%nat ->
             (forall x, In x rest' -> In x (arg :: rest)) ->
             parseLoop rest' a1 = Returns a ->
             count a1 = count a0
             \/ (exists q, count a1 = Num q /\ 0 < q)
             \/ (exists z, count a1 = Num (inject_Z z) /\ (0 <= z)%Z
                           /\ isBareNumber arg = true) ->
             count a = count a0
             \/ exists q, count a = Num q
                          /\ (0 < q
                              \/ (q == 0 /\ exists x, In x (arg :: rest)
                                                      /\ isBareNumber x = true))).
  { intros rest' a1 Hl Hin E1 H1. apply IH in E1; [|exact Hl].
    destruct E1 as [E1|(q & Hq & [Hpos|(Hz & x & Hx & Hb)])].
    - rewrite E1. destruct H1 as [H1|[(q & Hq & Hpos)|(z & Hz & Hnn & Hb)]].
      + now left.
      + right. exists q. auto.
      + right. exists (inject_Z z). split; [exact Hz|].
        destruct (Z.eq_dec z 0) as [->|Hne].
        * right. split; [reflexivity|]. exists arg. split; [now left | exact Hb].
        * left. change 0 with (inject_Z 0). rewrite <- Zlt_Qlt. lia.
    - right. exists q. auto.
    - right. exists q. split; [exact Hq|]. right. split; [exact Hz|].
      exists x. auto. }
  destruct (String.eqb arg "--count" || String.eqb arg "-n")%bool.
  { destruct rest as [|nextArg rest'].
    - cbn in E. injection E as <-. now left.
    - destruct (truthy nextArg && negb (startsWith "-" nextArg))%bool.
      + destruct (invalidCount (parseInt nextArg)) eqn:Hv; [discriminate|].
        apply Later in E; [exact E | cbn [length] in Hn; lia | cbn [In]; tauto |].
        right. left. cbn [count withCount]. now apply invalidCount_false.
      + apply Later in E; [exact E | lia | cbn [In]; tauto | now left]. }
  destruct (stripPrefix "--count=" arg) as [value|].
  { destruct (invalidCount (parseInt (beforeEquals value))) eqn:Hv; [discriminate|].
    apply Later in E; [exact E | lia | cbn [In]; tauto |].
    right. left. cbn [count withCount]. now apply invalidCount_false. }
  destruct (String.eqb arg "--force" || String.eqb arg "-f")%bool;
    [apply Later in E; [exact E | lia | cbn [In]; tauto | now left]|].
  destruct (String.eqb arg "--global");
    [apply Later in E; [exact E | lia | cbn [In]; tauto | now left]|].
  destruct (String.eqb arg "--help" || String.eqb arg "-h")%bool;
    [apply Later in E; [exact E | lia | cbn [In]; tauto | now left]|].
  destruct (isBareNumber arg) eqn:Hb.
  - apply Later in E; [exact E | lia | cbn [In]; tauto |].
    right. right. destruct (parseInt_bare arg Hb) as (z & Hz & Hnn).
    exists z. cbn [count withCount]. auto.
  - apply Later in E; [exact E | lia | cbn [In]; tauto | now left].
Qed.

(** X25.  The count [parseArgs] returns is never [NaN].  It is
    positive, unless it is the negative [REFRESH_COUNT] of the
    environment, or it is zero and a bare number stands among the
    arguments: a bare number is taken as it is, where [--count 0] ends
    the process. *)
Theorem parseArgs_count (env : Env) (argv : list string) (a : Args) :
  parseArgs env argv = Returns a ->
  exists q,
    count a = Num q
    /\ (0 < q
        \/ (q < 0 /\ REFRESH_COUNT env = Num q)
        \/ (q == 0 /\ exists arg, In arg argv /\ isBareNumber arg = true)).
Proof.
  intros E. apply (@parseLoop_count (length argv)) in E; [|lia].
  cbn [count] in E. destruct E as [E|(q & Hq & H)].
  - rewrite E. unfold orElse. destruct (REFRESH_COUNT env) as [|q] eqn:Hr.
    + exists 5. split; [reflexivity|]. left. reflexivity.
    + destruct (Qeq_bool q 0) eqn:Hz.
      * exists 5. split; [reflexivity|]. left. reflexivity.
      * exists q. split; [reflexivity|].
        destruct (Qlt_le_dec 0 q) as [Hpos|Hle]; [now left|].
        right. left. split; [|reflexivity].
        apply Qle_lt_or_eq in Hle. destruct Hle as [Hlt|Heq]; [exact Hlt|].
        apply Qeq_bool_iff in Heq. congruence.
  - exists q. split; [exact Hq|]. tauto.
Qed.

Lemma parseLoop_exits (n : nat) :
  forall args a0 code,
    (length args <= n)%nat ->
    parseLoop args a0 = Exits code ->
    code = 1%Z
    /\ exists arg, In arg args
                   /\ (arg = "--count" \/ arg = "-n" \/ startsWith "--count=" arg = true).
Proof.
  induction n as [|n IH]; intros args a0 code Hn E;
    (destruct args as [|arg rest]; [discriminate E|]);
    [cbn in Hn; lia|].
  cbn [length] in Hn. cbn [parseLoop] in E.
  assert (Later : forall rest' a1,
             (length rest' <= n)%nat ->
             (forall x, In x rest' -> In x (arg :: rest)) ->
             parseLoop rest' a1 = Exits code ->
             code = 1%Z
             /\ exists x, In x (arg :: rest)
                          /\ (x = "--count" \/ x = "-n"
                              \/ startsWith "--count=" x = true)).
  { intros rest' a1 Hl Hin E1. apply IH in E1; [|exact Hl].
    destruct E1 as (Hc & x & Hx & H). split; [exact Hc|]. exists x. auto. }
  destruct (String.eqb arg "--count" || String.eqb arg "-n")%bool eqn:Hc.
  { destruct rest as [|nextArg rest'].
    - discriminate E.
    - destruct (truthy nextArg && negb (startsWith "-" nextArg))%bool.
      + destruct (invalidCount (parseInt nextArg)).
        * injection E as <-. split; [reflexivity|]. exists arg.
          split; [now left|]. apply orb_true_iff in Hc.
          rewrite !String.eqb_eq in Hc. tauto.
        * apply Later in E; [exact E | cbn [length] in Hn; lia | cbn [In]; tauto].
      + apply Later in E; [exact E | lia | cbn [In]; tauto]. }
  destruct (stripPrefix "--count=" arg) as [value|] eqn:Hp.
  { destruct (invalidCount (parseInt (beforeEquals value))).
    - injection E as <-. split; [reflexivity|]. exists arg.
      split; [now left|]. right. right. unfold startsWith. now rewrite Hp.
    - apply Later in E; [exact E | lia | cbn [In]; tauto]. }
  destruct (String.eqb arg "--force" || String.eqb arg "-f")%bool;
    [apply Later in E; [exact E | lia | cbn [In]; tauto]|].
  destruct (String.eqb arg "--global");
    [apply Later in E; [exact E | lia | cbn [In]; tauto]|].
  destruct (String.eqb arg "--help" || String.eqb arg "-h")%bool;
    [apply Later in E; [exact E | lia | cbn [In]; tauto]|].
  destruct (isBareNumber arg);
    apply Later in E; solve [exact E | lia | cbn [In]; tauto].
Qed.

(** X26.  [parseArgs] ends the process only with status 1, and only
    when a count option stands among the arguments: flags, bare numbers
    and unknown arguments never end it. *)
Theorem parseArgs_exits_only_on_count (env : Env) (argv : list string) (code : Z) :
  parseArgs env argv = Exits code ->
  code = 1%Z
  /\ exists arg, In arg argv
                 /\ (arg = "--count" \/ arg = "-n" \/ startsWith "--count=" arg = true).
Proof. intros E. now apply (@parseLoop_exits (length argv)) in E. Qed.

Lemma stripPrefix_dash (value arg : string) :
  stripPrefix "--count=" arg = Some value -> startsWith "-" arg = true.
Proof.
  destruct arg as [|c r]; [discriminate|].
  cbn [stripPrefix]. unfold startsWith. cbn [stripPrefix].
  destruct (Ascii.eqb "-" c); [reflexivity | discriminate].
Qed.

Lemma parseLoop_rejects (arg value : string) (n : nat) :
  stripPrefix "--count=" arg = Some value ->
  invalidCount (parseInt (beforeEquals value)) = true ->
  forall args a0,
    (length args <= n)%nat -> In arg args -> parseLoop args a0 = Exits 1.
Proof.
  intros Hp Hv. pose proof (@stripPrefix_dash value arg Hp) as Hd.
  induction n as [|n IH]; intros args a0 Hn Hin;
    (destruct args as [|arg0 rest]; [destruct Hin|]);
    [cbn in Hn; lia|].
  cbn [length] in Hn. cbn [parseLoop].
  destruct (String.eqb arg0 "--count" || String.eqb arg0 "-n")%bool eqn:Hc.
  { assert (Hne : arg0 <> arg).
    { intros ->. apply orb_true_iff in Hc. rewrite !String.eqb_eq in Hc.
      destruct Hc as [->| ->]; discriminate Hp. }
    destruct Hin as [Hin|Hin]; [contradiction|].
    destruct rest as [|nextArg rest']; [destruct Hin|].
    destruct (truthy nextArg && negb (startsWith "-" nextArg))%bool eqn:Hn'.
    - destruct (invalidCount (parseInt nextArg)); [reflexivity|].
      apply IH; [cbn [length] in Hn; lia|].
      destruct Hin as [->|Hin]; [|exact Hin].
      rewrite Hd in Hn'. now rewrite andb_false_r in Hn'.
    - apply IH; [lia | exact Hin]. }
  destruct Hin as [->|Hin].
  { now rewrite Hp, Hv. }
  destruct (stripPrefix "--count=" arg0) as [value0|].
  { destruct (invalidCount (parseInt (beforeEquals value0))); [reflexivity|].
    apply IH; [lia | exact Hin]. }
  destruct (String.eqb arg0 "--force" || String.eqb arg0 "-f")%bool;
    [apply IH; [lia | exact Hin]|].
  destruct (String.eqb arg0 "--global"); [apply IH; [lia | exact Hin]|].
  destruct (String.eqb arg0 "--help" || String.eqb arg0 "-h")%bool;
    [apply IH; [lia | exact Hin]|].
  destruct (isBareNumber arg0); apply IH; solve [lia | exact Hin].
Qed.

(** X27.  An argument [--count=value] whose value is no positive
    number ends the process with status 1 wherever it stands: nothing
    before it in the arguments can make the loop pass over it. *)
Theorem parseArgs_rejects_bad_count (env : Env) (argv : list string)
        (arg value : string) :
  In arg argv ->
  stripPrefix "--count=" arg = Some value ->
  invalidCount (parseInt (beforeEquals value)) = true ->
  parseArgs env argv = Exits 1.
Proof.
  intros Hin Hp Hv. unfold parseArgs.
  now apply (@parseLoop_rejects arg value (length argv) Hp Hv).
Qed.

End ParseArgs.

Lemma parseArgs_flags_witness :
  exists a,
    RefreshInsights.parseArgs (RefreshInsights.mkEnv NaN None) ["-n"; "--force"; "3"]
    = RefreshInsights.Returns a
    /\ RefreshInsights.force a = true
    /\ RefreshInsights.count a = Num 3.
Proof.
  eexists. split; [vm_compute; reflexivity|]. split; [|reflexivity].
  apply (@parseArgs_flags (RefreshInsights.mkEnv NaN None) ["-n"; "--force"; "3"] _ eq_refl).
  left. cbn. auto.
Defined.

Lemma parseArgs_count_witness :
  RefreshInsights.parseArgs (RefreshInsights.mkEnv NaN None) ["--count"; "7"; "0"]
  = RefreshInsights.Returns (RefreshInsights.mkArgs (Num 0) false false false)
  /\ exists q,
       Num 0 = Num q
       /\ (0 < q
           \/ (q < 0 /\ NaN = Num q)
           \/ (q == 0 /\ exists arg, In arg ["--count"; "7"; "0"]
                                     /\ RefreshInsights.isBareNumber arg = true)).
Proof.
  split; [reflexivity|].
  exact (@parseArgs_count (RefreshInsights.mkEnv NaN None) ["--count"; "7"; "0"]
           (RefreshInsights.mkArgs (Num 0) false false false) eq_refl).
Defined.

Lemma parseArgs_exits_only_on_count_witness :
  RefreshInsights.parseArgs (RefreshInsights.mkEnv NaN None) ["--force"; "-n"; "0"]
  = RefreshInsights.Exits 1
  /\ exists arg, In arg ["--force"; "-n"; "0"]
                 /\ (arg = "--count" \/ arg = "-n" \/ startsWith "--count=" arg = true).
Proof.
  split; [reflexivity|].
  exact (proj2 (@parseArgs_exits_only_on_count (RefreshInsights.mkEnv NaN None)
                  ["--force"; "-n"; "0"] 1%Z eq_refl)).
Defined.

Lemma parseArgs_rejects_bad_count_witness :
  RefreshInsights.parseArgs (RefreshInsights.mkEnv (Num 3) None)
    ["--count"; "--count=-5"; "9"]
  = RefreshInsights.Exits 1.
Proof.
  apply (@parseArgs_rejects_bad_count (RefreshInsights.mkEnv (Num 3) None)
           ["--count"; "--count=-5"; "9"] "--count=-5" "-5").
  - cbn. auto.
  - reflexivity.
  - reflexivity.
Defined.

(** The white space [parseInt] passes over is more than its ASCII
    members, and the count is the double nearest to what the digits
    write. *)
Example parseArgs_count_after_wide_space :
  RefreshInsights.parseArgs (RefreshInsights.mkEnv NaN None) ["--count=" ++ NBSP ++ "5"]
  = RefreshInsights.Returns (RefreshInsights.mkArgs (Num 5) false false false)
  /\ RefreshInsights.parseArgs (RefreshInsights.mkEnv NaN None)
       ["--count=" ++ NBSP ++ "x"]
     = RefreshInsights.Exits 1
  /\ RefreshInsights.parseInt "9007199254740993" = Num (inject_Z 9007199254740992).
Proof. repeat split; vm_compute; reflexivity. Qed.
